(** * Markdown-on-paste add-on: a shallow embedding of [src/__init__.py]

    The development follows the Python module function by function:
    the clue classifier [_looks_like_markdown], the strategy
    [_convert_markdown], the line-oriented converter
    [_basic_markdown_to_html] with its two closures [close_lists] and
    [flush_paragraph], the inline pass [_process_inline] and the paste hook
    [_maybe_convert_markdown].

    Text is a list of characters.  A character is a code point in the range
    0..255 ([ascii]); the predicates [isspace] and [isdigit] are Python's
    [str.isspace] and the regular-expression classes [\s] and [\d] on that
    range. *)

From Stdlib Require Import Ascii String DecimalString.
From Stdlib Require Import List Bool Arith Lia.
From Stdlib Require Finite DecimalNat DecimalFacts.
Import ListNotations.

Set Implicit Arguments.

(* ================================================================== *)
(** ** Characters and text *)

Module Text.

Definition text := list ascii.

(** A literal of the source. *)
Definition str (s : string) : text := list_ascii_of_string s.

Definition nl : ascii := "010"%char.      (* "\n" *)
Definition cr : ascii := "013"%char.      (* "\r" *)
Definition dquote : ascii := "034"%char.  (* the double quote *)
Definition squote : ascii := "039"%char.  (* the single quote *)

(** [str.isspace] / the class [\s] on code points below 256:
    TAB..CR, FS..US, SPACE, NEL (0x85) and NBSP (0xA0). *)
Definition isspace (c : ascii) : bool :=
  let n := nat_of_ascii c in
  ((9 <=? n) && (n <=? 13)) || ((28 <=? n) && (n <=? 32))
  || (n =? 133) || (n =? 160).

(** The class [\d] on code points below 256. *)
Definition isdigit (c : ascii) : bool :=
  let n := nat_of_ascii c in (48 <=? n) && (n <=? 57).

Fixpoint text_eqb (a b : text) : bool :=
  match a, b with
  | [], [] => true
  | x :: a', y :: b' => Ascii.eqb x y && text_eqb a' b'
  | _, _ => false
  end.

Fixpoint startswith (p s : text) : bool :=
  match p, s with
  | [], _ => true
  | _ :: _, [] => false
  | x :: p', y :: s' => Ascii.eqb x y && startswith p' s'
  end.

(** [s.lstrip()], [s.rstrip()], [s.strip()]. *)
Fixpoint lstrip (s : text) : text :=
  match s with
  | [] => []
  | c :: s' => if isspace c then lstrip s' else s
  end.

Definition rstrip (s : text) : text := rev (lstrip (rev s)).

Definition strip (s : text) : text := rstrip (lstrip s).

(** [sep.join(parts)]. *)
Fixpoint join (sep : text) (parts : list text) : text :=
  match parts with
  | [] => []
  | [p] => p
  | p :: rest => p ++ sep ++ join sep rest
  end.

(** [s.split(sep)] for a one-character separator: always at least one
    field. *)
Fixpoint split (sep : ascii) (s : text) : list text :=
  match s with
  | [] => [[]]
  | c :: s' =>
      if Ascii.eqb c sep then [] :: split sep s'
      else match split sep s' with
           | [] => [[c]]
           | f :: fs => (c :: f) :: fs
           end
  end.

(** [s.replace(old, new)]: every non-overlapping occurrence of [old], from
    the left.  [skip] counts the characters of the occurrence being
    replaced that are still to be passed over.  An empty [old] is never used
    by the program and is left alone here. *)
Fixpoint replace_go (old new : text) (s : text) (skip : nat) : text :=
  match s with
  | [] => []
  | c :: s' =>
      match skip with
      | S k => replace_go old new s' k
      | 0 =>
          match old with
          | [] => c :: replace_go old new s' 0
          | _ :: _ =>
              if startswith old s
              then new ++ replace_go old new s' (length old - 1)
              else c :: replace_go old new s' 0
          end
      end
  end.

Definition replace (old new s : text) : text := replace_go old new s 0.

(** [str(n)] for a natural number. *)
Definition str_of_nat (n : nat) : text :=
  str (NilZero.string_of_uint (Nat.to_uint n)).

(** [html.escape(s, quote)]: [&], [<], [>] always, the two quote characters
    when [quote] is set. *)
Definition escape_char (quote : bool) (c : ascii) : text :=
  if Ascii.eqb c "&" then str "&amp;"
  else if Ascii.eqb c "<" then str "&lt;"
  else if Ascii.eqb c ">" then str "&gt;"
  else if quote && Ascii.eqb c dquote then str "&quot;"
  else if quote && Ascii.eqb c squote then str "&#x27;"
  else [c].

Definition html_escape (quote : bool) (s : text) : text :=
  flat_map (escape_char quote) s.

End Text.
Import Text.

(* ================================================================== *)
(** ** The regular expressions of the module

    The patterns of the program are sequences of literal characters,
    one-character classes, greedy bounded or unbounded repetitions of a
    class, the anchor [^] and one-character negative look-arounds.  Every
    parenthesised group encloses exactly one repetition, so a repetition
    carries a flag saying whether it is captured.  The matcher backtracks
    the way [re] does: a greedy repetition first takes the longest run and
    gives characters back one at a time. *)

Module Re.

Inductive atom : Type :=
| Chr (c : ascii)                       (* a literal character *)
| Cls (p : ascii -> bool)               (* a class, once: [-*+] *)
| Rep (cap : bool) (p : ascii -> bool) (lo : nat) (hi : option nat)
                                        (* p{lo,hi}, greedy; cap: in ( ) *)
| Bol                                   (* ^ without re.MULTILINE *)
| BolM                                  (* ^ under re.MULTILINE *)
| NotBehind (c : ascii)                 (* (?<!c) *)
| NotAhead (c : ascii).                 (* (?!c) *)

Definition regex := list atom.

(** A successful match: the captured groups in order, and the number of
    characters of the subject that the match covers. *)
Definition found := (list text * nat)%type.

(** Length of the longest prefix of [s] in class [p], at most [hi]. *)
Fixpoint run (p : ascii -> bool) (hi : option nat) (s : text) : nat :=
  match s with
  | [] => 0
  | c :: s' =>
      if p c then
        match hi with
        | Some 0 => 0
        | Some (S h) => S (run p (Some h) s')
        | None => S (run p None s')
        end
      else 0
  end.

(** Try [k], [k-1], ..., [lo] in this order. *)
Fixpoint try_down (A : Type) (f : nat -> option A) (lo k : nat) : option A :=
  if k <? lo then None
  else match f k with
       | Some r => Some r
       | None => match k with
                 | 0 => None
                 | S k' => try_down f lo k'
                 end
       end.

(** The character before the position reached after [taken]. *)
Definition last_char (prev : option ascii) (taken : text) : option ascii :=
  match rev taken with
  | [] => prev
  | c :: _ => Some c
  end.

Definition bump (k : nat) (g : option text) (r : option found) : option found :=
  match r with
  | None => None
  | Some (gs, n) =>
      Some (match g with Some x => x :: gs | None => gs end, k + n)
  end.

(** [m_atoms rs prev s]: match [rs] at the position of the subject where
    [prev] is the previous character ([None] at the start of the subject)
    and [s] is what follows. *)
Fixpoint m_atoms (rs : regex) (prev : option ascii) (s : text) : option found :=
  match rs with
  | [] => Some ([], 0)
  | Chr c :: rs' =>
      match s with
      | x :: s' =>
          if Ascii.eqb x c then bump 1 None (m_atoms rs' (Some x) s') else None
      | [] => None
      end
  | Cls p :: rs' =>
      match s with
      | x :: s' =>
          if p x then bump 1 None (m_atoms rs' (Some x) s') else None
      | [] => None
      end
  | Rep cap p lo hi :: rs' =>
      try_down
        (fun k =>
           bump k (if cap then Some (firstn k s) else None)
                (m_atoms rs' (last_char prev (firstn k s)) (skipn k s)))
        lo (run p hi s)
  | Bol :: rs' =>
      match prev with
      | None => m_atoms rs' prev s
      | Some _ => None
      end
  | BolM :: rs' =>
      match prev with
      | None => m_atoms rs' prev s
      | Some c => if Ascii.eqb c nl then m_atoms rs' prev s else None
      end
  | NotBehind c :: rs' =>
      match prev with
      | Some x => if Ascii.eqb x c then None else m_atoms rs' prev s
      | None => m_atoms rs' prev s
      end
  | NotAhead c :: rs' =>
      match s with
      | x :: _ => if Ascii.eqb x c then None else m_atoms rs' prev s
      | [] => m_atoms rs' prev s
      end
  end.

(** [re.match(pattern, s)]. *)
Definition re_match (rs : regex) (s : text) : option found :=
  m_atoms rs None s.

(** [re.search(pattern, s)]: the first position, from the left, where the
    pattern matches. *)
Fixpoint search_from (rs : regex) (prev : option ascii) (s : text)
  : option found :=
  match m_atoms rs prev s with
  | Some r => Some r
  | None =>
      match s with
      | [] => None
      | c :: s' => search_from rs (Some c) s'
      end
  end.

Definition re_search (rs : regex) (s : text) : option found :=
  search_from rs None s.

(** [m.group(i)], [i >= 1]. *)
Definition group (i : nat) (m : found) : text := nth (i - 1) (fst m) [].

End Re.
Import Re.

(* ================================================================== *)
(** ** [re.sub] with a callback

    The callback of [_process_inline] draws tokens from a counter and fills
    a dictionary, so the substitution threads a state of type [St] through
    the calls, one call per match, from left to right.  [skip] counts the
    characters of the current match still to be passed over; the
    look-behind sees the subject, not the output. *)

Module Sub.

Section WithState.
Variable St : Type.
Variable rs : regex.
Variable func : found -> St -> text * St.

Fixpoint sub_go (prev : option ascii) (s : text) (skip : nat) (st : St)
  : text * St :=
  match s with
  | [] =>
      match skip with
      | S _ => ([], st)
      | 0 =>
          match m_atoms rs prev [] with
          | Some m => func m st
          | None => ([], st)
          end
      end
  | c :: s' =>
      match skip with
      | S k => sub_go (Some c) s' k st
      | 0 =>
          match m_atoms rs prev s with
          | Some m =>
              let (out, st1) := func m st in
              match snd m with
              | 0 =>
                  let (rest, st2) := sub_go (Some c) s' 0 st1 in
                  (out ++ c :: rest, st2)
              | S k =>
                  let (rest, st2) := sub_go (Some c) s' k st1 in
                  (out ++ rest, st2)
              end
          | None =>
              let (rest, st1) := sub_go (Some c) s' 0 st in
              (c :: rest, st1)
          end
      end
  end.

Definition re_sub_st (s : text) (st : St) : text * St := sub_go None s 0 st.

End WithState.

(** [re.sub(pattern, func, s)] for a callback without effects. *)
Definition re_sub (rs : regex) (func : found -> text) (s : text) : text :=
  fst (re_sub_st rs (fun m (_ : unit) => (func m, tt)) s tt).

End Sub.
Import Sub.

(* ================================================================== *)
(** ** Character classes and the patterns of the module

    Each pattern is quoted beside its definition in the layout of
    [re.VERBOSE]: a blank inside the quotation is not part of the pattern. *)

Module Patterns.

Definition is_chr (c : ascii) : ascii -> bool := fun x => Ascii.eqb x c.
Definition not_chr (c : ascii) : ascii -> bool := fun x => negb (Ascii.eqb x c).
Definition one_of (cs : text) : ascii -> bool :=
  fun x => existsb (Ascii.eqb x) cs.
(** [.] without re.DOTALL. *)
Definition dot : ascii -> bool := not_chr nl.

Definition bullet : ascii -> bool := one_of (str "-*+").
Definition dot_or_paren : ascii -> bool := one_of (str ".)").

(** [MARKDOWN_CLUES], each compiled with [re.MULTILINE]. *)
Definition clue_heading : regex :=          (* ^#{1,6}\s *)
  [BolM; Rep false (is_chr "#") 1 (Some 6); Cls isspace].
Definition clue_unordered : regex :=        (* ^\s{0,3}[-*+]\s *)
  [BolM; Rep false isspace 0 (Some 3); Cls bullet; Cls isspace].
Definition clue_ordered : regex :=          (* ^\s{0,3}\d+[.)]\s *)
  [BolM; Rep false isspace 0 (Some 3); Rep false isdigit 1 None;
   Cls dot_or_paren; Cls isspace].
Definition clue_code : regex :=             (* `{1,3}[^`]+`{1,3} *)
  [Rep false (is_chr "`") 1 (Some 3); Rep false (not_chr "`") 1 None;
   Rep false (is_chr "`") 1 (Some 3)].
Definition clue_link : regex :=             (* \[[^\]]+\]\([^)]+\) *)
  [Chr "["; Rep false (not_chr "]") 1 None; Chr "]"; Chr "(";
   Rep false (not_chr ")") 1 None; Chr ")"].
Definition clue_bold_star : regex :=        (* \*\*[^*]+\*\* *)
  [Chr "*"; Chr "*"; Rep false (not_chr "*") 1 None; Chr "*"; Chr "*"].
Definition clue_bold_under : regex :=       (* __[^_]+__ *)
  [Chr "_"; Chr "_"; Rep false (not_chr "_") 1 None; Chr "_"; Chr "_"].
Definition clue_blockquote : regex :=       (* ^\s{0,3}>\s *)
  [BolM; Rep false isspace 0 (Some 3); Chr ">"; Cls isspace].

Definition MARKDOWN_CLUES : list regex :=
  [clue_heading; clue_unordered; clue_ordered; clue_code; clue_link;
   clue_bold_star; clue_bold_under; clue_blockquote].

(** The block patterns of [_basic_markdown_to_html], used with [re.match]. *)
Definition pat_heading : regex :=           (* ^(#{1,6})\s+(.* ) *)
  [Bol; Rep true (is_chr "#") 1 (Some 6); Rep false isspace 1 None;
   Rep true dot 0 None].
Definition pat_blockquote : regex :=        (* ^>\s?(.* ) *)
  [Bol; Chr ">"; Rep false isspace 0 (Some 1); Rep true dot 0 None].
Definition pat_unordered : regex :=         (* ^[-*+]\s+(.* ) *)
  [Bol; Cls bullet; Rep false isspace 1 None; Rep true dot 0 None].
Definition pat_ordered : regex :=           (* ^\d+[.)]\s+(.* ) *)
  [Bol; Rep false isdigit 1 None; Cls dot_or_paren;
   Rep false isspace 1 None; Rep true dot 0 None].

(** The inline patterns of [_process_inline], used with [re.sub]. *)
Definition pat_code : regex :=              (* `([^`]+)` *)
  [Chr "`"; Rep true (not_chr "`") 1 None; Chr "`"].
Definition pat_link : regex :=              (* \[([^\]]+)\]\(([^)]+)\) *)
  [Chr "["; Rep true (not_chr "]") 1 None; Chr "]"; Chr "(";
   Rep true (not_chr ")") 1 None; Chr ")"].
Definition pat_strong_star : regex :=       (* \*\*([^*]+)\*\* *)
  [Chr "*"; Chr "*"; Rep true (not_chr "*") 1 None; Chr "*"; Chr "*"].
Definition pat_strong_under : regex :=      (* __([^_]+)__ *)
  [Chr "_"; Chr "_"; Rep true (not_chr "_") 1 None; Chr "_"; Chr "_"].
Definition pat_em_star : regex :=           (* (?<!\* )\*([^*]+)\*(?!\* ) *)
  [NotBehind "*"; Chr "*"; Rep true (not_chr "*") 1 None; Chr "*";
   NotAhead "*"].
Definition pat_em_under : regex :=          (* (?<!_)_([^_]+)_(?!_) *)
  [NotBehind "_"; Chr "_"; Rep true (not_chr "_") 1 None; Chr "_";
   NotAhead "_"].

End Patterns.
Import Patterns.

(* ================================================================== *)
(** ** The classifier *)

Definition is_some (A : Type) (o : option A) : bool :=
  match o with Some _ => true | None => false end.

Definition null (A : Type) (l : list A) : bool :=
  match l with [] => true | _ :: _ => false end.

Definition _looks_like_markdown (txt : text) : bool :=
  let stripped := strip txt in
  if null stripped then false
  else if negb (existsb (Ascii.eqb nl) stripped) && (length stripped <? 6)
       then false
  else existsb (fun pattern => is_some (re_search pattern stripped))
               MARKDOWN_CLUES.

(* ================================================================== *)
(** ** The inline pass *)

Module Inline.

(** The local state of one call: the counter behind [next(counter)] and the
    dictionary [placeholders], in insertion order (tokens are pairwise
    distinct, so no entry is ever overwritten). *)
Record env : Type := {
  counter : nat;
  placeholders : list (text * text)
}.

Definition empty_env : env := {| counter := 0; placeholders := [] |}.

Definition token (n : nat) : text := str "@@MD" ++ str_of_nat n ++ str "@@".

(** The closure [store]. *)
Definition store (replacement : text) (e : env) : text * env :=
  let tok := token (counter e) in
  (tok, {| counter := S (counter e);
           placeholders := placeholders e ++ [(tok, replacement)] |}).

Definition code_fragment (m : found) : text :=
  str "<code>" ++ html_escape true (group 1 m) ++ str "</code>".

Definition link_fragment (m : found) : text :=
  str "<a href=" ++ [dquote] ++ html_escape true (group 2 m) ++ [dquote]
  ++ str ">" ++ html_escape true (group 1 m) ++ str "</a>".

Definition strong (m : found) : text :=
  str "<strong>" ++ group 1 m ++ str "</strong>".

Definition em (m : found) : text :=
  str "<em>" ++ group 1 m ++ str "</em>".

(** The four emphasis substitutions, in the order of the source. *)
Definition emphasis (escaped : text) : text :=
  let escaped := re_sub pat_strong_star strong escaped in
  let escaped := re_sub pat_strong_under strong escaped in
  let escaped := re_sub pat_em_star em escaped in
  let escaped := re_sub pat_em_under em escaped in
  escaped.

(** The final loop over [placeholders.items()]. *)
Fixpoint restore (items : list (text * text)) (escaped : text) : text :=
  match items with
  | [] => escaped
  | (tok, value) :: rest =>
      let escaped := replace (html_escape true tok) value escaped in
      let escaped := replace tok value escaped in
      restore rest escaped
  end.

Definition _process_inline (txt : text) : text :=
  let (txt, e1) :=
    re_sub_st pat_code (fun m => store (code_fragment m)) txt empty_env in
  let (txt, e2) :=
    re_sub_st pat_link (fun m => store (link_fragment m)) txt e1 in
  let escaped := html_escape false txt in
  let escaped := emphasis escaped in
  restore (placeholders e2) escaped.

End Inline.
Import Inline.

(* ================================================================== *)
(** ** The block converter *)

Module Block.

(** The local variables of [_basic_markdown_to_html] that the loop and the
    two closures share.  [list_stack] is a Python list used as a stack: its
    top is its last element. *)
Record state : Type := {
  html_lines : list text;
  in_code_block : bool;
  code_block_language : text;
  list_stack : list text;
  paragraph_lines : list text
}.

Definition initial : state :=
  {| html_lines := []; in_code_block := false; code_block_language := [];
     list_stack := []; paragraph_lines := [] |}.

(** [html_lines.append(l)]. *)
Definition emit (l : text) (st : state) : state :=
  {| html_lines := html_lines st ++ [l];
     in_code_block := in_code_block st;
     code_block_language := code_block_language st;
     list_stack := list_stack st;
     paragraph_lines := paragraph_lines st |}.

Definition set_code (b : bool) (lang : text) (st : state) : state :=
  {| html_lines := html_lines st;
     in_code_block := b;
     code_block_language := lang;
     list_stack := list_stack st;
     paragraph_lines := paragraph_lines st |}.

Definition set_list_stack (stk : list text) (st : state) : state :=
  {| html_lines := html_lines st;
     in_code_block := in_code_block st;
     code_block_language := code_block_language st;
     list_stack := stk;
     paragraph_lines := paragraph_lines st |}.

Definition set_paragraph_lines (ps : list text) (st : state) : state :=
  {| html_lines := html_lines st;
     in_code_block := in_code_block st;
     code_block_language := code_block_language st;
     list_stack := list_stack st;
     paragraph_lines := ps |}.

Definition close_tag (kind : text) : text := str "</" ++ kind ++ str ">".

(** The [while list_stack:] loop of [close_lists]; [popped] lists the
    entries in the order [pop()] returns them. *)
Fixpoint close_loop (popped : list text) (out : list text) : list text :=
  match popped with
  | [] => out
  | kind :: rest => close_loop rest (out ++ [close_tag kind])
  end.

Definition close_lists (st : state) : state :=
  set_list_stack []
    {| html_lines := close_loop (rev (list_stack st)) (html_lines st);
       in_code_block := in_code_block st;
       code_block_language := code_block_language st;
       list_stack := list_stack st;
       paragraph_lines := paragraph_lines st |}.

Definition flush_paragraph (st : state) : state :=
  if null (paragraph_lines st) then st
  else
    let paragraph :=
      strip (join (str " ") (map strip (paragraph_lines st))) in
    let st :=
      if null paragraph then st
      else emit (str "<p>" ++ _process_inline paragraph ++ str "</p>") st in
    set_paragraph_lines [] st.

Definition fence : text := str "```".

Definition is_rule (stripped : text) : bool :=
  text_eqb stripped (str "---") || text_eqb stripped (str "***")
  || text_eqb stripped (str "___").

(** [not list_stack or list_stack[-1] != kind]. *)
Definition top_is_not (kind : text) (stk : list text) : bool :=
  null stk || negb (text_eqb (last stk []) kind).

Definition list_item (content : text) : text :=
  str "<li>" ++ _process_inline (strip content) ++ str "</li>".

(** One list item of the given kind: the shared shape of the unordered and
    the ordered branch. *)
Definition item (kind : text) (content : text) (st : state) : state :=
  let st := flush_paragraph st in
  let st :=
    if top_is_not kind (list_stack st) then
      let st := close_lists st in
      let st := set_list_stack (list_stack st ++ [kind]) st in
      emit (str "<" ++ kind ++ str ">") st
    else st in
  emit (list_item content) st.

(** One iteration of [for raw_line in lines:]. *)
Definition step (st : state) (raw_line : text) : state :=
  let line := rstrip raw_line in
  let stripped := lstrip line in
  if startswith fence stripped then
    if in_code_block st then
      set_code false [] (emit (str "</code></pre>") st)
    else
      let st := close_lists (flush_paragraph st) in
      let code_block_language := strip (skipn 3 stripped) in
      let class_attr :=
        if null code_block_language then []
        else str " class=" ++ [dquote] ++ str "language-"
             ++ html_escape true code_block_language ++ [dquote] in
      emit (str "<pre><code" ++ class_attr ++ str ">")
           (set_code true code_block_language st)
  else if in_code_block st then emit (html_escape true raw_line) st
  else if null stripped then close_lists (flush_paragraph st)
  else if is_rule stripped then
    emit (str "<hr />") (close_lists (flush_paragraph st))
  else
    match re_match pat_heading stripped with
    | Some heading =>
        let st := close_lists (flush_paragraph st) in
        let level := Nat.min (length (group 1 heading)) 6 in
        let content := strip (group 2 heading) in
        emit (str "<h" ++ str_of_nat level ++ str ">"
              ++ _process_inline content
              ++ str "</h" ++ str_of_nat level ++ str ">") st
    | None =>
    match re_match pat_blockquote stripped with
    | Some blockquote =>
        let st := close_lists (flush_paragraph st) in
        emit (str "<blockquote>" ++ _process_inline (group 1 blockquote)
              ++ str "</blockquote>") st
    | None =>
    match re_match pat_unordered stripped with
    | Some unordered => item (str "ul") (group 1 unordered) st
    | None =>
    match re_match pat_ordered stripped with
    | Some ordered => item (str "ol") (group 1 ordered) st
    | None => set_paragraph_lines (paragraph_lines st ++ [stripped]) st
    end end end end.

(** The loop. *)
Definition run_lines (st : state) (lines : list text) : state :=
  fold_left step lines st.

(** What follows the loop. *)
Definition finish (st : state) : state :=
  let st := close_lists (flush_paragraph st) in
  if in_code_block st then emit (str "</code></pre>") st else st.

(** [text.replace("\r\n", "\n").replace("\r", "\n").split("\n")]. *)
Definition lines_of (txt : text) : list text :=
  split nl (replace [cr] [nl] (replace [cr; nl] [nl] txt)).

Definition _basic_markdown_to_html (txt : text) : text :=
  join [nl] (html_lines (finish (run_lines initial (lines_of txt)))).

End Block.
Import Block.

(* ================================================================== *)
(** ** The strategy and the paste hook *)

Module Strategy.

(** What a call raises: an exception of class [Exception] (or of one of its
    subclasses), which the [except Exception] clauses of the module catch,
    or another [BaseException], such as [KeyboardInterrupt] and
    [SystemExit], which they let through. *)
Inductive exception : Type :=
| Exception (message : text)
| BaseException (message : text).

(** [isinstance(e, Exception)]. *)
Definition is_Exception (e : exception) : bool :=
  match e with
  | Exception _ => true
  | BaseException _ => false
  end.

(** How a call that may raise ends. *)
Inductive outcome (A : Type) : Type :=
| Returned (a : A)
| Raised (e : exception).
Arguments Returned {A} a.
Arguments Raised {A} e.

(** The third-party function [markdown.markdown(text, extensions,
    output_format)], a parameter of the development: on each input it
    returns a text or raises an exception of either class.  The module-level
    name [markdown] is the package when the import succeeded and [None]
    after the [ImportError]. *)
Definition engine : Type := text -> list text -> text -> outcome text.

Definition extensions : list text :=
  [str "fenced_code"; str "tables"; str "smarty"].

Definition _convert_markdown (markdown : option engine) (txt : text)
  : outcome text :=
  match markdown with
  | Some md =>
      match md txt extensions (str "html5") with
      | Returned html => Returned html
      | Raised e =>
          if is_Exception e then Returned (_basic_markdown_to_html txt)
          else Raised e
      end
  | None => Returned (_basic_markdown_to_html txt)
  end.

(** Modelled from the spec: the payload bundle of the host ([QMimeData], a
    class of the GUI toolkit), which "may carry a rich-formatted
    representation, a plain-text representation, or both"; the record keeps
    the two representations the hook reads and writes. *)
Record QMimeData : Type := {
  html_data : option text;
  text_data : option text
}.

Definition QMimeData_new : QMimeData :=
  {| html_data := None; text_data := None |}.
Definition hasHtml (m : QMimeData) : bool := is_some (html_data m).
Definition hasText (m : QMimeData) : bool := is_some (text_data m).
Definition text_of (m : QMimeData) : text :=
  match text_data m with Some t => t | None => [] end.
Definition setHtml (h : text) (m : QMimeData) : QMimeData :=
  {| html_data := Some h; text_data := text_data m |}.
Definition setText (t : text) (m : QMimeData) : QMimeData :=
  {| html_data := html_data m; text_data := Some t |}.

(** The hook; [mime] is [None] for Python's [None]. *)
Definition _maybe_convert_markdown (markdown : option engine)
    (View : Type) (mime : option QMimeData) (editor_web_view : View)
    (internal extended drop_event : bool) : outcome (option QMimeData) :=
  if internal then Returned mime
  else
    match mime with
    | None => Returned mime
    | Some m =>
        if hasHtml m then Returned mime
        else if negb (hasText m) then Returned mime
        else
          let txt := text_of m in
          if negb (_looks_like_markdown txt) then Returned mime
          else
            match _convert_markdown markdown txt with
            | Raised e => if is_Exception e then Returned mime else Raised e
            | Returned html_text =>
                if null (strip html_text) then Returned mime
                else
                  let converted := QMimeData_new in
                  let converted := setHtml html_text converted in
                  let converted := setText txt converted in
                  Returned (Some converted)
            end
    end.

End Strategy.
Import Strategy.

(* ================================================================== *)
(** ** Vocabulary of the statements *)

Module Spec.

(** A scan of the emitted lines for one kind of bracket that may not nest:
    [Some b] when the lines are well bracketed, [b] telling whether a
    bracket is open at the end. *)
Fixpoint flat_scan (opens closes : text -> bool) (open : bool)
    (ls : list text) : option bool :=
  match ls with
  | [] => Some open
  | l :: ls' =>
      if opens l then
        if open then None else flat_scan opens closes true ls'
      else if closes l then
        if open then flat_scan opens closes false ls' else None
      else flat_scan opens closes open ls'
  end.

(** The opening marker of a code block, with or without a language. *)
Definition opens_code (l : text) : bool := startswith (str "<pre><code") l.
Definition closes_code (l : text) : bool := text_eqb l (str "</code></pre>").

Definition opens_list (l : text) : bool :=
  text_eqb l (str "<ul>") || text_eqb l (str "<ol>").
Definition closes_list (l : text) : bool :=
  text_eqb l (str "</ul>") || text_eqb l (str "</ol>").

(** The raw line is a fence line. *)
Definition is_fence (raw_line : text) : bool :=
  startswith fence (lstrip (rstrip raw_line)).

(** The lines that the loop body appends when it processes [ls] from [st]. *)
Definition emitted (st : state) (ls : list text) : list text :=
  skipn (length (html_lines st)) (html_lines (run_lines st ls)).

(** An engine that raises on every input. *)
Definition failing_engine : engine :=
  fun _ _ _ => Raised (Exception (str "boom")).

(** An engine that is interrupted on every input. *)
Definition interrupted_engine : engine :=
  fun _ _ _ => Raised (BaseException (str "KeyboardInterrupt")).

(** [b] has at least the lines of [a], in the same order. *)
Definition extends (a b : state) : Prop :=
  exists ext, html_lines b = html_lines a ++ ext.

(** The entries the loop pushes on [list_stack]. *)
Definition list_kind (kind : text) : Prop :=
  kind = str "ul" \/ kind = str "ol".

(** A line that is no bracket of either scan. *)
Definition plain_line (l : text) : Prop :=
  opens_code l = false /\ closes_code l = false
  /\ opens_list l = false /\ closes_list l = false.

(** What the loop maintains: the stack holds at most one entry, of a kind
    the loop pushes; the list brackets emitted so far do not nest and one is
    open exactly when the stack is not empty; the code brackets emitted so
    far do not nest and one is open exactly in code mode. *)
Record invariant (st : state) : Prop := {
  inv_kinds : Forall list_kind (list_stack st);
  inv_depth : length (list_stack st) <= 1;
  inv_lists : flat_scan opens_list closes_list false (html_lines st)
              = Some (negb (null (list_stack st)));
  inv_code : flat_scan opens_code closes_code false (html_lines st)
             = Some (in_code_block st)
}.

(** The tests of the loop body, in its order, that lead to the unordered
    branch: the content captured by the pattern when the line takes that
    branch outside a code block. *)
Definition unordered_item (raw_line : text) : option text :=
  let stripped := lstrip (rstrip raw_line) in
  if startswith fence stripped || null stripped || is_rule stripped then None
  else
    match re_match pat_heading stripped, re_match pat_blockquote stripped with
    | None, None => option_map (group 1) (re_match pat_unordered stripped)
    | _, _ => None
    end.

(** The same for the ordered branch. *)
Definition ordered_item (raw_line : text) : option text :=
  let stripped := lstrip (rstrip raw_line) in
  if startswith fence stripped || null stripped || is_rule stripped then None
  else
    match re_match pat_heading stripped, re_match pat_blockquote stripped,
          re_match pat_unordered stripped with
    | None, None, None => option_map (group 1) (re_match pat_ordered stripped)
    | _, _, _ => None
    end.

(** The line is blank for the loop body. *)
Definition blank_line (raw_line : text) : bool :=
  null (lstrip (rstrip raw_line)).

(** Number of lines equal to [l]. *)
Definition count_line (l : text) (ls : list text) : nat :=
  length (filter (text_eqb l) ls).

(** The character a match of the pattern must start with, when the pattern
    says so: the first literal after the zero-width atoms. *)
Fixpoint first_chr (rs : regex) : option ascii :=
  match rs with
  | Chr c :: _ => Some c
  | (Bol | BolM | NotBehind _ | NotAhead _) :: rs' => first_chr rs'
  | _ => None
  end.

(** [tok] occurs in [s]. *)
Fixpoint occursb (tok s : text) : bool :=
  startswith tok s
  || match s with [] => false | _ :: s' => occursb tok s' end.

(** [c] is a character of [s]. *)
Definition memb (c : ascii) (s : text) : bool := existsb (Ascii.eqb c) s.

(** The characters [html.escape] replaces or writes. *)
Definition escape_alphabet : text :=
  str "&<>" ++ [dquote; squote] ++ str "amp;lt;gt;quot;#x27;".

(** The anchor element for an escaped target and an escaped label. *)
Definition anchor (href label : text) : text :=
  str "<a href=" ++ [dquote] ++ href ++ [dquote] ++ str ">" ++ label
  ++ str "</a>".

(** No character of [tok] is replaced or written by [html.escape]. *)
Definition inert (tok : text) : bool :=
  forallb (fun t => negb (memb t escape_alphabet)) tok.

(** The source of a code span: a backtick, a non-empty body without
    backticks, a backtick. *)
Definition code_span (seg : text) : Prop :=
  exists body,
    seg = "`"%char :: body ++ ["`"%char]
    /\ body <> [] /\ memb "`" body = false.

(** The source of a link: [[label](url)] with a non-empty label without
    [\]] and a non-empty target without [)]. *)
Definition link_span (seg : text) : Prop :=
  exists label url,
    seg = "["%char :: label ++ "]"%char :: "("%char :: url ++ [")"%char]
    /\ label <> [] /\ memb "]" label = false
    /\ url <> [] /\ memb ")" url = false.

(** [extracted span s t]: [t] is [s] in which some segments of the shape
    [span], one after the other, are each replaced by a token; every other
    character is copied. *)
Inductive extracted (span : text -> Prop) : text -> text -> Prop :=
| extracted_nil : extracted span [] []
| extracted_copy (c : ascii) (s t : text) :
    extracted span s t -> extracted span (c :: s) (c :: t)
| extracted_span (seg : text) (n : nat) (s t : text) :
    span seg -> extracted span s t ->
    extracted span (seg ++ s) (token n ++ t).

(** The characters that emphasis delimiters and tokens are made of. *)
Definition fragile (c : ascii) : bool := memb c (str "*_@MD") || isdigit c.

(** What the emphasis passes write: a delimiter, and a tag that one of the
    four passes puts in its place. *)
Definition tag_pairs : list (text * text) :=
  [(str "**", str "<strong>"); (str "**", str "</strong>");
   (str "__", str "<strong>"); (str "__", str "</strong>");
   (str "*", str "<em>"); (str "*", str "</em>");
   (str "_", str "<em>"); (str "_", str "</em>")].

(** One rewriting step: one occurrence of an emphasis delimiter is replaced
    by one of its tags, or one occurrence of a key of [items] by the value
    stored under it; nothing else changes. *)
Inductive rewrite1 (items : list (text * text)) : text -> text -> Prop :=
| rewrite1_intro (x u v y : text) :
    In (u, v) (tag_pairs ++ items) ->
    rewrite1 items (x ++ u ++ y) (x ++ v ++ y).

(** Any number of rewriting steps. *)
Inductive rewrites (items : list (text * text)) : text -> text -> Prop :=
| rewrites_refl (s : text) : rewrites items s s
| rewrites_step (s t u : text) :
    rewrite1 items s t -> rewrites items t u -> rewrites items s u.

(** The text and the dictionary after the code spans are taken out, and
    after the links are taken out as well. *)
Definition after_code (txt : text) : text * env :=
  re_sub_st pat_code (fun m => store (code_fragment m)) txt empty_env.

Definition after_links (txt : text) : text * env :=
  let (t1, e1) := after_code txt in
  re_sub_st pat_link (fun m => store (link_fragment m)) t1 e1.

(** Every key of the dictionary is a token. *)
Definition keys_are_tokens (e : env) : Prop :=
  Forall (fun kv => exists n, fst kv = token n) (placeholders e).

(** A list of kind [ul] is open and nothing else is pending. *)
Definition in_ul (st : state) : Prop :=
  list_stack st = [str "ul"] /\ in_code_block st = false
  /\ paragraph_lines st = [].

(** The next character, if any, is outside the class. *)
Definition stops (p : ascii -> bool) (s : text) : Prop :=
  match s with [] => True | c :: _ => p c = false end.

(** Every character of the text is whitespace. *)
Definition blank (s : text) : bool := forallb isspace s.

(** The characters one of which every clue of [MARKDOWN_CLUES] needs. *)
Definition clue_chars : text := str "#-*+0123456789`[_>".

(** The characters that the inline pass gives a meaning. *)
Definition inline_chars : text := str "`[*_".

(** The atom cannot match without consuming a character of class [p]. *)
Definition demands (p : ascii -> bool) (a : atom) : Prop :=
  match a with
  | Chr c => p c = true
  | Cls q => forall x, q x = true -> p x = true
  | Rep _ q (S _) _ => forall x, q x = true -> p x = true
  | _ => False
  end.

(** The tests of the loop body, in its order, that lead to the last branch:
    the stripped line, when the line is added to the pending paragraph
    outside a code block. *)
Definition paragraph_line (raw_line : text) : option text :=
  let stripped := lstrip (rstrip raw_line) in
  if startswith fence stripped || null stripped || is_rule stripped then None
  else
    match re_match pat_heading stripped, re_match pat_blockquote stripped,
          re_match pat_unordered stripped, re_match pat_ordered stripped with
    | None, None, None, None => Some stripped
    | _, _, _, _ => None
    end.

(** A list of kind [ol] is open and nothing else is pending. *)
Definition in_ol (st : state) : Prop :=
  list_stack st = [str "ol"] /\ in_code_block st = false
  /\ paragraph_lines st = [].

(** The keys of the dictionary are the tokens numbered from zero up to the
    counter, in this order. *)
Definition keys_in_order (e : env) : Prop :=
  map fst (placeholders e) = map token (seq 0 (counter e)).

(** A scan of the emitted lines for list items outside a list: [Some b]
    when every [<li>] line comes while a list is open, [b] telling whether
    one is open at the end. *)
Fixpoint items_scan (open : bool) (ls : list text) : option bool :=
  match ls with
  | [] => Some open
  | l :: ls' =>
      if opens_list l then items_scan true ls'
      else if closes_list l then items_scan false ls'
      else if startswith (str "<li>") l then
        if open then items_scan open ls' else None
      else items_scan open ls'
  end.

(** The text starts with a visible character and does not end with
    whitespace. *)
Definition trimmed (s : text) : Prop :=
  exists c y, s = c :: y /\ isspace c = false /\ rstrip y = y.

End Spec.
Import Spec.

Unset Implicit Arguments.

(* ================================================================== *)
(** ** Text lemmas *)

Lemma lstrip_before_nonspace (a : text) (c : ascii) (b : text) :
  isspace c = false -> lstrip (a ++ c :: b) = lstrip a ++ c :: b.
Proof.
  intros Hc. induction a as [|x a IH]; simpl.
  - rewrite Hc. reflexivity.
  - destruct (isspace x); [exact IH | reflexivity].
Qed.

Lemma rstrip_app_nonspace (a : text) (c : ascii) (s : text) :
  isspace c = false -> rstrip (a ++ c :: s) = a ++ c :: rstrip s.
Proof.
  intros Hc. unfold rstrip.
  rewrite rev_app_distr. simpl rev. rewrite <- app_assoc. simpl app.
  rewrite lstrip_before_nonspace by exact Hc.
  rewrite rev_app_distr. simpl rev. rewrite rev_involutive, <- app_assoc.
  reflexivity.
Qed.

Lemma rstrip_cons_nonspace (c : ascii) (s : text) :
  isspace c = false -> rstrip (c :: s) = c :: rstrip s.
Proof. apply (rstrip_app_nonspace []). Qed.

(* ================================================================== *)
(** ** The strategy *)

(** C6, amended: when the optional engine is absent, or raises an exception
    of class [Exception], [_convert_markdown] returns what
    [_basic_markdown_to_html] returns on the same text; and
    [_convert_markdown] raises exactly when the engine raises an exception
    that is not of class [Exception], which it lets through as it is. *)
Theorem C6_convert_falls_back (markdown : option engine) (txt : text) :
  (markdown = None \/
   (exists md e, markdown = Some md /\
                 md txt extensions (str "html5") = Raised e /\
                 is_Exception e = true) ->
   _convert_markdown markdown txt = Returned (_basic_markdown_to_html txt))
  /\ (forall e,
        _convert_markdown markdown txt = Raised e <->
        is_Exception e = false /\
        exists md, markdown = Some md /\
                   md txt extensions (str "html5") = Raised e).
Proof.
  split.
  - intros [-> | (md & e & -> & Hmd & He)]; unfold _convert_markdown.
    + reflexivity.
    + rewrite Hmd, He. reflexivity.
  - intros e. unfold _convert_markdown. split.
    + destruct markdown as [md|]; [|discriminate].
      destruct (md txt extensions (str "html5")) as [h|e'] eqn:Hmd;
        [discriminate|].
      destruct (is_Exception e') eqn:He; [discriminate|].
      intros H. injection H as <-. split; [exact He|].
      exists md. split; [reflexivity | exact Hmd].
    + intros (He & md & -> & Hmd). rewrite Hmd, He. reflexivity.
Qed.

Lemma C6_witness :
  _convert_markdown (Some failing_engine) (str "# Title")
  = Returned (_basic_markdown_to_html (str "# Title")).
Proof.
  apply (proj1 (C6_convert_falls_back (Some failing_engine) (str "# Title"))).
  right. exists failing_engine, (Exception (str "boom")).
  repeat split; reflexivity.
Defined.

(** C6 as stated fails: when the engine raises an exception that is not of
    class [Exception], [_convert_markdown] does not fall back and does not
    return: it raises that exception. *)
Lemma C6_counterexample :
  interrupted_engine (str "# Title") extensions (str "html5")
  = Raised (BaseException (str "KeyboardInterrupt"))
  /\ _convert_markdown (Some interrupted_engine) (str "# Title")
     = Raised (BaseException (str "KeyboardInterrupt"))
  /\ _convert_markdown (Some interrupted_engine) (str "# Title")
     <> Returned (_basic_markdown_to_html (str "# Title")).
Proof. repeat split; discriminate. Qed.

(* ================================================================== *)
(** ** The paste hook *)

(** C7: for a paste that reaches the classifier (not internal, a bundle with
    plain text and without HTML) and passes it, the hook returns the bundle
    it was given when the converted text is empty or blank, and otherwise a
    new bundle whose HTML is the converted text and whose plain text is the
    original one. *)
Theorem C7_hook_result (markdown : option engine) (View : Type)
    (m : QMimeData) (editor_web_view : View) (extended drop_event : bool)
    (txt html_text : text) :
  html_data m = None ->
  text_data m = Some txt ->
  _looks_like_markdown txt = true ->
  _convert_markdown markdown txt = Returned html_text ->
  let result :=
    _maybe_convert_markdown markdown (Some m) editor_web_view
                            false extended drop_event in
  (strip html_text = [] -> result = Returned (Some m))
  /\ (strip html_text <> [] ->
      result = Returned (Some {| html_data := Some html_text;
                                 text_data := Some txt |})).
Proof.
  intros Hh Ht Hl Hc result. subst result.
  unfold _maybe_convert_markdown, hasHtml, hasText, text_of.
  rewrite Hh, Ht. simpl. rewrite Hl. simpl. rewrite Hc.
  split; intros Hs.
  - rewrite Hs. reflexivity.
  - destruct (strip html_text); [congruence | reflexivity].
Qed.

Lemma C7_witness :
  _maybe_convert_markdown None
    (Some {| html_data := None; text_data := Some (str "# Title") |})
    tt false false false
  = Returned (Some {| html_data := Some (str "<h1>Title</h1>");
                      text_data := Some (str "# Title") |}).
Proof.
  apply (C7_hook_result None unit
           {| html_data := None; text_data := Some (str "# Title") |}
           tt false false (str "# Title") (str "<h1>Title</h1>")).
  - reflexivity.
  - reflexivity.
  - vm_compute. reflexivity.
  - vm_compute. reflexivity.
  - vm_compute. discriminate.
Defined.

(* ================================================================== *)
(** ** The loop body: what it appends *)

Lemma extends_refl (a : state) : extends a a.
Proof. exists []. symmetry. apply app_nil_r. Qed.

Lemma extends_trans (a b c : state) :
  extends a b -> extends b c -> extends a c.
Proof.
  intros [x Hx] [y Hy]. exists (x ++ y).
  rewrite Hy, Hx, app_assoc. reflexivity.
Qed.

Lemma extends_emit (l : text) (st : state) : extends st (emit l st).
Proof. exists [l]. reflexivity. Qed.

Lemma close_loop_app (popped out : list text) :
  close_loop popped out = out ++ map close_tag popped.
Proof.
  revert out. induction popped as [|k r IH]; intros out; simpl.
  - symmetry. apply app_nil_r.
  - rewrite IH, <- app_assoc. reflexivity.
Qed.

Lemma extends_close_lists (st : state) : extends st (close_lists st).
Proof.
  exists (map close_tag (rev (list_stack st))).
  unfold close_lists. simpl. apply close_loop_app.
Qed.

Lemma extends_flush_paragraph (st : state) : extends st (flush_paragraph st).
Proof.
  unfold flush_paragraph.
  destruct (null (paragraph_lines st)); [apply extends_refl|].
  destruct (null _).
  - exists []. simpl. symmetry. apply app_nil_r.
  - eexists. simpl. reflexivity.
Qed.

Lemma extends_item (kind content : text) (st : state) :
  extends st (item kind content st).
Proof.
  unfold item.
  eapply extends_trans; [apply extends_flush_paragraph|].
  eapply extends_trans; [|apply extends_emit].
  destruct (top_is_not kind _); [|apply extends_refl].
  eapply extends_trans; [apply extends_close_lists|].
  eexists. simpl. reflexivity.
Qed.

Lemma extends_flush_close (st : state) :
  extends st (close_lists (flush_paragraph st)).
Proof.
  eapply extends_trans;
    [apply extends_flush_paragraph | apply extends_close_lists].
Qed.

Lemma extends_step (st : state) (raw_line : text) :
  extends st (step st raw_line).
Proof.
  unfold step.
  destruct (startswith fence _).
  { destruct (in_code_block st).
    - apply (extends_emit (str "</code></pre>") st).
    - eapply extends_trans; [apply extends_flush_close|].
      match goal with |- extends _ (emit ?l ?s) => exists [l] end.
      reflexivity. }
  destruct (in_code_block st); [apply extends_emit|].
  destruct (null _); [apply extends_flush_close|].
  destruct (is_rule _).
  { eapply extends_trans; [apply extends_flush_close | apply extends_emit]. }
  destruct (re_match pat_heading _).
  { eapply extends_trans; [apply extends_flush_close | apply extends_emit]. }
  destruct (re_match pat_blockquote _).
  { eapply extends_trans; [apply extends_flush_close | apply extends_emit]. }
  destruct (re_match pat_unordered _); [apply extends_item|].
  destruct (re_match pat_ordered _); [apply extends_item|].
  exists []. simpl. symmetry. apply app_nil_r.
Qed.

Lemma extends_run_lines (ls : list text) (st : state) :
  extends st (run_lines st ls).
Proof.
  revert st. induction ls as [|l ls IH]; intros st; simpl.
  - apply extends_refl.
  - eapply extends_trans; [apply extends_step | apply IH].
Qed.

Lemma extends_finish (st : state) : extends st (finish st).
Proof.
  unfold finish.
  destruct (in_code_block _).
  - eapply extends_trans; [apply extends_flush_close | apply extends_emit].
  - apply extends_flush_close.
Qed.

Lemma run_lines_app (a b : list text) (st : state) :
  run_lines st (a ++ b) = run_lines (run_lines st a) b.
Proof. apply fold_left_app. Qed.

(* ================================================================== *)
(** ** Lines inside a fenced code block *)

Lemma escape_has_no_angle (quote : bool) (s : text) :
  memb "<" (html_escape quote s) = false
  /\ memb ">" (html_escape quote s) = false.
Proof.
  unfold html_escape.
  induction s as [|c s [IH1 IH2]]; [split; reflexivity|].
  cbn [flat_map]. unfold memb in *. rewrite !existsb_app, IH1, IH2.
  rewrite !orb_false_r. unfold escape_char.
  destruct (Ascii.eqb_spec c "&"); [split; reflexivity|].
  destruct (Ascii.eqb_spec c "<"); [split; reflexivity|].
  destruct (Ascii.eqb_spec c ">"); [split; reflexivity|].
  destruct (quote && Ascii.eqb c dquote); [split; reflexivity|].
  destruct (quote && Ascii.eqb c squote); [split; reflexivity|].
  cbn [existsb]. rewrite !orb_false_r. split.
  - destruct (Ascii.eqb_spec "<" c); [congruence | reflexivity].
  - destruct (Ascii.eqb_spec ">" c); [congruence | reflexivity].
Qed.

(** C3: a line met while a fenced code block is open, and which is not
    itself a fence line, is appended entity-escaped and otherwise as it is;
    nothing else changes and the inline pass is not applied.  The appended
    line holds no [<] and no [>], so it holds no element of any kind, and it
    is in the final output at the place where it was appended. *)
Theorem C3_code_line_is_escaped_only (before after : list text)
    (raw_line : text) :
  let st := run_lines initial before in
  in_code_block st = true ->
  is_fence raw_line = false ->
  step st raw_line = emit (html_escape true raw_line) st
  /\ memb "<" (html_escape true raw_line) = false
  /\ memb ">" (html_escape true raw_line) = false
  /\ nth_error
       (html_lines (finish (run_lines initial (before ++ raw_line :: after))))
       (length (html_lines st))
     = Some (html_escape true raw_line).
Proof.
  intros st Hin Hf.
  assert (Hstep : step st raw_line = emit (html_escape true raw_line) st).
  { unfold step. unfold is_fence in Hf. rewrite Hf, Hin. reflexivity. }
  split; [exact Hstep|].
  split; [apply escape_has_no_angle|].
  split; [apply escape_has_no_angle|].
  rewrite run_lines_app. fold st. simpl. rewrite Hstep.
  destruct (extends_run_lines after (emit (html_escape true raw_line) st))
    as [x Hx].
  destruct (extends_finish
              (run_lines (emit (html_escape true raw_line) st) after))
    as [y Hy].
  rewrite Hy, Hx. simpl. rewrite <- !app_assoc.
  rewrite nth_error_app2 by lia. rewrite Nat.sub_diag. reflexivity.
Qed.

Lemma C3_witness :
  step (run_lines initial [str "```"]) (str "*not bold*")
  = emit (str "*not bold*") (run_lines initial [str "```"])
  /\ _basic_markdown_to_html
       (str "```" ++ [nl] ++ str "*not bold*" ++ [nl] ++ str "```")
     = str "<pre><code>" ++ [nl] ++ str "*not bold*" ++ [nl]
       ++ str "</code></pre>"
  /\ _process_inline (str "*not bold*") = str "<em>not bold</em>".
Proof.
  split; [|split; vm_compute; reflexivity].
  apply (proj1 (C3_code_line_is_escaped_only [str "```"] [str "```"]
                  (str "*not bold*") eq_refl eq_refl)).
Defined.

(* ================================================================== *)
(** ** Seven or more hashes *)

Lemma seven_hashes_no_heading (t : text) :
  re_match pat_heading (str "#######" ++ t) = None.
Proof. reflexivity. Qed.

Lemma repeat_hash_split (n : nat) :
  7 <= n -> repeat "#"%char n = str "#######" ++ repeat "#"%char (n - 7).
Proof.
  intros H. replace n with (7 + (n - 7)) at 1 by lia.
  rewrite repeat_app. reflexivity.
Qed.

(* ================================================================== *)
(** ** The invariant of the loop *)

Lemma text_eqb_eq (a b : text) : text_eqb a b = true <-> a = b.
Proof.
  revert b. induction a as [|x a IH]; intros [|y b]; simpl;
    try (split; [discriminate | congruence]); [tauto|].
  rewrite andb_true_iff, Ascii.eqb_eq, IH.
  split; [intros [-> ->]; reflexivity | intros H; injection H; auto].
Qed.

Lemma flat_scan_app (opens closes : text -> bool) (a b : list text)
    (open : bool) :
  flat_scan opens closes open (a ++ b) =
  match flat_scan opens closes open a with
  | Some open' => flat_scan opens closes open' b
  | None => None
  end.
Proof.
  revert open. induction a as [|l a IH]; intros open; simpl; [reflexivity|].
  destruct (opens l); [destruct open; [reflexivity | apply IH]|].
  destruct (closes l); [destruct open; [apply IH | reflexivity]|].
  apply IH.
Qed.

Lemma escape_not_lt (quote : bool) (s rest : text) :
  html_escape quote s <> "<"%char :: rest.
Proof.
  destruct s as [|c s]; simpl; [discriminate|].
  unfold escape_char.
  destruct (Ascii.eqb c "&"); [discriminate|].
  destruct (Ascii.eqb c "<") eqn:E; [discriminate|].
  destruct (Ascii.eqb c ">"); [discriminate|].
  destruct (quote && Ascii.eqb c dquote); [discriminate|].
  destruct (quote && Ascii.eqb c squote); [discriminate|].
  simpl. intros H. injection H as H _. subst c. discriminate.
Qed.

Lemma plain_escaped (s : text) : plain_line (html_escape true s).
Proof.
  pose proof (escape_not_lt true s) as H.
  unfold plain_line, opens_code, closes_code, opens_list, closes_list.
  destruct (html_escape true s) as [|c r]; [repeat split; reflexivity|].
  destruct (Ascii.eqb c "<") eqn:E.
  - apply Ascii.eqb_eq in E. subst c. exfalso. apply (H r). reflexivity.
  - assert (E' : Ascii.eqb "<" c = false) by (rewrite Ascii.eqb_sym; exact E).
    change (str "<pre><code") with ("<"%char :: str "pre><code").
    change (str "</code></pre>") with ("<"%char :: str "/code></pre>").
    change (str "<ul>") with ("<"%char :: str "ul>").
    change (str "<ol>") with ("<"%char :: str "ol>").
    change (str "</ul>") with ("<"%char :: str "/ul>").
    change (str "</ol>") with ("<"%char :: str "/ol>").
    cbv beta iota delta [startswith text_eqb]. rewrite E, E'.
    repeat split; reflexivity.
Qed.

Lemma plain_close_code : forall l, closes_code l = true -> opens_code l = false
  /\ opens_list l = false /\ closes_list l = false.
Proof.
  intros l H. apply text_eqb_eq in H. subst l. repeat split; reflexivity.
Qed.

Lemma invariant_emit_plain (l : text) (st : state) :
  plain_line l -> invariant st -> invariant (emit l st).
Proof.
  intros (H1 & H2 & H3 & H4) [Ik Id Il Ic].
  constructor; simpl; try assumption.
  - rewrite flat_scan_app, Il. simpl. rewrite H3, H4. reflexivity.
  - rewrite flat_scan_app, Ic. simpl. rewrite H1, H2. reflexivity.
Qed.

Lemma invariant_set_paragraph_lines (ps : list text) (st : state) :
  invariant st -> invariant (set_paragraph_lines ps st).
Proof. intros [Ik Id Il Ic]. constructor; assumption. Qed.

Lemma invariant_flush_paragraph (st : state) :
  invariant st -> invariant (flush_paragraph st).
Proof.
  intros I. unfold flush_paragraph.
  destruct (null (paragraph_lines st)); [exact I|].
  apply invariant_set_paragraph_lines.
  destruct (null _); [exact I|].
  apply invariant_emit_plain; [|exact I].
  repeat split; reflexivity.
Qed.

Lemma flush_paragraph_keeps (st : state) :
  in_code_block (flush_paragraph st) = in_code_block st
  /\ list_stack (flush_paragraph st) = list_stack st
  /\ code_block_language (flush_paragraph st) = code_block_language st.
Proof.
  unfold flush_paragraph.
  destruct (null (paragraph_lines st)); [auto|].
  destruct (null _); simpl; auto.
Qed.

Lemma invariant_close_lists (st : state) :
  invariant st -> invariant (close_lists st).
Proof.
  intros [Ik Id Il Ic]. unfold close_lists.
  destruct (list_stack st) as [|k [|k' r]] eqn:E; simpl in *; [| |lia].
  - constructor; simpl; auto.
  - assert (Hk : list_kind k) by (inversion Ik; assumption).
    constructor; simpl; auto.
    + rewrite flat_scan_app, Il. simpl.
      destruct Hk as [-> | ->]; reflexivity.
    + rewrite flat_scan_app, Ic. simpl.
      destruct Hk as [-> | ->]; reflexivity.
Qed.

Lemma invariant_item (kind content : text) (st : state) :
  list_kind kind -> invariant st -> invariant (item kind content st).
Proof.
  intros Hk I. unfold item.
  apply invariant_emit_plain; [repeat split; reflexivity|].
  apply invariant_flush_paragraph in I.
  destruct (top_is_not kind _); [|exact I].
  apply invariant_close_lists in I. destruct I as [Ik Id Il Ic].
  constructor; simpl in *; auto.
  - rewrite flat_scan_app, Il. simpl.
    destruct Hk as [-> | ->]; reflexivity.
  - rewrite flat_scan_app, Ic. simpl.
    destruct Hk as [-> | ->]; reflexivity.
Qed.

Lemma invariant_open_code (attr lang : text) (st : state) :
  in_code_block st = false -> invariant st ->
  invariant (emit (str "<pre><code" ++ attr ++ str ">")
                  (set_code true lang st)).
Proof.
  intros Hin [Ik Id Il Ic]. rewrite Hin in Ic.
  constructor; simpl; auto.
  - rewrite flat_scan_app, Il. reflexivity.
  - rewrite flat_scan_app, Ic. reflexivity.
Qed.

Lemma invariant_step (st : state) (raw_line : text) :
  invariant st -> invariant (step st raw_line).
Proof.
  intros I. unfold step.
  destruct (startswith fence _).
  { destruct (in_code_block st) eqn:Hin.
    - destruct I as [Ik Id Il Ic]. constructor; simpl; auto.
      + rewrite flat_scan_app, Il. reflexivity.
      + rewrite flat_scan_app, Ic, Hin. reflexivity.
    - pose proof (flush_paragraph_keeps st) as (Hf & _ & _).
      apply invariant_open_code.
      + simpl. rewrite Hf. exact Hin.
      + apply invariant_close_lists, invariant_flush_paragraph, I. }
  destruct (in_code_block st) eqn:Hin.
  { apply invariant_emit_plain; [apply plain_escaped | exact I]. }
  destruct (null _).
  { apply invariant_close_lists, invariant_flush_paragraph, I. }
  destruct (is_rule _).
  { apply invariant_emit_plain; [repeat split; reflexivity|].
    apply invariant_close_lists, invariant_flush_paragraph, I. }
  destruct (re_match pat_heading _) as [heading|].
  { apply invariant_emit_plain.
    - pose proof (Nat.le_min_r (length (group 1 heading)) 6) as Hle.
      destruct (Nat.min (length (group 1 heading)) 6) as [|[|[|[|[|[|[|n]]]]]]];
        try (repeat split; reflexivity); lia.
    - apply invariant_close_lists, invariant_flush_paragraph, I. }
  destruct (re_match pat_blockquote _).
  { apply invariant_emit_plain; [repeat split; reflexivity|].
    apply invariant_close_lists, invariant_flush_paragraph, I. }
  destruct (re_match pat_unordered _).
  { apply invariant_item; [left; reflexivity | exact I]. }
  destruct (re_match pat_ordered _).
  { apply invariant_item; [right; reflexivity | exact I]. }
  apply invariant_set_paragraph_lines, I.
Qed.

Lemma invariant_initial : invariant initial.
Proof. constructor; simpl; auto. Qed.

Lemma invariant_run_lines (ls : list text) (st : state) :
  invariant st -> invariant (run_lines st ls).
Proof.
  revert st. induction ls as [|l ls IH]; intros st I; simpl; [exact I|].
  apply IH, invariant_step, I.
Qed.

Lemma close_lists_keeps (st : state) :
  in_code_block (close_lists st) = in_code_block st
  /\ list_stack (close_lists st) = []
  /\ paragraph_lines (close_lists st) = paragraph_lines st.
Proof. repeat split; reflexivity. Qed.

Lemma scans_finish (st : state) :
  invariant st ->
  flat_scan opens_list closes_list false (html_lines (finish st))
  = Some false
  /\ flat_scan opens_code closes_code false (html_lines (finish st))
     = Some false.
Proof.
  intros I. unfold finish.
  apply invariant_flush_paragraph, invariant_close_lists in I.
  set (st1 := close_lists (flush_paragraph st)) in *.
  assert (Hs : list_stack st1 = []) by reflexivity.
  clearbody st1. destruct I as [Ik Id Il Ic].
  rewrite Hs in Il. simpl in Il.
  destruct (in_code_block st1) eqn:Hin.
  - simpl. rewrite !flat_scan_app, Il, Ic. split; reflexivity.
  - split; assumption.
Qed.

(* ================================================================== *)
(** ** An unterminated fence *)

Lemma join_snoc (sep : text) (parts : list text) (last : text) :
  exists front, join sep (parts ++ [last]) = front ++ last.
Proof.
  induction parts as [|p ps [front IH]].
  - exists []. reflexivity.
  - simpl app. cbn [join]. destruct (ps ++ [last]) eqn:E.
    + destruct ps; discriminate.
    + rewrite IH. exists (p ++ sep ++ front).
      rewrite <- !app_assoc. reflexivity.
Qed.

(** C4: when the input ends while a fenced code block is open, the last line
    of the output is the closing marker of the code block; and for every
    input the opening and closing markers of code blocks in the output
    alternate, starting with an opening one and ending with a closing
    one. *)
Theorem C4_unterminated_fence_is_closed (txt : text) :
  let st := run_lines initial (lines_of txt) in
  (in_code_block st = true ->
   (exists before, html_lines (finish st) = before ++ [str "</code></pre>"])
   /\ (exists front,
         _basic_markdown_to_html txt = front ++ str "</code></pre>"))
  /\ flat_scan opens_code closes_code false (html_lines (finish st))
     = Some false.
Proof.
  intros st. split.
  - intros Hin.
    assert (H : exists before,
               html_lines (finish st) = before ++ [str "</code></pre>"]).
    { unfold finish.
      pose proof (flush_paragraph_keeps st) as (Hf & _ & _).
      assert (H : in_code_block (close_lists (flush_paragraph st)) = true).
      { simpl. rewrite Hf. exact Hin. }
      rewrite H. eexists. reflexivity. }
    split; [exact H|]. destruct H as [before H].
    unfold _basic_markdown_to_html. fold st. rewrite H.
    apply join_snoc.
  - apply scans_finish, invariant_run_lines, invariant_initial.
Qed.

Lemma C4_witness :
  exists before,
    html_lines (finish (run_lines initial
                          (lines_of (str "```py" ++ [nl] ++ str "x = 1"))))
    = before ++ [str "</code></pre>"].
Proof.
  apply (proj1 (proj1 (C4_unterminated_fence_is_closed
                         (str "```py" ++ [nl] ++ str "x = 1")) eq_refl)).
Defined.

(* ================================================================== *)
(** ** The list stack *)

Lemma item_list_stack (kind content : text) (st : state) :
  list_stack (item kind content st) =
  if top_is_not kind (list_stack st) then [kind] else list_stack st.
Proof.
  unfold item. pose proof (flush_paragraph_keeps st) as (_ & Hs & _).
  rewrite Hs. destruct (top_is_not kind (list_stack st)); simpl; auto.
Qed.

(** C9: after any number of iterations of the loop the list stack holds at
    most one entry; a list item either leaves the stack as it is or leaves
    exactly its own kind on it (the push comes after [close_lists], which
    empties the stack); and so the list brackets [<ul>], [<ol>], [</ul>],
    [</ol>] among the lines emitted so far, and in the final output, never
    nest. *)
Theorem C9_list_stack_at_most_one (txt : text) (k : nat) :
  let st := run_lines initial (firstn k (lines_of txt)) in
  length (list_stack st) <= 1
  /\ (forall kind content,
        list_stack (item kind content st) =
        if top_is_not kind (list_stack st) then [kind] else list_stack st)
  /\ flat_scan opens_list closes_list false (html_lines st)
     = Some (negb (null (list_stack st)))
  /\ flat_scan opens_list closes_list false
       (html_lines (finish (run_lines initial (lines_of txt))))
     = Some false.
Proof.
  intros st.
  assert (I : invariant st) by apply invariant_run_lines, invariant_initial.
  split; [apply I|].
  split; [intros; apply item_list_stack|].
  split; [apply I|].
  apply scans_finish, invariant_run_lines, invariant_initial.
Qed.

(* ================================================================== *)
(** ** Runs of unordered list items *)

Lemma step_unordered (st : state) (raw_line content : text) :
  in_code_block st = false ->
  unordered_item raw_line = Some content ->
  step st raw_line = item (str "ul") content st.
Proof.
  intros Hin H. unfold unordered_item in H. unfold step. rewrite Hin.
  destruct (startswith fence _); [discriminate|].
  destruct (null _); [discriminate|].
  destruct (is_rule _); [discriminate|]. simpl in H.
  destruct (re_match pat_heading _); [discriminate|].
  destruct (re_match pat_blockquote _); [discriminate|].
  destruct (re_match pat_unordered _); [|discriminate].
  simpl in H. injection H as <-. reflexivity.
Qed.

Lemma step_ordered (st : state) (raw_line content : text) :
  in_code_block st = false ->
  ordered_item raw_line = Some content ->
  step st raw_line = item (str "ol") content st.
Proof.
  intros Hin H. unfold ordered_item in H. unfold step. rewrite Hin.
  destruct (startswith fence _); [discriminate|].
  destruct (null _); [discriminate|].
  destruct (is_rule _); [discriminate|]. simpl in H.
  destruct (re_match pat_heading _); [discriminate|].
  destruct (re_match pat_blockquote _); [discriminate|].
  destruct (re_match pat_unordered _); [discriminate|].
  destruct (re_match pat_ordered _); [|discriminate].
  simpl in H. injection H as <-. reflexivity.
Qed.

Lemma step_blank (st : state) (raw_line : text) :
  in_code_block st = false ->
  blank_line raw_line = true ->
  step st raw_line = close_lists (flush_paragraph st).
Proof.
  intros Hin H. unfold blank_line in H. unfold step. rewrite Hin.
  destruct (lstrip (rstrip raw_line)); [reflexivity | discriminate].
Qed.

Lemma item_in_ul (content : text) (st : state) :
  in_ul st ->
  in_ul (item (str "ul") content st)
  /\ html_lines (item (str "ul") content st)
     = html_lines st ++ [list_item content].
Proof.
  intros (Hs & Hc & Hp). unfold item, flush_paragraph.
  rewrite Hp. simpl null. cbv iota. rewrite Hs.
  change (top_is_not (str "ul") [str "ul"]) with false. cbv iota.
  split; [|reflexivity]. repeat split; assumption.
Qed.

Lemma run_in_ul (lines contents : list text) (st : state) :
  in_ul st ->
  Forall2 (fun l c => unordered_item l = Some c) lines contents ->
  in_ul (run_lines st lines)
  /\ html_lines (run_lines st lines)
     = html_lines st ++ map list_item contents.
Proof.
  intros Hst H. revert st Hst.
  induction H as [|l c ls cs Hl _ IH]; intros st Hst; simpl.
  - split; [exact Hst | symmetry; apply app_nil_r].
  - rewrite (step_unordered _ _ _ (proj1 (proj2 Hst)) Hl).
    destruct (item_in_ul c _ Hst) as [Hu Hh].
    destruct (IH _ Hu) as [Hu' Hh'].
    split; [exact Hu'|]. rewrite Hh', Hh, <- app_assoc. reflexivity.
Qed.

Lemma flush_paragraph_clears (st : state) :
  paragraph_lines (flush_paragraph st) = [].
Proof.
  unfold flush_paragraph.
  destruct (paragraph_lines st) eqn:E; simpl; [exact E | reflexivity].
Qed.

Lemma first_item_opens (content : text) (st : state) :
  in_code_block st = false ->
  top_is_not (str "ul") (list_stack st) = true ->
  in_ul (item (str "ul") content st)
  /\ html_lines (item (str "ul") content st)
     = html_lines (close_lists (flush_paragraph st))
       ++ [str "<ul>"; list_item content].
Proof.
  intros Hc Ht. unfold item.
  pose proof (flush_paragraph_keeps st) as (Hf & Hs & _).
  rewrite Hs, Ht. split.
  - split; [reflexivity|]. split; simpl.
    + rewrite Hf. exact Hc.
    + apply flush_paragraph_clears.
  - simpl. rewrite <- app_assoc. reflexivity.
Qed.

Lemma count_line_cons (l x : text) (xs : list text) :
  count_line l (x :: xs)
  = (if text_eqb l x then 1 else 0) + count_line l xs.
Proof.
  unfold count_line. simpl. destruct (text_eqb l x); reflexivity.
Qed.

Lemma count_line_items (contents : list text) :
  count_line (str "<ul>") (map list_item contents) = 0.
Proof.
  induction contents as [|c cs IH]; [reflexivity|].
  simpl map. rewrite count_line_cons, IH. reflexivity.
Qed.

(** X22: a run of one or more unordered list item lines met outside a code
    block while no unordered list is open (the list stack is empty or its
    top is [ol]) appends, after the pending paragraph and the closing of the
    list that was open, exactly one [<ul>] and then one [<li>] per line,
    whatever the length of the run, and leaves one [ul] on the stack; a
    blank line after the run appends exactly [</ul>], an ordered list item
    after the run appends [</ul>] before it opens [<ol>], and the end of the
    input appends [</ul>]. *)
Theorem unordered_run_one_ul (st : state) (lines contents : list text) :
  in_code_block st = false ->
  top_is_not (str "ul") (list_stack st) = true ->
  lines <> [] ->
  Forall2 (fun l c => unordered_item l = Some c) lines contents ->
  let st' := run_lines st lines in
  let run_output := str "<ul>" :: map list_item contents in
  html_lines st' = html_lines (close_lists (flush_paragraph st)) ++ run_output
  /\ count_line (str "<ul>") run_output = 1
  /\ list_stack st' = [str "ul"]
  /\ (forall next, blank_line next = true ->
        html_lines (step st' next) = html_lines st' ++ [str "</ul>"]
        /\ list_stack (step st' next) = [])
  /\ (forall next content, ordered_item next = Some content ->
        html_lines (step st' next)
        = html_lines st' ++ [str "</ul>"; str "<ol>"; list_item content]
        /\ list_stack (step st' next) = [str "ol"])
  /\ html_lines (finish st') = html_lines st' ++ [str "</ul>"].
Proof.
  intros Hc Ht Hne H st' run_output.
  destruct H as [|l c ls cs Hl Hrest]; [congruence|].
  assert (Hrun : in_ul st' /\
                 html_lines st' = html_lines (close_lists (flush_paragraph st))
                                  ++ run_output).
  { subst st' run_output. simpl run_lines.
    rewrite (step_unordered _ _ _ Hc Hl).
    destruct (first_item_opens c _ Hc Ht) as [Hu Hh].
    destruct (run_in_ul _ _ _ Hu Hrest) as [Hu' Hh'].
    split; [exact Hu'|].
    unfold run_lines in *. rewrite Hh', Hh, <- app_assoc. reflexivity. }
  destruct Hrun as [(Hs & Hcode & Hp) Hh].
  split; [exact Hh|].
  split.
  { subst run_output.
    rewrite count_line_cons, count_line_items. reflexivity. }
  split; [exact Hs|].
  split; [|split].
  - intros next Hb. rewrite (step_blank _ _ Hcode Hb).
    unfold flush_paragraph. rewrite Hp. simpl. rewrite Hs. auto.
  - intros next content Ho. rewrite (step_ordered _ _ _ Hcode Ho).
    unfold item, flush_paragraph. rewrite Hp. simpl null. cbv iota.
    rewrite Hs.
    change (top_is_not (str "ol") [str "ul"]) with true. cbv iota.
    simpl. rewrite Hs. simpl. split; [|reflexivity].
    rewrite <- !app_assoc. reflexivity.
  - unfold finish, flush_paragraph. rewrite Hp. simpl null. cbv iota.
    simpl. rewrite Hcode. unfold close_lists. simpl. rewrite Hs.
    reflexivity.
Qed.

Lemma unordered_run_one_ul_witness :
  html_lines (run_lines initial [str "- one"; str "* two"; str "+ three"])
  = [str "<ul>"; str "<li>one</li>"; str "<li>two</li>";
     str "<li>three</li>"].
Proof.
  apply (proj1 (unordered_run_one_ul initial
                  [str "- one"; str "* two"; str "+ three"]
                  [str "one"; str "two"; str "three"]
                  eq_refl eq_refl
                  ltac:(discriminate)
                  ltac:(repeat constructor))).
Defined.

(** C5: the code breaks the claim at the input [- a], [text], [- b].  The
    paragraph line ends the run [- a], but the last branch of the loop body
    only buffers it and does not call [close_lists]: the list is still open
    when [- b] comes, so the second run gets no [<ul>] of its own, the run
    [- a] gets no [</ul>] where it ends, and the paragraph is written
    between the items of one list.  Every other branch for a line that is
    no list item closes the list first: with a heading in the place of the
    paragraph line each run has its own pair of brackets. *)
Theorem C5_paragraph_line_leaves_list_open :
  let st := run_lines initial [str "- a"; str "text"] in
  in_code_block st = false
  /\ unordered_item (str "text") = None
  /\ unordered_item (str "- b") = Some (str "b")
  /\ list_stack st = [str "ul"]
  /\ emitted st [str "- b"] = [str "<p>text</p>"; str "<li>b</li>"]
  /\ count_line (str "<ul>") (emitted st [str "- b"]) = 0
  /\ html_lines
       (finish (run_lines initial
                  (lines_of (str "- a" ++ [nl] ++ str "text" ++ [nl]
                             ++ str "- b"))))
     = [str "<ul>"; str "<li>a</li>"; str "<p>text</p>"; str "<li>b</li>";
        str "</ul>"]
  /\ html_lines
       (finish (run_lines initial
                  (lines_of (str "- a" ++ [nl] ++ str "# t" ++ [nl]
                             ++ str "- b"))))
     = [str "<ul>"; str "<li>a</li>"; str "</ul>"; str "<h1>t</h1>";
        str "<ul>"; str "<li>b</li>"; str "</ul>"].
Proof.
  vm_compute. repeat split; reflexivity.
Qed.

(* ================================================================== *)
(** ** The matcher *)

Section TryDown.
Context {A : Type} (f : nat -> option A).

Lemma try_down_eq (lo k : nat) :
  try_down f lo k =
  if k <? lo then None
  else match f k with
       | Some r => Some r
       | None => match k with 0 => None | S k' => try_down f lo k' end
       end.
Proof. destruct k; reflexivity. Qed.

Lemma try_down_hit (lo k : nat) (r : A) :
  lo <= k -> f k = Some r -> try_down f lo k = Some r.
Proof.
  intros Hle Hf. rewrite try_down_eq.
  destruct (Nat.ltb_spec k lo); [lia|]. rewrite Hf. reflexivity.
Qed.

Lemma try_down_inv (lo k : nat) (r : A) :
  try_down f lo k = Some r -> exists j, lo <= j /\ j <= k /\ f j = Some r.
Proof.
  induction k as [|k IH]; rewrite try_down_eq.
  - destruct (Nat.ltb_spec 0 lo) as [Hlt|Hge]; [discriminate|].
    destruct (f 0) eqn:E; [|discriminate].
    intros H. injection H as <-. exists 0. auto.
  - destruct (Nat.ltb_spec (S k) lo) as [Hlt|Hge]; [discriminate|].
    destruct (f (S k)) eqn:E.
    + intros H. injection H as <-. exists (S k). auto.
    + intros H. destruct (IH H) as (j & H1 & H2 & H3).
      exists j. auto.
Qed.

Lemma try_down_none (lo k : nat) :
  (forall j, lo <= j -> j <= k -> f j = None) -> try_down f lo k = None.
Proof.
  intros H. induction k as [|k IH]; rewrite try_down_eq.
  - destruct (Nat.ltb_spec 0 lo) as [Hlt|Hge]; [reflexivity|].
    rewrite H by lia. reflexivity.
  - destruct (Nat.ltb_spec (S k) lo) as [Hlt|Hge]; [reflexivity|].
    rewrite H by lia. apply IH. intros j H1 H2. apply H; lia.
Qed.

End TryDown.

Lemma run_le_length (p : ascii -> bool) (hi : option nat) (s : text) :
  run p hi s <= length s.
Proof.
  revert hi. induction s as [|c s IH]; intros hi; simpl; [lia|].
  destruct (p c); [|lia].
  destruct hi as [[|h]|]; [lia | |].
  - specialize (IH (Some h)). lia.
  - specialize (IH None). lia.
Qed.

Lemma run_firstn (p : ascii -> bool) (hi : option nat) (s : text) (j : nat) :
  j <= run p hi s -> Forall (fun c => p c = true) (firstn j s).
Proof.
  revert hi j. induction s as [|c s IH]; intros hi j H.
  - destruct j; constructor.
  - destruct j as [|j]; [constructor|]. simpl in *.
    destruct (p c) eqn:E; [|lia].
    constructor; [exact E|].
    destruct hi as [[|h]|]; [lia | |].
    + apply (IH (Some h)). lia.
    + apply (IH None). lia.
Qed.

Lemma run_app (p : ascii -> bool) (a s : text) :
  Forall (fun c => p c = true) a -> stops p s ->
  run p None (a ++ s) = length a.
Proof.
  intros Ha Hs. induction Ha as [|c a Hc _ IH]; simpl.
  - destruct s as [|c s]; [reflexivity|]. simpl in *. rewrite Hs.
    reflexivity.
  - rewrite Hc, IH. reflexivity.
Qed.

Lemma run_app_bounded (p : ascii -> bool) (h : nat) (a s : text) :
  Forall (fun c => p c = true) a -> stops p s -> length a <= h ->
  run p (Some h) (a ++ s) = length a.
Proof.
  intros Ha Hs. revert h. induction Ha as [|c a Hc _ IH]; intros h Hh; simpl.
  - destruct s as [|c s]; [reflexivity|]. simpl in *. rewrite Hs.
    reflexivity.
  - rewrite Hc. simpl in Hh. destruct h as [|h]; [lia|].
    rewrite IH by lia. reflexivity.
Qed.

Lemma firstn_length_app (a s : text) : firstn (length a) (a ++ s) = a.
Proof. induction a; simpl; congruence. Qed.

Lemma skipn_length_app (a s : text) : skipn (length a) (a ++ s) = s.
Proof. induction a; simpl; congruence. Qed.

Lemma bump_inv (k : nat) (g : option text) (r : option found)
    (gs : list text) (n : nat) :
  bump k g r = Some (gs, n) ->
  exists gs' n', r = Some (gs', n') /\ n = k + n'
                 /\ gs = match g with Some x => x :: gs' | None => gs' end.
Proof.
  destruct r as [[gs' n']|]; simpl; [|discriminate].
  intros H. injection H as <- <-. eauto.
Qed.

Lemma m_atoms_consumes (rs : regex) (prev : option ascii) (s : text)
    (gs : list text) (n : nat) :
  m_atoms rs prev s = Some (gs, n) -> n <= length s.
Proof.
  revert prev s gs n.
  induction rs as [|a rs IH]; intros prev s gs n H; simpl in H.
  - injection H as <- <-. lia.
  - destruct a as [c|p|cap p lo hi| | |c|c].
    + destruct s as [|x s]; [discriminate|].
      destruct (Ascii.eqb x c); [|discriminate].
      apply bump_inv in H. destruct H as (gs' & n' & H & -> & _).
      apply IH in H. simpl. lia.
    + destruct s as [|x s]; [discriminate|].
      destruct (p x); [|discriminate].
      apply bump_inv in H. destruct H as (gs' & n' & H & -> & _).
      apply IH in H. simpl. lia.
    + apply try_down_inv in H. destruct H as (j & _ & Hj & H).
      apply bump_inv in H. destruct H as (gs' & n' & H & -> & _).
      apply IH in H. rewrite length_skipn in H.
      pose proof (run_le_length p hi s). lia.
    + destruct prev; [discriminate|]. eapply IH, H.
    + destruct prev as [c|]; [|eapply IH, H].
      destruct (Ascii.eqb c nl); [eapply IH, H | discriminate].
    + destruct prev as [x|]; [|eapply IH, H].
      destruct (Ascii.eqb x c); [discriminate | eapply IH, H].
    + destruct s as [|x s']; [eapply IH, H|].
      destruct (Ascii.eqb x c); [discriminate | eapply IH, H].
Qed.

Lemma last_char_cons (prev : option ascii) (c : ascii) (a : text) :
  last_char prev (c :: a) = last_char (Some c) a.
Proof.
  unfold last_char. simpl. destruct (rev a); reflexivity.
Qed.

Lemma last_char_snoc (prev : option ascii) (a : text) (c : ascii) :
  last_char prev (a ++ [c]) = Some c.
Proof. unfold last_char. rewrite rev_app_distr. reflexivity. Qed.

(** A match at some position makes the search succeed. *)
Lemma search_hit (rs : regex) (a s : text) (prev : option ascii) :
  is_some (m_atoms rs (last_char prev a) s) = true ->
  is_some (search_from rs prev (a ++ s)) = true.
Proof.
  revert prev. induction a as [|c a IH]; intros prev H.
  - change (last_char prev []) with prev in H. simpl app.
    destruct s; simpl;
      destruct (m_atoms rs prev _); try discriminate; reflexivity.
  - rewrite last_char_cons in H. simpl.
    destruct (m_atoms rs prev (c :: a ++ s)); [reflexivity|].
    apply IH, H.
Qed.

(* ================================================================== *)
(** ** The classifier on heading lines *)

Lemma space_is_not_hash (w : ascii) :
  isspace w = true -> is_chr "#" w = false.
Proof.
  intros H. unfold is_chr. destruct (Ascii.eqb_spec w "#"); [|reflexivity].
  subst w. discriminate.
Qed.

Lemma clue_heading_matches (prev : option ascii) (n : nat) (w : ascii)
    (rest : text) :
  prev = None \/ prev = Some nl ->
  1 <= n <= 6 -> isspace w = true ->
  is_some (m_atoms clue_heading prev (repeat "#"%char n ++ w :: rest)) = true.
Proof.
  intros Hp Hn Hw.
  assert (H : m_atoms clue_heading prev (repeat "#"%char n ++ w :: rest)
              = Some ([], n + (1 + 0))).
  { assert (Hb : m_atoms clue_heading prev (repeat "#"%char n ++ w :: rest)
                 = m_atoms [Rep false (is_chr "#") 1 (Some 6); Cls isspace]
                     prev (repeat "#"%char n ++ w :: rest)).
    { destruct Hp as [-> | ->]; reflexivity. }
    rewrite Hb. cbn [m_atoms].
    rewrite run_app_bounded.
    - rewrite repeat_length. apply try_down_hit; [lia|].
      replace n with (length (repeat "#"%char n)) at 1 2 4
        by apply repeat_length.
      rewrite skipn_length_app, Hw. rewrite repeat_length. reflexivity.
    - apply Forall_forall. intros c Hc. apply repeat_spec in Hc. subst c.
      reflexivity.
    - simpl. apply space_is_not_hash, Hw.
    - rewrite repeat_length. lia. }
  rewrite H. reflexivity.
Qed.

Lemma lstrip_line_start (p : text) :
  lstrip (p ++ [nl]) = [] \/ exists p', lstrip (p ++ [nl]) = p' ++ [nl].
Proof.
  induction p as [|x p IH]; simpl.
  - left. reflexivity.
  - destruct (isspace x); [exact IH|]. right. exists (x :: p). reflexivity.
Qed.

(** C2, amended: when the trimmed text has a line feed or at least six
    characters, and one to six [#] followed by a whitespace character stand
    at the very start of the text or directly after a line feed, with
    content after them (a character that is not whitespace, somewhere later
    in the text), the classifier answers true. *)
Theorem C2_heading_line_is_markdown (txt pre post : text) (n : nat)
    (w : ascii) :
  txt = pre ++ repeat "#"%char n ++ w :: post ->
  pre = [] \/ (exists p, pre = p ++ [nl]) ->
  1 <= n <= 6 ->
  isspace w = true ->
  existsb (fun c => negb (isspace c)) post = true ->
  existsb (Ascii.eqb nl) (strip txt) = true \/ 6 <= length (strip txt) ->
  _looks_like_markdown txt = true.
Proof.
  intros -> Hpre Hn Hw Hpost Hguard.
  apply existsb_exists in Hpost. destruct Hpost as (c & Hin & Hc).
  apply negb_true_iff in Hc.
  apply in_split in Hin. destruct Hin as (q & r & ->).
  assert (Hs : strip (pre ++ repeat "#"%char n ++ w :: q ++ c :: r)
               = lstrip pre
                 ++ repeat "#"%char n ++ w :: q ++ c :: rstrip r).
  { unfold strip. destruct n as [|n]; [lia|]. simpl repeat.
    simpl app at 2.
    rewrite lstrip_before_nonspace by reflexivity.
    replace (lstrip pre ++ "#"%char :: repeat "#"%char n
             ++ w :: q ++ c :: r)
      with ((lstrip pre ++ "#"%char :: repeat "#"%char n ++ w :: q)
            ++ c :: r)
      by (rewrite <- app_assoc; simpl; rewrite <- app_assoc; reflexivity).
    rewrite rstrip_app_nonspace by exact Hc.
    rewrite <- app_assoc. simpl. rewrite <- app_assoc. reflexivity. }
  unfold _looks_like_markdown. rewrite Hs in *.
  assert (Hnull : null (lstrip pre ++ repeat "#"%char n
                        ++ w :: q ++ c :: rstrip r) = false).
  { destruct (lstrip pre); [|reflexivity].
    destruct n; [lia | reflexivity]. }
  rewrite Hnull.
  assert (Hg : negb (existsb (Ascii.eqb nl)
                       (lstrip pre ++ repeat "#"%char n
                        ++ w :: q ++ c :: rstrip r))
               && (length (lstrip pre ++ repeat "#"%char n
                           ++ w :: q ++ c :: rstrip r) <? 6) = false).
  { destruct Hguard as [H | H].
    - rewrite H. reflexivity.
    - apply andb_false_iff. right. apply Nat.ltb_ge. exact H. }
  rewrite Hg.
  change MARKDOWN_CLUES with (clue_heading :: tl MARKDOWN_CLUES).
  cbn [existsb]. apply orb_true_iff. left.
  apply search_hit. apply clue_heading_matches; [|exact Hn | exact Hw].
  destruct Hpre as [-> | [p ->]]; [left; reflexivity|].
  destruct (lstrip_line_start p) as [-> | [p' ->]].
  - left. reflexivity.
  - right. apply last_char_snoc.
Qed.

Lemma C2_witness : _looks_like_markdown (str "## Title") = true.
Proof.
  apply (C2_heading_line_is_markdown (str "## Title") [] (str "Title")
           2 " "%char).
  - reflexivity.
  - left. reflexivity.
  - lia.
  - reflexivity.
  - reflexivity.
  - right. vm_compute. lia.
Defined.

(** C2 as stated fails twice.  A single heading line of fewer than six
    characters is turned down before any pattern is tried.  And a heading
    line that follows a lone carriage return is a line for the converter,
    which renders it as a heading, but not for the classifier, whose
    patterns start a line only at the start of the text and after a line
    feed. *)
Lemma C2_counterexample :
  (str "# Hi" = [] ++ repeat "#"%char 1 ++ " "%char :: str "Hi"
   /\ isspace " " = true
   /\ _looks_like_markdown (str "# Hi") = false)
  /\ (lines_of (str "intro line" ++ [cr] ++ str "# Title")
      = [str "intro line"; str "# Title"]
      /\ 6 <= length (strip (str "intro line" ++ [cr] ++ str "# Title"))
      /\ _basic_markdown_to_html (str "intro line" ++ [cr] ++ str "# Title")
         = str "<p>intro line</p>" ++ [nl] ++ str "<h1>Title</h1>"
      /\ _looks_like_markdown (str "intro line" ++ [cr] ++ str "# Title")
         = false).
Proof.
  split; [repeat split; reflexivity|].
  split; [reflexivity|]. split; [vm_compute; lia|].
  split; vm_compute; reflexivity.
Qed.

(* ================================================================== *)
(** ** Substitution *)

Arguments Ascii.eqb : simpl never.

Lemma first_chr_sound (rs : regex) (c : ascii) (prev : option ascii)
    (s : text) (r : found) :
  first_chr rs = Some c -> m_atoms rs prev s = Some r ->
  exists t, s = c :: t.
Proof.
  revert prev. induction rs as [|a rs IH]; intros prev Hf Hm;
    [discriminate|].
  destruct a as [x|p|cap p lo hi| | |x|x]; simpl in Hf, Hm;
    try discriminate.
  - injection Hf as ->. destruct s as [|y s]; [discriminate|].
    destruct (Ascii.eqb_spec y c); [|discriminate]. subst y. eauto.
  - destruct prev; [discriminate|]. eapply IH; eauto.
  - destruct prev as [y|]; [|eapply IH; eauto].
    destruct (Ascii.eqb y nl); [eapply IH; eauto | discriminate].
  - destruct prev as [y|]; [|eapply IH; eauto].
    destruct (Ascii.eqb y x); [discriminate | eapply IH; eauto].
  - destruct s as [|y s']; [eapply IH; eauto|].
    destruct (Ascii.eqb y x); [discriminate | eapply IH; eauto].
Qed.

Lemma first_chr_none (rs : regex) (c : ascii) (prev : option ascii)
    (s : text) :
  first_chr rs = Some c ->
  match s with [] => True | x :: _ => x <> c end ->
  m_atoms rs prev s = None.
Proof.
  intros Hf Hs. destruct (m_atoms rs prev s) as [r|] eqn:E; [|reflexivity].
  destruct (first_chr_sound rs c prev s r Hf E) as [t ->].
  exfalso. apply Hs. reflexivity.
Qed.

Section SubLemmas.
Context {St : Type} (rs : regex) (func : found -> St -> text * St).

Lemma sub_go_skip (a s : text) (prev : option ascii) (st : St) :
  sub_go rs func prev (a ++ s) (length a) st
  = sub_go rs func (last_char prev a) s 0 st.
Proof.
  revert prev. induction a as [|c a IH]; intros prev; [reflexivity|].
  rewrite last_char_cons. simpl. apply IH.
Qed.

(** Without a match anywhere the subject comes back as it is. *)
Lemma sub_go_identity (c : ascii) (s : text) (prev : option ascii)
    (st : St) :
  first_chr rs = Some c -> memb c s = false ->
  sub_go rs func prev s 0 st = (s, st).
Proof.
  intros Hf. revert prev. induction s as [|x s IH]; intros prev Hs.
  - simpl. rewrite (first_chr_none rs c prev [] Hf I). reflexivity.
  - unfold memb in Hs. simpl in Hs. apply orb_false_iff in Hs.
    destruct Hs as [Hx Hs]. simpl.
    rewrite (first_chr_none rs c prev (x :: s) Hf).
    + rewrite (IH (Some x) Hs). reflexivity.
    + intros ->. rewrite Ascii.eqb_refl in Hx. discriminate.
Qed.

(** At a match of positive length the callback is called once and the
    substitution goes on after the match. *)
Lemma sub_go_match (seg rest : text) (prev : option ascii) (st : St)
    (gs : list text) :
  seg <> [] ->
  m_atoms rs prev (seg ++ rest) = Some (gs, length seg) ->
  sub_go rs func prev (seg ++ rest) 0 st =
  let (out, st1) := func (gs, length seg) st in
  let (tail, st2) := sub_go rs func (last_char prev seg) rest 0 st1 in
  (out ++ tail, st2).
Proof.
  intros Hne Hm. destruct seg as [|c seg]; [congruence|].
  simpl app. simpl sub_go. simpl app in Hm. rewrite Hm.
  destruct (func (gs, length (c :: seg)) st) as [out st1].
  cbn [snd length]. rewrite sub_go_skip, (last_char_cons prev c seg).
  reflexivity.
Qed.

End SubLemmas.

Lemma m_atoms_chr (c : ascii) (rs : regex) (prev : option ascii) (s : text) :
  m_atoms (Chr c :: rs) prev (c :: s) = bump 1 None (m_atoms rs (Some c) s).
Proof. cbn [m_atoms]. rewrite Ascii.eqb_refl. reflexivity. Qed.

(** A greedy unbounded repetition that can take the whole run [a], after
    which the rest of the pattern matches, takes it. *)
Lemma m_atoms_rep_take (cap : bool) (p : ascii -> bool) (lo : nat)
    (rs : regex) (prev : option ascii) (a s : text) (gs : list text)
    (n : nat) :
  Forall (fun c => p c = true) a -> stops p s -> lo <= length a ->
  m_atoms rs (last_char prev a) s = Some (gs, n) ->
  m_atoms (Rep cap p lo None :: rs) prev (a ++ s)
  = Some (if cap then a :: gs else gs, length a + n).
Proof.
  intros Ha Hs Hlo Hm. cbn [m_atoms]. rewrite run_app by assumption.
  apply try_down_hit; [exact Hlo|].
  rewrite firstn_length_app, skipn_length_app, Hm.
  destruct cap; reflexivity.
Qed.

Lemma memb_false_forall (c : ascii) (s : text) :
  memb c s = false -> Forall (fun x => not_chr c x = true) s.
Proof.
  unfold memb. induction s as [|x s IH]; simpl; intros H; constructor.
  - apply orb_false_iff in H. unfold not_chr.
    rewrite Ascii.eqb_sym. destruct H as [-> _]. reflexivity.
  - apply IH. apply orb_false_iff in H. apply H.
Qed.

Lemma link_matches (label url : text) :
  label <> [] -> url <> [] ->
  memb "]" label = false -> memb ")" url = false ->
  m_atoms pat_link None (str "[" ++ label ++ str "](" ++ url ++ str ")")
  = Some ([label; url],
          length (str "[" ++ label ++ str "](" ++ url ++ str ")")).
Proof.
  intros Hl Hu Hnl Hnu.
  change (str "[" ++ label ++ str "](" ++ url ++ str ")")
    with ("["%char :: label ++ "]"%char :: "("%char :: url ++ [")"%char]).
  unfold pat_link. rewrite m_atoms_chr.
  erewrite m_atoms_rep_take.
  - cbn [bump]. f_equal. f_equal. cbn [length]. rewrite !length_app.
    cbn [length]. rewrite length_app. cbn [length]. reflexivity.
  - apply memb_false_forall, Hnl.
  - reflexivity.
  - destruct label; [congruence | simpl; lia].
  - rewrite !m_atoms_chr. erewrite m_atoms_rep_take.
    + cbn [bump]. reflexivity.
    + apply memb_false_forall, Hnu.
    + reflexivity.
    + destruct url; [congruence | simpl; lia].
    + rewrite m_atoms_chr. reflexivity.
Qed.

(* ================================================================== *)
(** ** The shape of an unordered item line *)

Lemma m_atoms_cls (p : ascii -> bool) (rs : regex) (prev : option ascii)
    (x : ascii) (s : text) :
  p x = true ->
  m_atoms (Cls p :: rs) prev (x :: s) = bump 1 None (m_atoms rs (Some x) s).
Proof. intros H. cbn [m_atoms]. rewrite H. reflexivity. Qed.

Lemma m_atoms_bol (rs : regex) (s : text) :
  m_atoms (Bol :: rs) None s = m_atoms rs None s.
Proof. reflexivity. Qed.

Lemma bullet_cases (b : ascii) :
  bullet b = true -> b = "-"%char \/ b = "*"%char \/ b = "+"%char.
Proof.
  unfold bullet, one_of. cbn [existsb str list_ascii_of_string].
  rewrite orb_false_r, !orb_true_iff, !Ascii.eqb_eq. tauto.
Qed.

Lemma space_is_no_rule_char (w : ascii) :
  isspace w = true ->
  Ascii.eqb w "-" = false /\ Ascii.eqb w "*" = false
  /\ Ascii.eqb w "_" = false.
Proof.
  intros H. repeat split;
    match goal with
    | |- Ascii.eqb w ?c = false =>
        destruct (Ascii.eqb_spec w c); [subst w; discriminate | reflexivity]
    end.
Qed.

(** The lines the loop body treats as unordered items include every line
    made of a bullet, whitespace and a content that starts and ends with a
    visible character. *)
Lemma unordered_item_shape (b : ascii) (ws : text) (c : ascii) (rest : text) :
  bullet b = true ->
  ws <> [] -> Forall (fun x => isspace x = true) ws ->
  isspace c = false -> rstrip (c :: rest) = c :: rest ->
  memb nl (c :: rest) = false ->
  unordered_item (b :: ws ++ c :: rest) = Some (c :: rest).
Proof.
  intros Hb Hne Hws Hc Hr Hnl.
  assert (Hrest : rstrip rest = rest).
  { rewrite rstrip_cons_nonspace in Hr by exact Hc. congruence. }
  assert (Hstripped : lstrip (rstrip (b :: ws ++ c :: rest))
                      = b :: ws ++ c :: rest).
  { change (b :: ws ++ c :: rest) with ((b :: ws) ++ c :: rest).
    rewrite rstrip_app_nonspace, Hrest by exact Hc.
    destruct (bullet_cases b Hb) as [-> | [-> | ->]]; reflexivity. }
  assert (Hm : re_match pat_unordered (b :: ws ++ c :: rest)
               = Some ([c :: rest], 1 + (length ws + (length (c :: rest) + 0)))).
  { unfold re_match, pat_unordered.
    rewrite m_atoms_bol, (m_atoms_cls bullet _ None b _ Hb).
    erewrite m_atoms_rep_take; [reflexivity | exact Hws | exact Hc | |].
    - destruct ws; [congruence | simpl; lia].
    - rewrite <- (app_nil_r (c :: rest)) at 1.
      erewrite m_atoms_rep_take;
        [reflexivity | | exact I | lia | reflexivity].
      apply memb_false_forall, Hnl. }
  unfold unordered_item. rewrite Hstripped, Hm.
  destruct ws as [|w ws]; [congruence|].
  inversion Hws as [|? ? Hw _]; subst.
  destruct (space_is_no_rule_char w Hw) as (H1 & H2 & H3).
  assert (Hrule : is_rule (b :: (w :: ws) ++ c :: rest) = false).
  { unfold is_rule. cbn [text_eqb str list_ascii_of_string app].
    rewrite H1, H2, H3, !andb_false_r. reflexivity. }
  rewrite Hrule.
  destruct (bullet_cases b Hb) as [-> | [-> | ->]]; reflexivity.
Qed.

(* ================================================================== *)
(** ** Occurrences and [str.replace] *)

Lemma startswith_refl (s : text) : startswith s s = true.
Proof.
  induction s as [|c s IH]; simpl; [reflexivity|].
  rewrite Ascii.eqb_refl. exact IH.
Qed.

Lemma replace_go_skip_all (old new s : text) :
  replace_go old new s (length s) = [].
Proof. induction s as [|c s IH]; simpl; auto. Qed.

Lemma replace_self (tok v : text) : tok <> [] -> replace tok v tok = v.
Proof.
  intros H. destruct tok as [|t tok]; [congruence|].
  unfold replace. cbn [replace_go]. rewrite startswith_refl.
  replace (length (t :: tok) - 1) with (length tok) by (simpl; lia).
  rewrite replace_go_skip_all. apply app_nil_r.
Qed.

Lemma replace_absent (tok v s : text) :
  occursb tok s = false -> replace tok v s = s.
Proof.
  unfold replace. induction s as [|c s IH]; intros H; [reflexivity|].
  cbn [occursb] in H. apply orb_false_iff in H. destruct H as [H1 H2].
  cbn [replace_go]. destruct tok as [|t tok]; [discriminate|].
  rewrite H1, (IH H2). reflexivity.
Qed.

Lemma memb_neq (t e : ascii) (A : text) :
  memb t A = false -> memb e A = true -> Ascii.eqb t e = false.
Proof.
  intros H1 H2. destruct (Ascii.eqb_spec t e); [|reflexivity].
  subst. congruence.
Qed.

Lemma memb_cons_false (c t : ascii) (tok : text) :
  memb c (t :: tok) = false ->
  Ascii.eqb t c = false /\ memb c tok = false.
Proof.
  unfold memb. simpl. intros H. apply orb_false_iff in H.
  destruct H as [H1 H2]. rewrite Ascii.eqb_sym. auto.
Qed.

Lemma startswith_app_sep (tok x : text) (c : ascii) (y : text) :
  memb c tok = false -> startswith tok (x ++ c :: y) = startswith tok x.
Proof.
  revert x. induction tok as [|t tok IH]; intros x H; [reflexivity|].
  apply memb_cons_false in H. destruct H as [Ht Hc].
  destruct x as [|x0 x]; simpl.
  - rewrite Ht. reflexivity.
  - rewrite (IH x Hc). reflexivity.
Qed.

Lemma occursb_cons_skip (tok : text) (c : ascii) (y : text) :
  memb c tok = false -> occursb tok (c :: y) = occursb tok y.
Proof.
  intros H. cbn [occursb]. destruct tok as [|t tok].
  - destruct y; reflexivity.
  - apply memb_cons_false in H. destruct H as [Ht _].
    simpl. rewrite Ht. reflexivity.
Qed.

Lemma occursb_skip_prefix (tok es y : text) :
  Forall (fun e => memb e tok = false) es ->
  occursb tok (es ++ y) = occursb tok y.
Proof.
  induction 1 as [|e es He _ IH]; [reflexivity|].
  simpl app. rewrite occursb_cons_skip by exact He. exact IH.
Qed.

Lemma occursb_app_sep (tok x : text) (c : ascii) (y : text) :
  memb c tok = false ->
  occursb tok (x ++ c :: y) = occursb tok x || occursb tok y.
Proof.
  intros H. induction x as [|x0 x IH].
  - simpl app. rewrite occursb_cons_skip by exact H.
    destruct tok; [destruct y|]; reflexivity.
  - simpl app. cbn [occursb].
    change (x0 :: x ++ c :: y) with ((x0 :: x) ++ c :: y).
    rewrite startswith_app_sep by exact H.
    rewrite IH, orb_assoc. reflexivity.
Qed.

(** The case of [escape_char] in which the character is the special one
    just compared with: an entity is written. *)
Ltac entity_case :=
  subst; right; split; [reflexivity|]; do 2 eexists;
  split; [reflexivity | repeat constructor].

(** [html.escape] either keeps a character or writes an entity for it. *)
Lemma escape_char_cases (quote : bool) (c : ascii) :
  escape_char quote c = [c]
  \/ (memb c escape_alphabet = true
      /\ exists e es, escape_char quote c = e :: es
                      /\ Forall (fun e => memb e escape_alphabet = true)
                                (e :: es)).
Proof.
  unfold escape_char.
  destruct (Ascii.eqb_spec c "&"); [entity_case|].
  destruct (Ascii.eqb_spec c "<"); [entity_case|].
  destruct (Ascii.eqb_spec c ">"); [entity_case|].
  destruct quote; simpl; [|left; reflexivity].
  destruct (Ascii.eqb_spec c dquote); [entity_case|].
  destruct (Ascii.eqb_spec c squote); [entity_case|].
  left. reflexivity.
Qed.

Lemma inert_cons (t : ascii) (tok : text) :
  inert (t :: tok) = true ->
  memb t escape_alphabet = false /\ inert tok = true.
Proof.
  unfold inert. cbn [forallb]. intros H. apply andb_true_iff in H.
  destruct H as [H1 H2]. apply negb_true_iff in H1. auto.
Qed.

Lemma inert_memb (tok : text) (e : ascii) :
  inert tok = true -> memb e escape_alphabet = true -> memb e tok = false.
Proof.
  induction tok as [|t tok IH]; intros Hi He; [reflexivity|].
  apply inert_cons in Hi. destruct Hi as [Ht Hi].
  unfold memb. cbn [existsb]. apply orb_false_iff. split.
  - rewrite Ascii.eqb_sym. apply (memb_neq t e escape_alphabet Ht He).
  - apply IH; assumption.
Qed.

Lemma startswith_escape (quote : bool) (tok s : text) :
  inert tok = true ->
  startswith tok (html_escape quote s) = startswith tok s.
Proof.
  revert s. induction tok as [|t tok IH]; intros s Hi; [reflexivity|].
  apply inert_cons in Hi. destruct Hi as [Ht Hi].
  destruct s as [|c s]; [reflexivity|].
  unfold html_escape. cbn [flat_map]. fold (html_escape quote s).
  destruct (escape_char_cases quote c) as [-> | (Hc & e & es & -> & Hes)].
  - simpl. rewrite (IH s Hi). reflexivity.
  - cbn [startswith]. rewrite (memb_neq t c escape_alphabet Ht Hc).
    inversion Hes as [|? ? He _]; subst. simpl.
    rewrite (memb_neq t e escape_alphabet Ht He). reflexivity.
Qed.

Lemma occursb_escape (quote : bool) (tok s : text) :
  inert tok = true ->
  occursb tok (html_escape quote s) = occursb tok s.
Proof.
  intros Hi. induction s as [|c s IH]; [reflexivity|].
  pose proof (startswith_escape quote tok (c :: s) Hi) as Hsw.
  unfold html_escape in *. cbn [flat_map] in *.
  destruct (escape_char_cases quote c) as [E | (Hc & e & es & E & Hes)];
    rewrite E in *.
  - simpl app in *. cbn [occursb]. rewrite Hsw, IH. reflexivity.
  - rewrite occursb_skip_prefix.
    + rewrite IH. symmetry. apply occursb_cons_skip.
      apply inert_memb; assumption.
    + eapply Forall_impl; [|exact Hes].
      intros a Ha. apply inert_memb; assumption.
Qed.

(* ================================================================== *)
(** ** A link on its own *)

Lemma memb_app (c : ascii) (a b : text) :
  memb c (a ++ b) = memb c a || memb c b.
Proof. apply existsb_app. Qed.

Lemma anchor_has_no_token (tok href label : text) :
  inert tok = true ->
  memb "<" tok = false -> memb ">" tok = false -> memb "a" tok = false ->
  memb " " tok = false -> memb "h" tok = false -> memb "r" tok = false ->
  memb "e" tok = false -> memb "f" tok = false -> memb "=" tok = false ->
  memb "/" tok = false -> memb dquote tok = false -> tok <> [] ->
  occursb tok href = false -> occursb tok label = false ->
  occursb tok (anchor (html_escape true href) (html_escape true label))
  = false.
Proof.
  intros Hi Hlt Hgt Ha Hsp Hh Hr He Hf Heq Hsl Hq Hne Hhref Hlabel.
  unfold anchor.
  change (str "<a href=" ++ [dquote] ++ html_escape true href ++ [dquote]
          ++ str ">" ++ html_escape true label ++ str "</a>")
    with ("<"%char :: "a"%char :: " "%char :: "h"%char :: "r"%char
          :: "e"%char :: "f"%char :: "="%char :: dquote
          :: html_escape true href
             ++ dquote :: ">"%char
                :: html_escape true label
                   ++ "<"%char :: "/"%char :: "a"%char :: [">"%char]).
  rewrite !occursb_cons_skip by assumption.
  rewrite occursb_app_sep by assumption.
  rewrite occursb_escape, Hhref by assumption.
  rewrite !occursb_cons_skip by assumption.
  rewrite occursb_app_sep by assumption.
  rewrite occursb_escape, Hlabel by assumption.
  rewrite !occursb_cons_skip by assumption.
  destruct tok; [congruence | reflexivity].
Qed.

(** C1, amended: for a non-empty label without [\]] and a non-empty target
    without [)], neither of which contains a backtick or the text of the
    first token, [_process_inline] turns [[label](url)] into the anchor
    element whose [href] is the target escaped with [quote=True] and whose
    content is the label escaped with [quote=True] as well; the result holds
    nothing else, so neither part is escaped again after the token is
    restored. *)
Theorem C1_link_renders_as_anchor (label url : text) :
  label <> [] -> url <> [] ->
  memb "]" label = false -> memb ")" url = false ->
  memb "`" label = false -> memb "`" url = false ->
  occursb (token 0) label = false -> occursb (token 0) url = false ->
  _process_inline (str "[" ++ label ++ str "](" ++ url ++ str ")")
  = anchor (html_escape true url) (html_escape true label).
Proof.
  intros Hl Hu Hnl Hnu Hbl Hbu Htl Htu.
  set (s := str "[" ++ label ++ str "](" ++ url ++ str ")").
  assert (Hbt : memb "`" s = false).
  { subst s. rewrite !memb_app, Hbl, Hbu. reflexivity. }
  unfold _process_inline, re_sub_st.
  rewrite (sub_go_identity pat_code _ "`"%char s None empty_env eq_refl Hbt).
  assert (Hs : s <> []) by discriminate.
  pose proof (link_matches label url Hl Hu Hnl Hnu) as Hm. fold s in Hm.
  assert (Hm' : m_atoms pat_link None (s ++ [])
                = Some ([label; url], length s))
    by (rewrite app_nil_r; exact Hm).
  rewrite <- (app_nil_r s) at 1.
  rewrite (sub_go_match pat_link _ s [] None empty_env [label; url] Hs Hm').
  cbn [store counter placeholders empty_env app].
  rewrite (sub_go_identity pat_link _ "["%char [] _ _ eq_refl eq_refl).
  change (link_fragment ([label; url], length s))
    with (anchor (html_escape true url) (html_escape true label)).
  cbn [placeholders restore].
  set (value := anchor (html_escape true url) (html_escape true label)).
  assert (He : emphasis (html_escape false (token 0 ++ [])) = token 0)
    by (vm_compute; reflexivity).
  rewrite He.
  assert (Ht : html_escape true (token 0) = token 0)
    by (vm_compute; reflexivity).
  rewrite Ht, replace_self by discriminate.
  apply replace_absent. subst value.
  apply anchor_has_no_token; try reflexivity; try assumption.
  discriminate.
Qed.

Lemma C1_witness :
  _process_inline (str "[R&D](http://x.org/?a=1&b=2)")
  = str "<a href=" ++ [dquote] ++ str "http://x.org/?a=1&amp;b=2" ++ [dquote]
    ++ str ">R&amp;D</a>".
Proof.
  apply (C1_link_renders_as_anchor (str "R&D") (str "http://x.org/?a=1&b=2"));
    (discriminate || reflexivity).
Defined.

(** C1 as stated fails on the label: [html.escape] is called on it with its
    default [quote=True], so a quote character in the label is written as an
    entity.  The other two facts show why the amended statement keeps
    backticks and the token text out of the label. *)
Lemma C1_counterexample :
  let label := str "a" ++ [dquote] ++ str "b" in
  _process_inline (str "[" ++ label ++ str "](u)")
  = anchor (str "u") (str "a&quot;b")
  /\ _process_inline (str "[" ++ label ++ str "](u)")
     <> anchor (html_escape true (str "u")) (html_escape false label)
  /\ _process_inline (str "[`x`](u)") = anchor (str "u") (str "@@MD0@@")
  /\ _process_inline (str "[@@MD0@@](u)")
     = anchor (str "u") (anchor (str "u") (str "@@MD0@@")).
Proof.
  vm_compute. repeat split; try reflexivity. discriminate.
Qed.

(* ================================================================== *)
(** ** Substitution, in general *)

Lemma first_chr_positive (rs : regex) (c : ascii) (prev : option ascii)
    (s : text) (gs : list text) (n : nat) :
  first_chr rs = Some c -> m_atoms rs prev s = Some (gs, n) -> 1 <= n.
Proof.
  revert prev. induction rs as [|a rs IH]; intros prev Hf Hm;
    [discriminate|].
  destruct a as [x|p|cap p lo hi| | |x|x]; simpl in Hf, Hm;
    try discriminate.
  - destruct s as [|y s]; [discriminate|].
    destruct (Ascii.eqb y x); [|discriminate].
    apply bump_inv in Hm. destruct Hm as (gs' & n' & _ & -> & _). lia.
  - destruct prev; [discriminate|]. eapply IH; eauto.
  - destruct prev as [y|]; [|eapply IH; eauto].
    destruct (Ascii.eqb y nl); [eapply IH; eauto | discriminate].
  - destruct prev as [y|]; [|eapply IH; eauto].
    destruct (Ascii.eqb y x); [discriminate | eapply IH; eauto].
  - destruct s as [|y s']; [eapply IH; eauto|].
    destruct (Ascii.eqb y x); [discriminate | eapply IH; eauto].
Qed.

Section SubGeneral.
Context {St : Type} (rs : regex) (func : found -> St -> text * St).
Context (c0 : ascii) (Hfirst : first_chr rs = Some c0).

(** The output of a substitution is built from the subject by copying
    characters and by replacing matches by what the callback returns. *)
Lemma sub_go_rel (R : text -> text -> Prop) :
  R [] [] ->
  (forall c s t, R s t -> R (c :: s) (c :: t)) ->
  (forall prev seg rest gs st t,
      seg <> [] ->
      m_atoms rs prev (seg ++ rest) = Some (gs, length seg) ->
      R rest t ->
      R (seg ++ rest) (fst (func (gs, length seg) st) ++ t)) ->
  forall s prev st, R s (fst (sub_go rs func prev s 0 st)).
Proof.
  intros Hnil Hcopy Hmatch s.
  induction s as [s IH] using (induction_ltof1 _ (@length ascii)).
  unfold ltof in IH. intros prev st.
  destruct s as [|c s].
  - simpl. rewrite (first_chr_none rs c0 prev [] Hfirst I). exact Hnil.
  - destruct (m_atoms rs prev (c :: s)) as [[gs n]|] eqn:E.
    + pose proof (m_atoms_consumes _ _ _ _ _ E) as Hle.
      pose proof (first_chr_positive _ _ _ _ _ _ Hfirst E) as Hpos.
      set (seg := firstn n (c :: s)). set (rest := skipn n (c :: s)).
      assert (Hsplit : c :: s = seg ++ rest)
        by (symmetry; apply firstn_skipn).
      assert (Hlen : length seg = n) by (apply firstn_length_le; exact Hle).
      assert (Hne : seg <> []).
      { intros H0. rewrite H0 in Hlen. simpl in Hlen. lia. }
      rewrite Hsplit in E |- *. rewrite <- Hlen in E.
      rewrite (sub_go_match rs func seg rest prev st gs Hne E).
      pose proof (Hmatch prev seg rest gs st) as Hm.
      destruct (func (gs, length seg) st) as [out st1].
      assert (Hshort : length rest < length (c :: s)).
      { rewrite Hsplit, length_app. destruct seg; [congruence|].
        simpl. lia. }
      specialize (IH rest Hshort (last_char prev seg) st1).
      destruct (sub_go rs func (last_char prev seg) rest 0 st1)
        as [tail st2].
      simpl in *. apply Hm; assumption.
    + simpl. rewrite E.
      assert (Hshort : length s < length (c :: s)) by (simpl; lia).
      specialize (IH s Hshort (Some c) st).
      destruct (sub_go rs func (Some c) s 0 st) as [tail st1].
      simpl in *. apply Hcopy, IH.
Qed.

(** What the callback maintains on the state, the substitution
    maintains. *)
Lemma sub_go_state (P : St -> Prop) :
  (forall m st, P st -> P (snd (func m st))) ->
  forall s prev skip st, P st -> P (snd (sub_go rs func prev s skip st)).
Proof.
  intros Hf s. induction s as [|c s IH]; intros prev skip st Hst.
  - simpl. destruct skip; [|exact Hst].
    destruct (m_atoms rs prev []); [apply Hf|]; exact Hst.
  - simpl. destruct skip as [|k]; [|apply IH, Hst].
    destruct (m_atoms rs prev (c :: s)) as [m|].
    + specialize (Hf m st Hst).
      destruct (func m st) as [out st1]. simpl in Hf.
      destruct (snd m) as [|k].
      * specialize (IH (Some c) 0 st1 Hf).
        destruct (sub_go rs func (Some c) s 0 st1). exact IH.
      * specialize (IH (Some c) k st1 Hf).
        destruct (sub_go rs func (Some c) s k st1). exact IH.
    + specialize (IH (Some c) 0 st Hst).
      destruct (sub_go rs func (Some c) s 0 st). exact IH.
Qed.

End SubGeneral.

(* ================================================================== *)
(** ** The shape of a match *)

Lemma m_chr_inv (c : ascii) (rs : regex) (prev : option ascii) (s : text)
    (gs : list text) (n : nat) :
  m_atoms (Chr c :: rs) prev s = Some (gs, n) ->
  exists s' n', s = c :: s' /\ n = 1 + n'
                /\ m_atoms rs (Some c) s' = Some (gs, n').
Proof.
  cbn [m_atoms]. destruct s as [|x s]; [discriminate|].
  destruct (Ascii.eqb_spec x c); [|discriminate]. subst x.
  intros H. apply bump_inv in H. destruct H as (gs' & n' & H & -> & ->).
  eauto.
Qed.

Lemma m_rep_inv (p : ascii -> bool) (lo : nat) (rs : regex)
    (prev : option ascii) (s : text) (gs : list text) (n : nat) :
  m_atoms (Rep true p lo None :: rs) prev s = Some (gs, n) ->
  exists body rest gs' n',
    s = body ++ rest /\ lo <= length body
    /\ Forall (fun c => p c = true) body
    /\ gs = body :: gs' /\ n = length body + n'
    /\ m_atoms rs (last_char prev body) rest = Some (gs', n').
Proof.
  cbn [m_atoms]. intros H.
  apply try_down_inv in H. destruct H as (j & Hlo & Hj & H).
  apply bump_inv in H. destruct H as (gs' & n' & H & -> & ->).
  pose proof (run_le_length p None s) as Hle.
  exists (firstn j s), (skipn j s), gs', n'.
  rewrite firstn_skipn, firstn_length_le by lia.
  repeat split; auto. eapply run_firstn, Hj.
Qed.

Lemma m_not_behind_inv (c : ascii) (rs : regex) (prev : option ascii)
    (s : text) (r : found) :
  m_atoms (NotBehind c :: rs) prev s = Some r -> m_atoms rs prev s = Some r.
Proof.
  cbn [m_atoms]. destruct prev as [x|]; [|auto].
  destruct (Ascii.eqb x c); [discriminate | auto].
Qed.

Lemma m_not_ahead_inv (c : ascii) (prev : option ascii) (s : text)
    (r : found) :
  m_atoms [NotAhead c] prev s = Some r -> r = ([], 0).
Proof.
  cbn [m_atoms]. destruct s as [|x s]; [congruence|].
  destruct (Ascii.eqb x c); [discriminate | congruence].
Qed.

Lemma forall_memb_false (c : ascii) (s : text) :
  Forall (fun x => not_chr c x = true) s -> memb c s = false.
Proof.
  unfold memb. induction 1 as [|x s Hx _ IH]; [reflexivity|].
  cbn [existsb]. rewrite IH, orb_false_r.
  unfold not_chr in Hx. apply negb_true_iff in Hx.
  rewrite Ascii.eqb_sym. exact Hx.
Qed.

Lemma nonempty_of_length (s : text) : 1 <= length s -> s <> [].
Proof. destruct s; simpl; [lia | discriminate]. Qed.

Lemma code_shape (prev : option ascii) (s : text) (gs : list text)
    (n : nat) :
  m_atoms pat_code prev s = Some (gs, n) ->
  exists body,
    firstn n s = "`"%char :: body ++ ["`"%char]
    /\ body <> [] /\ memb "`" body = false /\ gs = [body].
Proof.
  unfold pat_code. intros H.
  apply m_chr_inv in H. destruct H as (s1 & n1 & -> & -> & H).
  apply m_rep_inv in H.
  destruct H as (body & s2 & gs2 & n2 & -> & Hlo & Hb & -> & -> & H).
  apply m_chr_inv in H. destruct H as (s3 & n3 & -> & -> & H).
  cbn [m_atoms] in H. injection H as <- <-.
  exists body. repeat split.
  - replace (1 + (length body + (1 + 0)))
      with (length ("`"%char :: body ++ ["`"%char]))
      by (simpl; rewrite length_app; simpl; lia).
    change ("`"%char :: body ++ "`"%char :: s3)
      with (("`"%char :: body) ++ "`"%char :: s3).
    replace (("`"%char :: body) ++ "`"%char :: s3)
      with (("`"%char :: body ++ ["`"%char]) ++ s3)
      by (simpl; rewrite <- app_assoc; reflexivity).
    apply firstn_length_app.
  - apply nonempty_of_length, Hlo.
  - apply forall_memb_false, Hb.
Qed.

Lemma link_shape (prev : option ascii) (s : text) (gs : list text)
    (n : nat) :
  m_atoms pat_link prev s = Some (gs, n) ->
  exists label url,
    firstn n s
    = "["%char :: label ++ "]"%char :: "("%char :: url ++ [")"%char]
    /\ label <> [] /\ memb "]" label = false
    /\ url <> [] /\ memb ")" url = false /\ gs = [label; url].
Proof.
  unfold pat_link. intros H.
  apply m_chr_inv in H. destruct H as (s1 & n1 & -> & -> & H).
  apply m_rep_inv in H.
  destruct H as (label & s2 & gs2 & n2 & -> & Hlo & Hb & -> & -> & H).
  apply m_chr_inv in H. destruct H as (s3 & n3 & -> & -> & H).
  apply m_chr_inv in H. destruct H as (s4 & n4 & -> & -> & H).
  apply m_rep_inv in H.
  destruct H as (url & s5 & gs5 & n5 & -> & Hlo' & Hb' & -> & -> & H).
  apply m_chr_inv in H. destruct H as (s6 & n6 & -> & -> & H).
  cbn [m_atoms] in H. injection H as <- <-.
  exists label, url. repeat split.
  - replace (1 + (length label + (1 + (1 + (length url + (1 + 0))))))
      with (length ("["%char :: label ++ "]"%char :: "("%char
                    :: url ++ [")"%char]))
      by (simpl; rewrite length_app; simpl; rewrite length_app; simpl; lia).
    replace ("["%char :: label ++ "]"%char :: "("%char
             :: url ++ ")"%char :: s6)
      with (("["%char :: label ++ "]"%char :: "("%char
             :: url ++ [")"%char]) ++ s6)
      by (simpl; rewrite <- !app_assoc; simpl; rewrite <- !app_assoc;
          reflexivity).
    apply firstn_length_app.
  - apply nonempty_of_length, Hlo.
  - apply forall_memb_false, Hb.
  - apply nonempty_of_length, Hlo'.
  - apply forall_memb_false, Hb'.
Qed.

Lemma strong_shape (d : ascii) (prev : option ascii) (s : text)
    (gs : list text) (n : nat) :
  m_atoms [Chr d; Chr d; Rep true (not_chr d) 1 None; Chr d; Chr d]
          prev s = Some (gs, n) ->
  exists g, firstn n s = [d; d] ++ g ++ [d; d] /\ gs = [g].
Proof.
  intros H.
  apply m_chr_inv in H. destruct H as (s1 & n1 & -> & -> & H).
  apply m_chr_inv in H. destruct H as (s2 & n2 & -> & -> & H).
  apply m_rep_inv in H.
  destruct H as (g & s3 & gs3 & n3 & -> & Hlo & Hb & -> & -> & H).
  apply m_chr_inv in H. destruct H as (s4 & n4 & -> & -> & H).
  apply m_chr_inv in H. destruct H as (s5 & n5 & -> & -> & H).
  cbn [m_atoms] in H. injection H as <- <-.
  exists g. split; [|reflexivity].
  replace (1 + (1 + (length g + (1 + (1 + 0)))))
    with (length ([d; d] ++ g ++ [d; d]))
    by (simpl; rewrite length_app; simpl; lia).
  replace (d :: d :: g ++ d :: d :: s5) with (([d; d] ++ g ++ [d; d]) ++ s5)
    by (simpl; rewrite <- app_assoc; reflexivity).
  apply firstn_length_app.
Qed.

Lemma em_shape (d : ascii) (prev : option ascii) (s : text)
    (gs : list text) (n : nat) :
  m_atoms [NotBehind d; Chr d; Rep true (not_chr d) 1 None; Chr d;
           NotAhead d] prev s = Some (gs, n) ->
  exists g, firstn n s = [d] ++ g ++ [d] /\ gs = [g].
Proof.
  intros H. apply m_not_behind_inv in H.
  apply m_chr_inv in H. destruct H as (s1 & n1 & -> & -> & H).
  apply m_rep_inv in H.
  destruct H as (g & s3 & gs3 & n3 & -> & Hlo & Hb & -> & -> & H).
  apply m_chr_inv in H. destruct H as (s4 & n4 & -> & -> & H).
  apply m_not_ahead_inv in H. injection H as -> ->.
  exists g. split; [|reflexivity].
  replace (1 + (length g + (1 + 0))) with (length ([d] ++ g ++ [d]))
    by (simpl; rewrite length_app; simpl; lia).
  replace (d :: g ++ d :: s4) with (([d] ++ g ++ [d]) ++ s4)
    by (simpl; rewrite <- app_assoc; reflexivity).
  apply firstn_length_app.
Qed.

(* ================================================================== *)
(** ** Taking code spans and links out *)

Lemma after_code_extracted (txt : text) :
  extracted code_span txt (fst (after_code txt)).
Proof.
  unfold after_code, re_sub_st.
  apply (sub_go_rel pat_code _ "`"%char eq_refl (extracted code_span)).
  - constructor.
  - intros c s t H. constructor. exact H.
  - intros prev seg rest gs st t Hne Hm Hrest.
    apply code_shape in Hm. destruct Hm as (body & Hseg & Hb & Hn & _).
    rewrite firstn_length_app in Hseg.
    cbn [store fst]. constructor; [|exact Hrest].
    exists body. auto.
Qed.

Lemma after_links_extracted (txt : text) :
  extracted link_span (fst (after_code txt)) (fst (after_links txt)).
Proof.
  unfold after_links. destruct (after_code txt) as [t1 e1].
  unfold re_sub_st. cbn [fst].
  apply (sub_go_rel pat_link _ "["%char eq_refl (extracted link_span)).
  - constructor.
  - intros c s t H. constructor. exact H.
  - intros prev seg rest gs st t Hne Hm Hrest.
    apply link_shape in Hm.
    destruct Hm as (label & url & Hseg & H1 & H2 & H3 & H4 & _).
    rewrite firstn_length_app in Hseg.
    cbn [store fst]. constructor; [|exact Hrest].
    exists label, url. auto.
Qed.

Lemma store_keeps_keys (r : text) (e : env) :
  keys_are_tokens e -> keys_are_tokens (snd (store r e)).
Proof.
  unfold keys_are_tokens. cbn [store snd placeholders]. intros H.
  apply Forall_app. split; [exact H|].
  constructor; [|constructor]. exists (counter e). reflexivity.
Qed.

Lemma after_links_keys (txt : text) : keys_are_tokens (snd (after_links txt)).
Proof.
  unfold after_links.
  assert (H1 : keys_are_tokens (snd (after_code txt))).
  { unfold after_code, re_sub_st.
    apply (sub_go_state pat_code _ keys_are_tokens).
    - intros m st. apply store_keeps_keys.
    - constructor. }
  destruct (after_code txt) as [t1 e1]. cbn [snd] in H1.
  unfold re_sub_st. apply (sub_go_state pat_link _ keys_are_tokens).
  - intros m st. apply store_keeps_keys.
  - exact H1.
Qed.

Lemma process_inline_stages (txt : text) :
  _process_inline txt =
  restore (placeholders (snd (after_links txt)))
          (emphasis (html_escape false (fst (after_links txt)))).
Proof.
  unfold _process_inline, after_links, after_code.
  destruct (re_sub_st pat_code _ txt empty_env) as [t1 e1].
  destruct (re_sub_st pat_link _ t1 e1) as [t2 e2]. reflexivity.
Qed.

(* ================================================================== *)
(** ** Rewriting *)

Section Rewriting.
Variable items : list (text * text).

Lemma rewrites_trans (a b c : text) :
  rewrites items a b -> rewrites items b c -> rewrites items a c.
Proof.
  induction 1 as [|s t u Hst _ IH]; intros H; [exact H|].
  eapply rewrites_step; [exact Hst | apply IH, H].
Qed.

Lemma rewrite1_app_l (x s t : text) :
  rewrite1 items s t -> rewrite1 items (x ++ s) (x ++ t).
Proof.
  intros [x0 u v y Hin]. rewrite !app_assoc.
  rewrite <- !(app_assoc (x ++ x0)). constructor; assumption.
Qed.

Lemma rewrite1_app_r (y s t : text) :
  rewrite1 items s t -> rewrite1 items (s ++ y) (t ++ y).
Proof.
  intros [x0 u v y0 Hin]. rewrite <- !app_assoc.
  constructor; assumption.
Qed.

Lemma rewrites_app_l (x s t : text) :
  rewrites items s t -> rewrites items (x ++ s) (x ++ t).
Proof.
  induction 1 as [|s t u Hst _ IH]; [constructor|].
  eapply rewrites_step; [apply rewrite1_app_l, Hst | exact IH].
Qed.

Lemma rewrites_app_r (y s t : text) :
  rewrites items s t -> rewrites items (s ++ y) (t ++ y).
Proof.
  induction 1 as [|s t u Hst _ IH]; [constructor|].
  eapply rewrites_step; [apply rewrite1_app_r, Hst | exact IH].
Qed.

Lemma rewrites_cons (c : ascii) (s t : text) :
  rewrites items s t -> rewrites items (c :: s) (c :: t).
Proof. apply (rewrites_app_l [c]). Qed.

Lemma rewrites_segment (u v y : text) :
  In (u, v) (tag_pairs ++ items) -> rewrites items (u ++ y) (v ++ y).
Proof.
  intros Hin. eapply rewrites_step; [|constructor].
  apply (@rewrite1_intro items [] u v y Hin).
Qed.

(** One emphasis pass with delimiter [d] doubled: each match loses its two
    delimiters to the two tags and keeps its content as it is. *)
Lemma strong_pass_rewrites (d : ascii) (s : text) :
  In ([d; d], str "<strong>") tag_pairs ->
  In ([d; d], str "</strong>") tag_pairs ->
  rewrites items s (re_sub [Chr d; Chr d; Rep true (not_chr d) 1 None;
                            Chr d; Chr d] strong s).
Proof.
  intros Hopen Hclose. unfold re_sub, re_sub_st.
  apply (sub_go_rel [Chr d; Chr d; Rep true (not_chr d) 1 None;
                     Chr d; Chr d] _ d eq_refl (rewrites items)).
  - constructor.
  - intros c s0 t H. apply rewrites_cons, H.
  - intros prev seg rest gs st t Hne Hm Hrest.
    apply strong_shape in Hm. destruct Hm as (g & Hseg & ->).
    rewrite firstn_length_app in Hseg. subst seg.
    cbn [fst]. unfold strong. cbn [group Nat.sub nth].
    rewrite <- !app_assoc.
    eapply rewrites_trans.
    { apply (rewrites_segment [d; d] (str "<strong>")).
      apply in_or_app. left. exact Hopen. }
    apply rewrites_app_l, rewrites_app_l.
    eapply rewrites_trans.
    { apply (rewrites_segment [d; d] (str "</strong>")).
      apply in_or_app. left. exact Hclose. }
    apply rewrites_app_l, Hrest.
Qed.

(** One emphasis pass with a single delimiter [d]. *)
Lemma em_pass_rewrites (d : ascii) (s : text) :
  In ([d], str "<em>") tag_pairs ->
  In ([d], str "</em>") tag_pairs ->
  rewrites items s (re_sub [NotBehind d; Chr d; Rep true (not_chr d) 1 None;
                            Chr d; NotAhead d] em s).
Proof.
  intros Hopen Hclose. unfold re_sub, re_sub_st.
  apply (sub_go_rel [NotBehind d; Chr d; Rep true (not_chr d) 1 None;
                     Chr d; NotAhead d] _ d eq_refl (rewrites items)).
  - constructor.
  - intros c s0 t H. apply rewrites_cons, H.
  - intros prev seg rest gs st t Hne Hm Hrest.
    apply em_shape in Hm. destruct Hm as (g & Hseg & ->).
    rewrite firstn_length_app in Hseg. subst seg.
    cbn [fst]. unfold em. cbn [group Nat.sub nth].
    rewrite <- !app_assoc.
    eapply rewrites_trans.
    { apply (rewrites_segment [d] (str "<em>")).
      apply in_or_app. left. exact Hopen. }
    apply rewrites_app_l, rewrites_app_l.
    eapply rewrites_trans.
    { apply (rewrites_segment [d] (str "</em>")).
      apply in_or_app. left. exact Hclose. }
    apply rewrites_app_l, Hrest.
Qed.

Lemma emphasis_rewrites (escaped : text) :
  rewrites items escaped (emphasis escaped).
Proof.
  unfold emphasis.
  eapply rewrites_trans.
  { apply (strong_pass_rewrites "*" escaped);
      [left; reflexivity | right; left; reflexivity]. }
  eapply rewrites_trans.
  { apply (strong_pass_rewrites "_");
      [do 2 right; left; reflexivity | do 3 right; left; reflexivity]. }
  eapply rewrites_trans.
  { apply (em_pass_rewrites "*");
      [do 4 right; left; reflexivity | do 5 right; left; reflexivity]. }
  apply (em_pass_rewrites "_");
    [do 6 right; left; reflexivity | do 7 right; left; reflexivity].
Qed.

End Rewriting.

(* ================================================================== *)
(** ** Restoring the tokens *)

Lemma startswith_split (tok s : text) :
  startswith tok s = true -> exists rest, s = tok ++ rest.
Proof.
  revert s. induction tok as [|t tok IH]; intros s H;
    [exists s; reflexivity|].
  destruct s as [|c s]; simpl in H; [discriminate|].
  apply andb_true_iff in H. destruct H as [H1 H2].
  apply Ascii.eqb_eq in H1. subst c.
  destruct (IH s H2) as [rest ->]. exists rest. reflexivity.
Qed.

Lemma replace_go_skip (old new a s : text) :
  replace_go old new (a ++ s) (length a) = replace_go old new s 0.
Proof. induction a as [|c a IH]; [reflexivity | exact IH]. Qed.

Lemma replace_rewrites (items : list (text * text)) (tok v s : text) :
  tok <> [] -> In (tok, v) (tag_pairs ++ items) ->
  rewrites items s (replace tok v s).
Proof.
  intros Hne Hf. unfold replace.
  induction s as [s IH] using (induction_ltof1 _ (@length ascii)).
  unfold ltof in IH. destruct s as [|c s]; [constructor|].
  cbn [replace_go]. destruct tok as [|t tok]; [congruence|].
  destruct (startswith (t :: tok) (c :: s)) eqn:E.
  - apply startswith_split in E. destruct E as [rest E].
    injection E as -> ->.
    replace (length (t :: tok) - 1) with (length tok) by (simpl; lia).
    rewrite replace_go_skip.
    eapply rewrites_trans.
    { apply (rewrites_segment items (t :: tok) v rest Hf). }
    apply rewrites_app_l, IH. simpl. rewrite length_app. lia.
  - apply rewrites_cons, IH. simpl. lia.
Qed.

Lemma digits_of_uint (d : Decimal.uint) :
  forallb isdigit (str (NilEmpty.string_of_uint d)) = true.
Proof. induction d; simpl; auto. Qed.

Lemma str_of_nat_digits (n : nat) : forallb isdigit (str_of_nat n) = true.
Proof.
  unfold str_of_nat, NilZero.string_of_uint.
  pose proof (digits_of_uint (Nat.to_uint n)) as H.
  destruct (Nat.to_uint n); [reflexivity | exact H ..].
Qed.

Lemma token_fragile (n : nat) : forallb fragile (token n) = true.
Proof.
  unfold token. rewrite !forallb_app. cbn [forallb str list_ascii_of_string].
  assert (H : forallb fragile (str_of_nat n) = true).
  { pose proof (str_of_nat_digits n) as Hd.
    induction (str_of_nat n) as [|c s IH]; [reflexivity|].
    cbn [forallb] in *. apply andb_true_iff in Hd. destruct Hd as [H1 H2].
    unfold fragile at 1. rewrite H1, orb_true_r. apply IH, H2. }
  rewrite H. reflexivity.
Qed.

Lemma token_not_empty (n : nat) : token n <> [].
Proof. discriminate. Qed.

Lemma escape_fragile (quote : bool) (s : text) :
  forallb fragile s = true -> html_escape quote s = s.
Proof.
  induction s as [|c s IH]; [reflexivity|].
  cbn [forallb]. intros H. apply andb_true_iff in H. destruct H as [Hc Hs].
  unfold html_escape in *. cbn [flat_map]. rewrite (IH Hs).
  assert (E : escape_char quote c = [c]).
  { unfold escape_char.
    destruct (Ascii.eqb_spec c "&"); [subst; discriminate|].
    destruct (Ascii.eqb_spec c "<"); [subst; discriminate|].
    destruct (Ascii.eqb_spec c ">"); [subst; discriminate|].
    destruct (Ascii.eqb_spec c dquote);
      [subst; discriminate | rewrite andb_false_r].
    destruct (Ascii.eqb_spec c squote);
      [subst; discriminate | rewrite andb_false_r].
    reflexivity. }
  rewrite E. reflexivity.
Qed.

(** The final loop replaces keys of the dictionary by the values stored
    under them, and nothing else. *)
Lemma restore_rewrites (all items : list (text * text)) (escaped : text) :
  incl items all ->
  Forall (fun kv => exists n, fst kv = token n) items ->
  rewrites all escaped (restore items escaped).
Proof.
  intros Hincl H. revert escaped.
  induction H as [|[tok value] items [n Hn] _ IH]; intros escaped;
    [constructor|].
  cbn [fst] in Hn. subst tok. cbn [restore].
  rewrite (escape_fragile true (token n) (token_fragile n)).
  assert (Hin : In (token n, value) (tag_pairs ++ all)).
  { apply in_or_app. right. apply Hincl. left. reflexivity. }
  eapply rewrites_trans;
    [apply (replace_rewrites all (token n) value escaped
              (token_not_empty n) Hin)|].
  eapply rewrites_trans;
    [apply (replace_rewrites all (token n) value _
              (token_not_empty n) Hin)|].
  apply IH. intros kv Hkv. apply Hincl. right. exact Hkv.
Qed.

(** After the escaping, the inline pass only puts tags in the place of
    emphasis delimiters and stored fragments in the place of their
    tokens. *)
Lemma process_inline_rewrites (txt : text) :
  rewrites (placeholders (snd (after_links txt)))
           (html_escape false (fst (after_links txt))) (_process_inline txt).
Proof.
  rewrite process_inline_stages.
  eapply rewrites_trans; [apply emphasis_rewrites|].
  apply restore_rewrites; [apply incl_refl | apply after_links_keys].
Qed.

(* ================================================================== *)
(** ** A run of characters that are not fragile is never split *)

Lemma fragile_clash (c : ascii) (u w : text) :
  forallb fragile u = true ->
  forallb (fun x => negb (fragile x)) w = true ->
  In c u -> In c w -> False.
Proof.
  intros Hu Hw Hcu Hcw.
  rewrite forallb_forall in Hu, Hw.
  specialize (Hu c Hcu). specialize (Hw c Hcw).
  rewrite Hu in Hw. discriminate.
Qed.

(** What is replaced is never empty and is made of fragile characters. *)
Lemma replaced_is_fragile (items : list (text * text)) (u v : text) :
  Forall (fun kv => exists n, fst kv = token n) items ->
  In (u, v) (tag_pairs ++ items) ->
  u <> [] /\ forallb fragile u = true.
Proof.
  intros Hk Hin. apply in_app_or in Hin. destruct Hin as [Hin | Hin].
  - unfold tag_pairs in Hin. cbn [In] in Hin.
    repeat (destruct Hin as [Hin | Hin];
            [injection Hin as <- _; split; [discriminate | reflexivity]|]).
    contradiction.
  - rewrite Forall_forall in Hk. destruct (Hk _ Hin) as [n Hn].
    cbn [fst] in Hn. subst u.
    split; [apply token_not_empty | apply token_fragile].
Qed.

Section Split.
Variable items : list (text * text).
Hypothesis Hkeys : Forall (fun kv => exists n, fst kv = token n) items.

Lemma rewrite1_split (x w y t : text) :
  w <> [] -> forallb (fun c => negb (fragile c)) w = true ->
  rewrite1 items (x ++ w ++ y) t ->
  exists x' y',
    t = x' ++ w ++ y' /\ rewrites items x x' /\ rewrites items y y'.
Proof.
  intros Hw Hnf H. remember (x ++ w ++ y) as s eqn:Hs.
  destruct H as [x0 u v y0 Hin].
  destruct (replaced_is_fragile items u v Hkeys Hin) as [Hne Hu].
  apply app_eq_app in Hs. destruct Hs as [l [[H1 H2] | [H1 H2]]].
  - (* the replaced run starts at or after the start of [w] *)
    apply app_eq_app in H2. destruct H2 as [l' [[H3 H4] | [H3 H4]]].
    + destruct l' as [|c l'].
      * rewrite app_nil_r in H3. simpl in H4. subst.
        exists x, (v ++ y0). rewrite <- !app_assoc.
        repeat split; [constructor|].
        apply rewrites_segment; assumption.
      * exfalso. destruct u as [|c' u]; [congruence|].
        simpl in H4. injection H4 as -> _.
        apply (fragile_clash c (c :: u) w Hu Hnf);
          [left; reflexivity|].
        rewrite H3. apply in_or_app. right. left. reflexivity.
    + subst. exists x, (l' ++ v ++ y0). rewrite <- !app_assoc.
      repeat split; [constructor|].
      apply rewrites_app_l, rewrites_segment; assumption.
  - (* the replaced run starts before [w] *)
    apply app_eq_app in H2. destruct H2 as [l' [[H3 H4] | [H3 H4]]].
    + destruct l' as [|c l'].
      * rewrite app_nil_r in H3. simpl in H4. subst.
        exists (x0 ++ v), y. rewrite <- !app_assoc.
        repeat split; [|constructor].
        apply rewrites_app_l.
        rewrite <- (app_nil_r l), <- (app_nil_r v).
        apply rewrites_segment; assumption.
      * exfalso. destruct w as [|c' w]; [congruence|].
        simpl in H4. injection H4 as -> _.
        apply (fragile_clash c u (c :: w) Hu Hnf);
          [|left; reflexivity].
        rewrite H3. apply in_or_app. right. left. reflexivity.
    + subst. exists (x0 ++ v ++ l'), y. rewrite <- !app_assoc.
      repeat split; [|constructor].
      apply rewrites_app_l, rewrites_app_r.
      rewrite <- (app_nil_r u), <- (app_nil_r v).
      apply rewrites_segment; assumption.
Qed.

Lemma rewrites_split (w s t : text) :
  w <> [] -> forallb (fun c => negb (fragile c)) w = true ->
  rewrites items s t ->
  forall x y, s = x ++ w ++ y ->
  exists x' y',
    t = x' ++ w ++ y' /\ rewrites items x x' /\ rewrites items y y'.
Proof.
  intros Hw Hnf H. induction H as [s|s t u Hst _ IH]; intros x y Hs.
  - exists x, y. repeat split; [exact Hs | constructor | constructor].
  - subst s. destruct (rewrite1_split x w y t Hw Hnf Hst)
      as (x1 & y1 & Ht & Hx1 & Hy1).
    destruct (IH x1 y1 Ht) as (x2 & y2 & Hu & Hx2 & Hy2).
    exists x2, y2. repeat split; [exact Hu | |].
    + eapply rewrites_trans; eassumption.
    + eapply rewrites_trans; eassumption.
Qed.

End Split.

Lemma flush_paragraph_emits (st : state) :
  paragraph_lines st <> [] ->
  strip (join (str " ") (map strip (paragraph_lines st))) <> [] ->
  html_lines (flush_paragraph st)
  = html_lines st
    ++ [str "<p>"
        ++ _process_inline
             (strip (join (str " ") (map strip (paragraph_lines st))))
        ++ str "</p>"].
Proof.
  intros H1 H2. unfold flush_paragraph.
  destruct (paragraph_lines st); [congruence|]. cbn [null].
  destruct (strip _); [congruence | reflexivity].
Qed.

(* ================================================================== *)
(** ** Literal [<] and [&] in a paragraph *)

(** A paragraph without backticks and without [[] has no code span and no
    link: the two extraction passes leave it as it is. *)
Lemma after_links_plain (txt : text) :
  memb "`" txt = false -> memb "[" txt = false ->
  after_links txt = (txt, empty_env).
Proof.
  intros Hb Hl. unfold after_links, after_code, re_sub_st.
  rewrite (sub_go_identity pat_code _ "`"%char txt None empty_env eq_refl Hb).
  apply (sub_go_identity pat_link _ "["%char txt None empty_env eq_refl Hl).
Qed.

(** C8: let the paragraph text, after its code spans and then its links have
    each been replaced by a token, be [a ++ c :: b] with [c] a [<] or a [&]
    (a literal character outside code spans and links).  Then the output of
    [_process_inline] is [a' ++ entity ++ b'], where [entity] is the entity
    of [c], and [a'] comes from the once-escaped [a] and [b'] from the
    once-escaped [b] by these replacements only: an emphasis delimiter by
    one of its tags, and a token by the fragment stored under it.  So the
    character is written once, as its entity, the entity is never touched
    again, and what stands around it is the escaped text around the
    character with tags and fragments put in.  [flush_paragraph] emits this
    output between [<p>] and [</p>]. *)
Theorem C8_literal_escaped_once (txt a b : text) (c : ascii) :
  fst (after_links txt) = a ++ c :: b ->
  c = "<"%char \/ c = "&"%char ->
  let entity := if Ascii.eqb c "<" then str "&lt;" else str "&amp;" in
  let items := placeholders (snd (after_links txt)) in
  extracted code_span txt (fst (after_code txt))
  /\ extracted link_span (fst (after_code txt)) (fst (after_links txt))
  /\ exists a' b',
       _process_inline txt = a' ++ entity ++ b'
       /\ rewrites items (html_escape false a) a'
       /\ rewrites items (html_escape false b) b'
       /\ forall st,
            paragraph_lines st <> [] ->
            strip (join (str " ") (map strip (paragraph_lines st))) = txt ->
            html_lines (flush_paragraph st)
            = html_lines st ++ [str "<p>" ++ a' ++ entity ++ b' ++ str "</p>"].
Proof.
  intros Ht2 Hc entity items.
  split; [apply after_code_extracted|].
  split; [apply after_links_extracted|].
  pose proof (process_inline_rewrites txt) as Hr. fold items in Hr.
  rewrite Ht2 in Hr.
  assert (He : html_escape false (a ++ c :: b)
               = html_escape false a ++ entity ++ html_escape false b).
  { unfold html_escape. rewrite flat_map_app. cbn [flat_map].
    subst entity. destruct Hc as [-> | ->]; reflexivity. }
  assert (Hent : entity <> []
                 /\ forallb (fun x => negb (fragile x)) entity = true).
  { subst entity. destruct Hc as [-> | ->]; split;
      (discriminate || reflexivity). }
  destruct Hent as [Hne Hnf].
  destruct (rewrites_split items (after_links_keys txt) entity _ _
              Hne Hnf Hr _ _ He)
    as (a' & b' & Hout & Ha & Hb).
  exists a', b'. repeat split; try assumption.
  intros st Hp Hs.
  assert (Htxt : txt <> []).
  { intros ->. vm_compute in Ht2. destruct a; discriminate. }
  rewrite (flush_paragraph_emits st Hp); rewrite Hs; [|exact Htxt].
  rewrite Hout, <- !app_assoc. reflexivity.
Qed.

Lemma C8_witness :
  exists a' b',
    _process_inline (str "1 < 2 & `x<y` *z*") = a' ++ str "&lt;" ++ b'
    /\ rewrites [(str "@@MD0@@", str "<code>x&lt;y</code>")]
                (html_escape false (str "1 ")) a'
    /\ rewrites [(str "@@MD0@@", str "<code>x&lt;y</code>")]
                (html_escape false (str " 2 & @@MD0@@ *z*")) b'.
Proof.
  assert (H : fst (after_links (str "1 < 2 & `x<y` *z*"))
              = str "1 " ++ "<"%char :: str " 2 & @@MD0@@ *z*")
    by (vm_compute; reflexivity).
  destruct (C8_literal_escaped_once
              (str "1 < 2 & `x<y` *z*") (str "1 ")
              (str " 2 & @@MD0@@ *z*") "<"%char H (or_introl eq_refl))
    as (_ & _ & a' & b' & H1 & H2 & H3 & _).
  exists a', b'. repeat split; assumption.
Defined.

(* ================================================================== *)
(** * Further properties of the module *)

(* ================================================================== *)
(** ** Trimming *)

Lemma lstrip_blank (a s : text) : blank a = true -> lstrip (a ++ s) = lstrip s.
Proof.
  unfold blank. induction a as [|c a IH]; intros H; [reflexivity|].
  cbn [forallb] in H. apply andb_true_iff in H. destruct H as [Hc Ha].
  simpl. rewrite Hc. apply IH, Ha.
Qed.

Lemma lstrip_all_blank (a : text) : blank a = true -> lstrip a = [].
Proof.
  intros H. rewrite <- (app_nil_r a). rewrite lstrip_blank by exact H.
  reflexivity.
Qed.

Lemma blank_rev (a : text) : blank (rev a) = blank a.
Proof.
  unfold blank. induction a as [|c a IH]; [reflexivity|].
  simpl. rewrite forallb_app, IH. simpl. rewrite andb_true_r.
  apply andb_comm.
Qed.

Lemma rstrip_blank (s b : text) : blank b = true -> rstrip (s ++ b) = rstrip s.
Proof.
  intros H. unfold rstrip. rewrite rev_app_distr, lstrip_blank; [reflexivity|].
  rewrite blank_rev. exact H.
Qed.

Lemma rstrip_all_blank (b : text) : blank b = true -> rstrip b = [].
Proof.
  intros H. change b with ([] ++ b). rewrite rstrip_blank by exact H.
  reflexivity.
Qed.

(** A text is blank, or it has a first visible character. *)
Lemma first_visible (s : text) :
  blank s = true
  \/ exists a c y, s = a ++ c :: y /\ blank a = true /\ isspace c = false.
Proof.
  induction s as [|x s IH]; [left; reflexivity|].
  destruct (isspace x) eqn:Hx.
  - destruct IH as [H | (a & c & y & -> & Ha & Hc)].
    + left. unfold blank in *. simpl. rewrite Hx. exact H.
    + right. exists (x :: a), c, y. repeat split; [|exact Hc].
      unfold blank in *. simpl. rewrite Hx. exact Ha.
  - right. exists [], x, s. repeat split. exact Hx.
Qed.

Lemma strip_visible (a : text) (c : ascii) (y : text) :
  blank a = true -> isspace c = false ->
  strip (a ++ c :: y) = c :: rstrip y
  /\ lstrip (rstrip (a ++ c :: y)) = c :: rstrip y.
Proof.
  intros Ha Hc. unfold strip. split.
  - rewrite lstrip_blank by exact Ha. simpl. rewrite Hc.
    apply rstrip_cons_nonspace, Hc.
  - rewrite rstrip_app_nonspace by exact Hc.
    rewrite lstrip_blank by exact Ha. simpl. rewrite Hc. reflexivity.
Qed.

(** Trimming on the right and then on the left, as the loop body does, is
    [strip]. *)
Lemma lstrip_rstrip (s : text) : lstrip (rstrip s) = strip s.
Proof.
  destruct (first_visible s) as [H | (a & c & y & -> & Ha & Hc)].
  - unfold strip. rewrite (rstrip_all_blank s H), (lstrip_all_blank s H).
    reflexivity.
  - destruct (strip_visible a c y Ha Hc) as [H1 H2]. congruence.
Qed.

Lemma rstrip_rstrip (s : text) : rstrip (rstrip s) = rstrip s.
Proof.
  unfold rstrip. rewrite rev_involutive. f_equal.
  induction (rev s) as [|c r IH]; [reflexivity|].
  simpl. destruct (isspace c) eqn:E; [exact IH|]. simpl. rewrite E.
  reflexivity.
Qed.

Lemma strip_strip (s : text) : strip (strip s) = strip s.
Proof.
  destruct (first_visible s) as [H | (a & c & y & -> & Ha & Hc)].
  - unfold strip. rewrite (lstrip_all_blank s H). reflexivity.
  - destruct (strip_visible a c y Ha Hc) as [H1 _]. rewrite H1.
    unfold strip. simpl. rewrite Hc.
    rewrite rstrip_cons_nonspace, rstrip_rstrip by exact Hc. reflexivity.
Qed.

Lemma strip_blank_around (a s b : text) :
  blank a = true -> blank b = true -> strip (a ++ s ++ b) = strip s.
Proof.
  intros Ha Hb. unfold strip. rewrite lstrip_blank by exact Ha.
  destruct (first_visible s) as [H | (a' & c & y & -> & Ha' & Hc)].
  - rewrite (lstrip_all_blank s H), lstrip_all_blank; [reflexivity|].
    unfold blank in *. rewrite forallb_app, H, Hb. reflexivity.
  - rewrite <- app_assoc.
    rewrite (lstrip_blank a' ((c :: y) ++ b) Ha').
    rewrite (lstrip_blank a' (c :: y) Ha').
    simpl. rewrite Hc.
    change (c :: y ++ b) with ((c :: y) ++ b).
    apply rstrip_blank, Hb.
Qed.

(* ================================================================== *)
(** ** The classifier: blank text and surrounding whitespace *)

(** X1: a text made of whitespace only, the empty text included, is not
    Markdown. *)
Theorem looks_like_markdown_blank (txt : text) :
  blank txt = true -> _looks_like_markdown txt = false.
Proof.
  intros H. unfold _looks_like_markdown, strip.
  rewrite (lstrip_all_blank txt H). reflexivity.
Qed.

Lemma looks_like_markdown_blank_witness :
  _looks_like_markdown (str "  " ++ [nl] ++ str " ") = false.
Proof.
  apply (looks_like_markdown_blank (str "  " ++ [nl] ++ str " ")).
  reflexivity.
Defined.

(** X2: whitespace before and after the text does not change the answer of
    the classifier. *)
Theorem looks_like_markdown_trims (a txt b : text) :
  blank a = true -> blank b = true ->
  _looks_like_markdown (a ++ txt ++ b) = _looks_like_markdown txt.
Proof.
  intros Ha Hb. unfold _looks_like_markdown.
  rewrite (strip_blank_around a txt b Ha Hb). reflexivity.
Qed.

Lemma looks_like_markdown_trims_witness :
  _looks_like_markdown ([nl] ++ str "- item" ++ str "  ")
  = _looks_like_markdown (str "- item").
Proof.
  apply (looks_like_markdown_trims [nl] (str "- item") (str "  "));
    reflexivity.
Defined.

(* ================================================================== *)
(** ** The paste hook never touches the plain text *)

(** X3: whatever the engine, the flags and the bundle, the hook either
    returns or raises.  When it returns, the bundle has the plain text it
    was given; it is the very bundle it was given unless the paste is not
    internal, the bundle has no HTML, its text passes the classifier and the
    converted text is not blank, in which case only the HTML is new.  It
    raises only what the engine raises on the text of the bundle, and only
    when that is not of class [Exception]. *)
Theorem hook_keeps_plain_text (markdown : option engine) (View : Type)
    (mime : option QMimeData) (editor_web_view : View)
    (internal extended drop_event : bool) :
  match _maybe_convert_markdown markdown mime editor_web_view
                                internal extended drop_event with
  | Returned result =>
      option_map text_data result = option_map text_data mime
      /\ (result = mime
          \/ internal = false
             /\ exists m html_text,
                  mime = Some m /\ html_data m = None
                  /\ _looks_like_markdown (text_of m) = true
                  /\ _convert_markdown markdown (text_of m)
                     = Returned html_text
                  /\ strip html_text <> []
                  /\ result = Some {| html_data := Some html_text;
                                      text_data := text_data m |})
  | Raised e =>
      is_Exception e = false
      /\ exists md m,
           markdown = Some md /\ mime = Some m
           /\ md (text_of m) extensions (str "html5") = Raised e
  end.
Proof.
  unfold _maybe_convert_markdown.
  destruct internal; [split; [reflexivity | left; reflexivity]|].
  destruct mime as [m|]; [|split; [reflexivity | left; reflexivity]].
  unfold hasHtml, hasText, text_of.
  destruct (html_data m) as [h|] eqn:Hh;
    [split; [reflexivity | left; reflexivity]|].
  destruct (text_data m) as [t|] eqn:Ht;
    [|split; [reflexivity | left; reflexivity]].
  cbn [is_some negb].
  destruct (_looks_like_markdown t) eqn:Hl;
    [|split; [reflexivity | left; reflexivity]].
  cbn [negb].
  destruct (_convert_markdown markdown t) as [html_text|e] eqn:Hc.
  - destruct (strip html_text) as [|c r] eqn:Hs;
      [split; [reflexivity | left; reflexivity]|].
    cbn [null]. split.
    + simpl. rewrite Ht. reflexivity.
    + right. split; [reflexivity|]. exists m, html_text. rewrite Ht.
      split; [reflexivity|]. split; [exact Hh|]. split; [exact Hl|].
      split; [exact Hc|]. split; [rewrite Hs; discriminate|].
      reflexivity.
  - destruct (is_Exception e) eqn:He;
      [split; [reflexivity | left; reflexivity]|].
    split; [exact He|].
    unfold _convert_markdown in Hc.
    destruct markdown as [md|]; [|discriminate].
    destruct (md t extensions (str "html5")) as [h'|e'] eqn:Hmd;
      [discriminate|].
    destruct (is_Exception e'); [discriminate|].
    injection Hc as ->. exists md, m. rewrite Ht. repeat split. exact Hmd.
Qed.

(* ================================================================== *)
(** ** The lines of the input *)

Lemma forallb_replace_go (P : ascii -> bool) (old new s : text) (k : nat) :
  forallb P new = true -> forallb P s = true ->
  forallb P (replace_go old new s k) = true.
Proof.
  intros Hn. revert k. induction s as [|c s IH]; intros k Hs; [reflexivity|].
  cbn [forallb] in Hs. apply andb_true_iff in Hs. destruct Hs as [Hc Hs].
  cbn [replace_go]. destruct k as [|k]; [|apply IH, Hs].
  destruct old as [|o old].
  - cbn [forallb]. rewrite Hc. apply IH, Hs.
  - destruct (startswith (o :: old) (c :: s)).
    + rewrite forallb_app, Hn. apply IH, Hs.
    + cbn [forallb]. rewrite Hc. apply IH, Hs.
Qed.

Lemma forallb_split (P : ascii -> bool) (sep : ascii) (s : text) :
  forallb P s = true -> Forall (fun l => forallb P l = true) (split sep s).
Proof.
  induction s as [|c s IH]; intros H; [repeat constructor|].
  cbn [forallb] in H. apply andb_true_iff in H. destruct H as [Hc Hs].
  specialize (IH Hs). cbn [split].
  destruct (Ascii.eqb c sep); [constructor; [reflexivity | exact IH]|].
  destruct (split sep s) as [|f fs]; [repeat constructor; simpl; rewrite Hc;
                                      reflexivity|].
  inversion IH as [|? ? Hf Hfs]; subst.
  constructor; [|exact Hfs]. cbn [forallb]. rewrite Hc. exact Hf.
Qed.

Lemma step_blank_initial (raw_line : text) :
  blank raw_line = true -> step initial raw_line = initial.
Proof.
  intros H. unfold step. rewrite (rstrip_all_blank raw_line H). reflexivity.
Qed.

(** X4: a blank input (whitespace only, line breaks included) converts to
    the empty text. *)
Theorem basic_markdown_blank (txt : text) :
  blank txt = true -> _basic_markdown_to_html txt = [].
Proof.
  intros H. unfold _basic_markdown_to_html, lines_of.
  assert (Hl : Forall (fun l => blank l = true)
                 (split nl (replace [cr] [nl] (replace [cr; nl] [nl] txt)))).
  { apply forallb_split. unfold replace.
    apply forallb_replace_go; [reflexivity|].
    apply forallb_replace_go; [reflexivity | exact H]. }
  assert (Hr : forall ls, Forall (fun l => blank l = true) ls ->
                          run_lines initial ls = initial).
  { induction 1 as [|l ls Hb _ IH]; [reflexivity|].
    simpl. rewrite (step_blank_initial l Hb). exact IH. }
  rewrite (Hr _ Hl). reflexivity.
Qed.

Lemma basic_markdown_blank_witness :
  _basic_markdown_to_html (str " " ++ [cr; nl] ++ str "  " ++ [nl]) = [].
Proof.
  apply (basic_markdown_blank (str " " ++ [cr; nl] ++ str "  " ++ [nl])).
  reflexivity.
Defined.

Lemma replace_single_removes (c : ascii) (new s : text) :
  memb c new = false -> memb c (replace [c] new s) = false.
Proof.
  intros Hn. unfold replace. induction s as [|x s IH]; [reflexivity|].
  cbn [replace_go startswith length Nat.sub].
  destruct (Ascii.eqb c x) eqn:E; cbn [andb].
  - unfold memb in *. rewrite existsb_app, Hn. exact IH.
  - unfold memb in *. cbn [existsb]. rewrite E. exact IH.
Qed.

Lemma split_fields (sep : ascii) (s l : text) :
  In l (split sep s) ->
  memb sep l = false
  /\ forall c, memb c s = false -> memb c l = false.
Proof.
  revert l. induction s as [|x s IH]; intros l Hin.
  - destruct Hin as [<- | []]. split; [reflexivity | auto].
  - cbn [split] in Hin. destruct (Ascii.eqb x sep) eqn:E.
    + destruct Hin as [<- | Hin]; [split; [reflexivity | auto]|].
      destruct (IH l Hin) as [H1 H2]. split; [exact H1|].
      intros c Hc. apply H2. unfold memb in *. cbn [existsb] in Hc.
      apply orb_false_iff in Hc. apply Hc.
    + destruct (split sep s) as [|f fs] eqn:Es.
      * destruct Hin as [<- | []]. unfold memb. cbn [existsb].
        rewrite Ascii.eqb_sym, E. split; [reflexivity|].
        intros c Hc. cbn [existsb] in Hc. apply orb_false_iff in Hc.
        destruct Hc as [-> _]. reflexivity.
      * destruct Hin as [<- | Hin].
        -- destruct (IH f (or_introl eq_refl)) as [H1 H2].
           unfold memb in *. cbn [existsb].
           rewrite Ascii.eqb_sym, E, H1. split; [reflexivity|].
           intros c Hc. cbn [existsb] in Hc. apply orb_false_iff in Hc.
           destruct Hc as [-> Hc]. apply (H2 c Hc).
        -- destruct (IH l (or_intror Hin)) as [H1 H2]. split; [exact H1|].
           intros c Hc. apply H2. unfold memb in *. cbn [existsb] in Hc.
           apply orb_false_iff in Hc. apply Hc.
Qed.

(** X5: no line that the loop sees holds a line feed or a carriage
    return. *)
Theorem lines_hold_no_line_break (txt l : text) :
  In l (lines_of txt) -> memb nl l = false /\ memb cr l = false.
Proof.
  unfold lines_of. intros Hin.
  destruct (split_fields nl _ l Hin) as [H1 H2]. split; [exact H1|].
  apply H2, replace_single_removes. reflexivity.
Qed.

Lemma lines_hold_no_line_break_witness :
  memb nl (str "b") = false /\ memb cr (str "b") = false.
Proof.
  apply (lines_hold_no_line_break (str "a" ++ [cr; nl] ++ str "b") (str "b")).
  vm_compute. right. left. reflexivity.
Defined.

(* ================================================================== *)
(** ** Code mode *)

Lemma item_keeps_code (kind content : text) (st : state) :
  in_code_block (item kind content st) = in_code_block st.
Proof.
  unfold item. pose proof (flush_paragraph_keeps st) as (Hf & _ & _).
  destruct (top_is_not kind _); simpl; exact Hf.
Qed.

Lemma step_code_mode (st : state) (raw_line : text) :
  in_code_block (step st raw_line)
  = xorb (in_code_block st) (is_fence raw_line).
Proof.
  pose proof (flush_paragraph_keeps st) as (Hf & _ & _).
  unfold step, is_fence.
  destruct (startswith fence _).
  { destruct (in_code_block st); reflexivity. }
  rewrite xorb_false_r.
  destruct (in_code_block st) eqn:Hin; [exact Hin|].
  destruct (null _); [exact Hf|].
  destruct (is_rule _); [exact Hf|].
  destruct (re_match pat_heading _); [exact Hf|].
  destruct (re_match pat_blockquote _); [exact Hf|].
  destruct (re_match pat_unordered _);
    [rewrite item_keeps_code; exact Hin|].
  destruct (re_match pat_ordered _);
    [rewrite item_keeps_code; exact Hin|].
  exact Hin.
Qed.

(** X6: after any lines, the loop is in code mode exactly when it has seen
    an odd number of fence lines: every fence line toggles the mode and no
    other line changes it. *)
Theorem code_mode_is_fence_parity (lines : list text) :
  in_code_block (run_lines initial lines)
  = Nat.odd (length (filter is_fence lines)).
Proof.
  assert (H : forall ls st,
             in_code_block (run_lines st ls)
             = xorb (in_code_block st)
                    (Nat.odd (length (filter is_fence ls)))).
  { induction ls as [|l ls IH]; intros st.
    - simpl. rewrite xorb_false_r. reflexivity.
    - simpl. rewrite IH, step_code_mode.
      destruct (is_fence l); simpl length.
      + rewrite Nat.odd_succ, <- Nat.negb_odd.
        destruct (in_code_block st), (Nat.odd _); reflexivity.
      + rewrite xorb_false_r. reflexivity. }
  rewrite H. reflexivity.
Qed.

(* ================================================================== *)
(** ** What a match needs *)

Lemma existsb_skipn (p : ascii -> bool) (k : nat) (s : text) :
  existsb p (skipn k s) = true -> existsb p s = true.
Proof.
  intros H. rewrite <- (firstn_skipn k s), existsb_app, H.
  apply orb_true_r.
Qed.

Lemma run_positive (q : ascii -> bool) (hi : option nat) (s : text) :
  1 <= run q hi s -> exists x s', s = x :: s' /\ q x = true.
Proof.
  destruct s as [|x s']; simpl; [lia|].
  destruct (q x) eqn:E; [eauto | lia].
Qed.

(** A match consumes a character of a class that one of the atoms of the
    pattern demands. *)
Lemma match_demands (p : ascii -> bool) (rs : regex) (prev : option ascii)
    (s : text) (r : found) :
  Exists (demands p) rs -> m_atoms rs prev s = Some r ->
  existsb p s = true.
Proof.
  intros Hex. revert prev s r.
  induction Hex as [a rs Ha | a rs _ IH]; intros prev s [gs n] Hm.
  - destruct a as [c|q|cap q [|lo] hi| | |c|c]; simpl in Ha; try contradiction.
    + apply m_chr_inv in Hm. destruct Hm as (s' & n' & -> & _ & _).
      simpl. rewrite Ha. reflexivity.
    + cbn [m_atoms] in Hm. destruct s as [|x s']; [discriminate|].
      destruct (q x) eqn:E; [|discriminate].
      simpl. rewrite (Ha x E). reflexivity.
    + cbn [m_atoms] in Hm. apply try_down_inv in Hm.
      destruct Hm as (j & Hlo & Hj & _).
      destruct (run_positive q hi s) as (x & s' & -> & Hx); [lia|].
      simpl. rewrite (Ha x Hx). reflexivity.
  - destruct a as [c|q|cap q lo hi| | |c|c]; cbn [m_atoms] in Hm.
    + destruct s as [|x s']; [discriminate|].
      destruct (Ascii.eqb x c); [|discriminate].
      apply bump_inv in Hm. destruct Hm as (gs' & n' & Hm & _).
      simpl. rewrite (IH _ _ _ Hm). apply orb_true_r.
    + destruct s as [|x s']; [discriminate|].
      destruct (q x); [|discriminate].
      apply bump_inv in Hm. destruct Hm as (gs' & n' & Hm & _).
      simpl. rewrite (IH _ _ _ Hm). apply orb_true_r.
    + apply try_down_inv in Hm. destruct Hm as (j & _ & _ & Hm).
      apply bump_inv in Hm. destruct Hm as (gs' & n' & Hm & _).
      apply (existsb_skipn p j), (IH _ _ _ Hm).
    + destruct prev; [discriminate|]. apply (IH _ _ _ Hm).
    + destruct prev as [c|]; [|apply (IH _ _ _ Hm)].
      destruct (Ascii.eqb c nl); [apply (IH _ _ _ Hm) | discriminate].
    + destruct prev as [x|]; [|apply (IH _ _ _ Hm)].
      destruct (Ascii.eqb x c); [discriminate | apply (IH _ _ _ Hm)].
    + destruct s as [|x s']; [apply (IH _ _ _ Hm)|].
      destruct (Ascii.eqb x c); [discriminate | apply (IH _ _ _ Hm)].
Qed.

Lemma search_demands (p : ascii -> bool) (rs : regex) (s : text)
    (prev : option ascii) (r : found) :
  Exists (demands p) rs -> search_from rs prev s = Some r ->
  existsb p s = true.
Proof.
  intros Hex. revert prev. induction s as [|c s IH]; intros prev H.
  - simpl in H. destruct (m_atoms rs prev []) eqn:E; [|discriminate].
    apply (match_demands p rs prev [] _ Hex E).
  - simpl in H. destruct (m_atoms rs prev (c :: s)) eqn:E.
    + apply (match_demands p rs prev (c :: s) _ Hex E).
    + simpl. rewrite (IH _ H). apply orb_true_r.
Qed.

Lemma forallb_lstrip (P : ascii -> bool) (s : text) :
  forallb P s = true -> forallb P (lstrip s) = true.
Proof.
  induction s as [|c s IH]; intros H; [reflexivity|].
  simpl. destruct (isspace c); [|exact H].
  simpl in H. apply andb_true_iff in H. apply IH, H.
Qed.

Lemma forallb_rev (P : ascii -> bool) (s : text) :
  forallb P (rev s) = forallb P s.
Proof.
  induction s as [|c s IH]; [reflexivity|].
  simpl. rewrite forallb_app, IH. simpl. rewrite andb_true_r.
  apply andb_comm.
Qed.

Lemma forallb_strip (P : ascii -> bool) (s : text) :
  forallb P s = true -> forallb P (strip s) = true.
Proof.
  intros H. unfold strip, rstrip. rewrite forallb_rev.
  apply forallb_lstrip. rewrite forallb_rev. apply forallb_lstrip, H.
Qed.

Lemma forallb_not_existsb (p : ascii -> bool) (s : text) :
  forallb (fun c => negb (p c)) s = true -> existsb p s = false.
Proof.
  induction s as [|c s IH]; [reflexivity|].
  simpl. intros H. apply andb_true_iff in H. destruct H as [Hc Hs].
  apply negb_true_iff in Hc. rewrite Hc, (IH Hs). reflexivity.
Qed.

Lemma digit_is_clue_char (x : ascii) :
  isdigit x = true -> memb x clue_chars = true.
Proof.
  destruct x as [[] [] [] [] [] [] [] []]; intros H;
    try discriminate H; reflexivity.
Qed.

Lemma clues_demand_clue_chars :
  Forall (fun rs => Exists (demands (fun c => memb c clue_chars)) rs)
         MARKDOWN_CLUES.
Proof.
  unfold MARKDOWN_CLUES. repeat apply Forall_cons; [..| apply Forall_nil].
  - (* heading *) apply Exists_cons_tl, Exists_cons_hd.
    intros x Hx. apply Ascii.eqb_eq in Hx. subst x. reflexivity.
  - (* unordered *) do 2 apply Exists_cons_tl. apply Exists_cons_hd.
    intros x Hx. destruct (bullet_cases x Hx) as [-> | [-> | ->]];
      reflexivity.
  - (* ordered *) do 2 apply Exists_cons_tl. apply Exists_cons_hd.
    exact digit_is_clue_char.
  - (* code *) apply Exists_cons_hd.
    intros x Hx. apply Ascii.eqb_eq in Hx. subst x. reflexivity.
  - (* link *) apply Exists_cons_hd. reflexivity.
  - (* bold *) apply Exists_cons_hd. reflexivity.
  - (* bold *) apply Exists_cons_hd. reflexivity.
  - (* blockquote *) do 2 apply Exists_cons_tl. apply Exists_cons_hd.
    reflexivity.
Qed.

(** X7: a text that holds none of the characters [#], [-], [*], [+], a
    digit, a backtick, [[], [_] and [>] is never classified as Markdown,
    whatever its length. *)
Theorem looks_like_markdown_needs_clue_char (txt : text) :
  forallb (fun c => negb (memb c clue_chars)) txt = true ->
  _looks_like_markdown txt = false.
Proof.
  intros H. apply forallb_strip in H. apply forallb_not_existsb in H.
  unfold _looks_like_markdown.
  destruct (null (strip txt)); [reflexivity|].
  destruct (negb _ && _); [reflexivity|].
  assert (Hall : forall clues,
             Forall (fun rs => Exists (demands (fun c => memb c clue_chars)) rs)
                    clues ->
             existsb (fun pattern => is_some (re_search pattern (strip txt)))
                     clues = false).
  { induction 1 as [|rs clues Hrs _ IH]; [reflexivity|].
    cbn [existsb]. rewrite IH, orb_false_r.
    unfold re_search.
    destruct (search_from rs None (strip txt)) as [r|] eqn:E; [|reflexivity].
    rewrite (search_demands _ rs (strip txt) None r Hrs E) in H.
    discriminate. }
  apply Hall, clues_demand_clue_chars.
Qed.

Lemma looks_like_markdown_needs_clue_char_witness :
  _looks_like_markdown (str "Plain prose, with (brackets) & more.") = false.
Proof.
  apply (looks_like_markdown_needs_clue_char
           (str "Plain prose, with (brackets) & more.")).
  reflexivity.
Defined.

(* ================================================================== *)
(** ** The inline pass on text without markup *)

Lemma memb_escape (quote : bool) (c : ascii) (s : text) :
  memb c escape_alphabet = false ->
  memb c (html_escape quote s) = memb c s.
Proof.
  intros Hc. unfold html_escape. induction s as [|x s IH]; [reflexivity|].
  cbn [flat_map]. unfold memb in *. rewrite existsb_app, IH.
  cbn [existsb]. f_equal.
  destruct (escape_char_cases quote x) as [-> | (Hx & e & es & -> & Hes)].
  - cbn [existsb]. apply orb_false_r.
  - fold (memb c escape_alphabet) in Hc. fold (memb x escape_alphabet) in Hx.
    rewrite (memb_neq c x escape_alphabet Hc Hx).
    clear - Hc Hes. induction Hes as [|a l Ha _ IH]; [reflexivity|].
    cbn [existsb]. rewrite (memb_neq c a escape_alphabet Hc Ha), IH.
    reflexivity.
Qed.

Lemma html_escape_app (quote : bool) (a b : text) :
  html_escape quote (a ++ b) = html_escape quote a ++ html_escape quote b.
Proof. apply flat_map_app. Qed.

Lemma emphasis_plain (escaped : text) :
  memb "*" escaped = false -> memb "_" escaped = false ->
  emphasis escaped = escaped.
Proof.
  intros Hs Hu. unfold emphasis, re_sub, re_sub_st.
  rewrite (sub_go_identity pat_strong_star _ "*"%char escaped None tt
             eq_refl Hs). cbn [fst].
  rewrite (sub_go_identity pat_strong_under _ "_"%char escaped None tt
             eq_refl Hu). cbn [fst].
  rewrite (sub_go_identity pat_em_star _ "*"%char escaped None tt
             eq_refl Hs). cbn [fst].
  rewrite (sub_go_identity pat_em_under _ "_"%char escaped None tt
             eq_refl Hu). reflexivity.
Qed.

Lemma absent_of_forallb (A s : text) (x : ascii) :
  forallb (fun c => negb (memb c A)) s = true -> memb x A = true ->
  memb x s = false.
Proof.
  intros H Hx. induction s as [|c s IH]; [reflexivity|].
  cbn [forallb] in H. apply andb_true_iff in H. destruct H as [Hc Hs].
  apply negb_true_iff in Hc. unfold memb at 1. cbn [existsb].
  fold (memb x s). rewrite (IH Hs), orb_false_r.
  rewrite Ascii.eqb_sym. apply (memb_neq c x A Hc Hx).
Qed.

(** X8: on a text without backtick, [[], [*] and [_] the inline pass is
    [html.escape] with [quote=False] and nothing more. *)
Theorem process_inline_plain (txt : text) :
  forallb (fun c => negb (memb c inline_chars)) txt = true ->
  _process_inline txt = html_escape false txt.
Proof.
  intros H.
  rewrite process_inline_stages.
  rewrite (after_links_plain txt
             (absent_of_forallb inline_chars txt "`" H eq_refl)
             (absent_of_forallb inline_chars txt "[" H eq_refl)).
  cbn [fst snd placeholders empty_env restore].
  apply emphasis_plain; rewrite memb_escape by reflexivity.
  - apply (absent_of_forallb inline_chars txt "*" H eq_refl).
  - apply (absent_of_forallb inline_chars txt "_" H eq_refl).
Qed.

Lemma process_inline_plain_witness :
  _process_inline (str "a < b & c > d") = str "a &lt; b &amp; c &gt; d".
Proof.
  apply (process_inline_plain (str "a < b & c > d")). reflexivity.
Defined.

(* ================================================================== *)
(** ** A code span and a bold span on their own *)

Lemma code_matches (body : text) :
  body <> [] -> memb "`" body = false ->
  m_atoms pat_code None ("`"%char :: body ++ ["`"%char])
  = Some ([body], length ("`"%char :: body ++ ["`"%char])).
Proof.
  intros Hb Hn. unfold pat_code. rewrite m_atoms_chr.
  erewrite m_atoms_rep_take.
  - cbn [bump]. f_equal. f_equal. cbn [length]. rewrite length_app.
    reflexivity.
  - apply memb_false_forall, Hn.
  - reflexivity.
  - destruct body; [congruence | simpl; lia].
  - rewrite m_atoms_chr. reflexivity.
Qed.

(** X9: a code span on its own, with a body that holds no backtick and not
    the text of the first token, becomes a [<code>] element whose content is
    the body escaped with [quote=True]; emphasis delimiters, brackets and
    the like in the body stay as they are. *)
Theorem process_inline_code_span (body : text) :
  body <> [] -> memb "`" body = false ->
  occursb (token 0) body = false ->
  _process_inline ("`"%char :: body ++ ["`"%char])
  = str "<code>" ++ html_escape true body ++ str "</code>".
Proof.
  intros Hb Hn Ht.
  set (s := "`"%char :: body ++ ["`"%char]).
  assert (Hs : s <> []) by discriminate.
  pose proof (code_matches body Hb Hn) as Hm. fold s in Hm.
  assert (Hm' : m_atoms pat_code None (s ++ []) = Some ([body], length s))
    by (rewrite app_nil_r; exact Hm).
  unfold _process_inline, re_sub_st.
  rewrite <- (app_nil_r s) at 1.
  rewrite (sub_go_match pat_code _ s [] None empty_env [body] Hs Hm').
  cbn [store counter placeholders empty_env app].
  rewrite (sub_go_identity pat_code _ "`"%char [] _ _ eq_refl eq_refl).
  change (code_fragment ([body], length s))
    with (str "<code>" ++ html_escape true body ++ str "</code>").
  set (value := str "<code>" ++ html_escape true body ++ str "</code>").
  rewrite (sub_go_identity pat_link _ "["%char (token 0 ++ []) None _
             eq_refl eq_refl).
  cbn [placeholders restore].
  assert (He : emphasis (html_escape false (token 0 ++ [])) = token 0)
    by (vm_compute; reflexivity).
  rewrite He.
  assert (Hk : html_escape true (token 0) = token 0)
    by (vm_compute; reflexivity).
  rewrite Hk, replace_self by discriminate.
  apply replace_absent. subst value.
  change (str "<code>" ++ html_escape true body ++ str "</code>")
    with ("<"%char :: "c"%char :: "o"%char :: "d"%char :: "e"%char
          :: ">"%char
          :: html_escape true body
             ++ "<"%char :: "/"%char :: "c"%char :: "o"%char :: "d"%char
                :: "e"%char :: [">"%char]).
  rewrite !occursb_cons_skip by reflexivity.
  rewrite occursb_app_sep by reflexivity.
  rewrite occursb_escape, Ht by reflexivity. reflexivity.
Qed.

Lemma process_inline_code_span_witness :
  _process_inline (str "`*a* <b> [c](d)`")
  = str "<code>*a* &lt;b&gt; [c](d)</code>".
Proof.
  apply (process_inline_code_span (str "*a* <b> [c](d)"));
    (discriminate || reflexivity).
Defined.

Lemma escape_not_empty (quote : bool) (s : text) :
  s <> [] -> 1 <= length (html_escape quote s).
Proof.
  destruct s as [|c s]; [congruence|]. intros _.
  unfold html_escape. cbn [flat_map]. rewrite length_app.
  destruct (escape_char_cases quote c) as [-> | (_ & e & es & -> & _)];
    simpl; lia.
Qed.

(** X10: a text between two pairs of asterisks, without backtick, [[], [*]
    and [_], becomes a [<strong>] element whose content is the text escaped
    with [quote=False]. *)
Theorem process_inline_bold (g : text) :
  g <> [] ->
  forallb (fun c => negb (memb c inline_chars)) g = true ->
  _process_inline (str "**" ++ g ++ str "**")
  = str "<strong>" ++ html_escape false g ++ str "</strong>".
Proof.
  intros Hg H.
  pose proof (absent_of_forallb inline_chars g "`" H eq_refl) as Hb.
  pose proof (absent_of_forallb inline_chars g "[" H eq_refl) as Hl.
  pose proof (absent_of_forallb inline_chars g "*" H eq_refl) as Hs.
  pose proof (absent_of_forallb inline_chars g "_" H eq_refl) as Hu.
  rewrite process_inline_stages, after_links_plain;
    [| rewrite !memb_app, Hb; reflexivity
     | rewrite !memb_app, Hl; reflexivity ].
  cbn [fst snd placeholders empty_env restore].
  rewrite !html_escape_app.
  change (html_escape false (str "**")) with (str "**").
  set (e := html_escape false g).
  assert (Hes : memb "*" e = false)
    by (subst e; rewrite memb_escape by reflexivity; exact Hs).
  assert (Heu : memb "_" e = false)
    by (subst e; rewrite memb_escape by reflexivity; exact Hu).
  assert (Hm : m_atoms pat_strong_star None ((str "**" ++ e ++ str "**") ++ [])
               = Some ([e], length (str "**" ++ e ++ str "**"))).
  { rewrite app_nil_r. unfold pat_strong_star.
    change (str "**" ++ e ++ str "**")
      with ("*"%char :: "*"%char :: e ++ "*"%char :: ["*"%char]).
    rewrite !m_atoms_chr. erewrite m_atoms_rep_take.
    - cbn [bump]. f_equal. f_equal. cbn [length]. rewrite length_app.
      reflexivity.
    - apply memb_false_forall, Hes.
    - reflexivity.
    - subst e. apply escape_not_empty, Hg.
    - rewrite !m_atoms_chr. reflexivity. }
  unfold emphasis.
  assert (H1 : re_sub pat_strong_star strong (str "**" ++ e ++ str "**")
               = str "<strong>" ++ e ++ str "</strong>").
  { unfold re_sub, re_sub_st.
    rewrite <- (app_nil_r (str "**" ++ e ++ str "**")) at 1.
    assert (Hne : str "**" ++ e ++ str "**" <> []) by discriminate.
    rewrite (sub_go_match pat_strong_star _ _ [] None tt [e] Hne Hm).
    rewrite (sub_go_identity pat_strong_star _ "*"%char [] _ _
               eq_refl eq_refl).
    cbn [fst]. unfold strong. cbn [group Nat.sub nth].
    rewrite app_nil_r. reflexivity. }
  rewrite H1.
  assert (Hrs : memb "*" (str "<strong>" ++ e ++ str "</strong>") = false)
    by (rewrite !memb_app, Hes; reflexivity).
  assert (Hru : memb "_" (str "<strong>" ++ e ++ str "</strong>") = false)
    by (rewrite !memb_app, Heu; reflexivity).
  unfold re_sub, re_sub_st.
  rewrite (sub_go_identity pat_strong_under _ "_"%char _ None tt eq_refl Hru).
  cbn [fst].
  rewrite (sub_go_identity pat_em_star _ "*"%char _ None tt eq_refl Hrs).
  cbn [fst].
  rewrite (sub_go_identity pat_em_under _ "_"%char _ None tt eq_refl Hru).
  reflexivity.
Qed.

Lemma process_inline_bold_witness :
  _process_inline (str "**R&D**") = str "<strong>R&amp;D</strong>".
Proof.
  apply (process_inline_bold (str "R&D")); (discriminate || reflexivity).
Defined.

(* ================================================================== *)
(** ** The tokens of one call *)

Lemma to_uint_not_nil (n : nat) : Nat.to_uint n <> Decimal.Nil.
Proof.
  rewrite <- (DecimalNat.Unsigned.of_to n) at 1.
  rewrite DecimalNat.Unsigned.to_of. apply DecimalFacts.unorm_nonnil.
Qed.

Lemma str_inj (a b : string) : str a = str b -> a = b.
Proof.
  unfold str. intros H.
  rewrite <- (string_of_list_ascii_of_string a),
          <- (string_of_list_ascii_of_string b), H.
  reflexivity.
Qed.

Lemma str_of_nat_inj (a b : nat) : str_of_nat a = str_of_nat b -> a = b.
Proof.
  unfold str_of_nat. intros H. apply str_inj in H.
  apply DecimalNat.Unsigned.to_uint_inj.
  assert (E : Some (Nat.to_uint a) = Some (Nat.to_uint b)).
  { rewrite <- (NilZero.usu _ (to_uint_not_nil a)),
            <- (NilZero.usu _ (to_uint_not_nil b)), H.
    reflexivity. }
  congruence.
Qed.

Lemma token_inj (a b : nat) : token a = token b -> a = b.
Proof.
  unfold token. intros H. apply app_inv_head, app_inv_tail in H.
  apply str_of_nat_inj, H.
Qed.

Lemma store_keeps_order (r : text) (e : env) :
  keys_in_order e -> keys_in_order (snd (store r e)).
Proof.
  unfold keys_in_order. cbn [store snd placeholders counter]. intros H.
  rewrite map_app, H, seq_S, map_app. reflexivity.
Qed.

(** X11: in one call of [_process_inline] the keys of [placeholders] are the
    tokens numbered 0, 1, 2, ... in the order in which the fragments were
    stored, as many as the counter says, and no two of them are equal: no
    stored fragment is ever overwritten. *)
Theorem placeholder_keys_are_distinct (txt : text) :
  let e := snd (after_links txt) in
  map fst (placeholders e) = map token (seq 0 (counter e))
  /\ length (placeholders e) = counter e
  /\ NoDup (map fst (placeholders e)).
Proof.
  intros e.
  assert (H : keys_in_order e).
  { subst e. unfold after_links.
    assert (H1 : keys_in_order (snd (after_code txt))).
    { unfold after_code, re_sub_st.
      apply (sub_go_state pat_code _ keys_in_order).
      - intros m st. apply store_keeps_order.
      - reflexivity. }
    destruct (after_code txt) as [t1 e1]. cbn [snd] in H1.
    unfold re_sub_st. apply (sub_go_state pat_link _ keys_in_order).
    - intros m st. apply store_keeps_order.
    - exact H1. }
  unfold keys_in_order in H. split; [exact H|]. split.
  - rewrite <- (length_map fst), H, length_map, length_seq. reflexivity.
  - rewrite H. apply Finite.Injective_map_NoDup; [|apply seq_NoDup].
    intros a b. apply token_inj.
Qed.

(* ================================================================== *)
(** ** Heading lines *)

Lemma m_atoms_rep_take_bounded (cap : bool) (p : ascii -> bool) (lo h : nat)
    (rs : regex) (prev : option ascii) (a s : text) (gs : list text)
    (n : nat) :
  Forall (fun c => p c = true) a -> stops p s ->
  lo <= length a -> length a <= h ->
  m_atoms rs (last_char prev a) s = Some (gs, n) ->
  m_atoms (Rep cap p lo (Some h) :: rs) prev (a ++ s)
  = Some (if cap then a :: gs else gs, length a + n).
Proof.
  intros Ha Hs Hlo Hh Hm. cbn [m_atoms].
  rewrite run_app_bounded by assumption.
  apply try_down_hit; [exact Hlo|].
  rewrite firstn_length_app, skipn_length_app, Hm.
  destruct cap; reflexivity.
Qed.

Lemma blank_forall (ws : text) :
  blank ws = true -> Forall (fun x => isspace x = true) ws.
Proof. unfold blank. intros H. apply Forall_forall, forallb_forall, H. Qed.

Lemma repeat_hash_forall (n : nat) :
  Forall (fun c => is_chr "#" c = true) (repeat "#"%char n).
Proof.
  apply Forall_forall. intros c Hc. apply repeat_spec in Hc. subst c.
  reflexivity.
Qed.

(** The heading branch on a line of one to six hashes, whitespace and a
    trimmed content. *)
Lemma step_heading (st : state) (n : nat) (ws : text)
    (c : ascii) (rest : text) :
  in_code_block st = false ->
  1 <= n <= 6 ->
  ws <> [] -> blank ws = true ->
  isspace c = false -> rstrip (c :: rest) = c :: rest ->
  memb nl (c :: rest) = false ->
  step st (repeat "#"%char n ++ ws ++ c :: rest)
  = emit (str "<h" ++ str_of_nat n ++ str ">"
          ++ _process_inline (c :: rest)
          ++ str "</h" ++ str_of_nat n ++ str ">")
         (close_lists (flush_paragraph st)).
Proof.
  intros Hin Hn Hne Hws Hc Hr Hnl.
  assert (Hrest : rstrip rest = rest).
  { rewrite rstrip_cons_nonspace in Hr by exact Hc. congruence. }
  destruct n as [|n]; [lia|].
  set (raw := repeat "#"%char (S n) ++ ws ++ c :: rest).
  assert (Hstripped : lstrip (rstrip raw) = raw).
  { subst raw. rewrite app_assoc.
    rewrite rstrip_app_nonspace, Hrest by exact Hc. reflexivity. }
  assert (Hm : re_match pat_heading raw
               = Some ([repeat "#"%char (S n); c :: rest],
                       S n + (length ws + (length (c :: rest) + 0)))).
  { unfold re_match, pat_heading. rewrite m_atoms_bol. subst raw.
    erewrite m_atoms_rep_take_bounded;
      [rewrite repeat_length; reflexivity
      | apply repeat_hash_forall | | rewrite repeat_length; lia
      | rewrite repeat_length; lia | ].
    - destruct ws as [|w ws]; [congruence|].
      unfold blank in Hws. cbn [forallb] in Hws.
      apply andb_true_iff in Hws. simpl. apply space_is_not_hash, Hws.
    - erewrite m_atoms_rep_take;
        [reflexivity | apply blank_forall, Hws | exact Hc | |].
      + destruct ws; [congruence | simpl; lia].
      + rewrite <- (app_nil_r (c :: rest)) at 1.
        erewrite m_atoms_rep_take;
          [reflexivity | | exact I | lia | reflexivity].
        apply memb_false_forall, Hnl. }
  assert (Hstrip : strip (c :: rest) = c :: rest).
  { unfold strip. simpl. rewrite Hc. exact Hr. }
  unfold step. rewrite Hstripped, Hm, Hin.
  assert (Hf : startswith fence raw = false) by reflexivity.
  assert (Hnull : null raw = false) by reflexivity.
  assert (Hrule : is_rule raw = false) by reflexivity.
  rewrite Hf, Hnull, Hrule.
  cbn [group Nat.sub nth fst]. rewrite Hstrip, repeat_length.
  rewrite Nat.min_l by lia. reflexivity.
Qed.

(** X12: outside a code block, a line of [n] hashes, [1 <= n <= 6], then
    whitespace, then a content that starts and ends with a visible
    character, appends to the output, after the flush of the pending
    paragraph and the closing of the open list, exactly one line: the
    heading element of level [n] around the inline rendering of the
    content.  No list and no paragraph is pending afterwards. *)
Theorem heading_level_is_hash_count (st : state) (n : nat) (ws : text)
    (c : ascii) (rest : text) :
  in_code_block st = false ->
  1 <= n <= 6 ->
  ws <> [] -> blank ws = true ->
  isspace c = false -> rstrip (c :: rest) = c :: rest ->
  memb nl (c :: rest) = false ->
  let st' := step st (repeat "#"%char n ++ ws ++ c :: rest) in
  html_lines st'
  = html_lines (close_lists (flush_paragraph st))
    ++ [str "<h" ++ str_of_nat n ++ str ">"
        ++ _process_inline (c :: rest)
        ++ str "</h" ++ str_of_nat n ++ str ">"]
  /\ list_stack st' = []
  /\ paragraph_lines st' = []
  /\ in_code_block st' = false.
Proof.
  intros Hin Hn Hne Hws Hc Hr Hnl st'. subst st'.
  rewrite (step_heading st n ws c rest Hin Hn Hne Hws Hc Hr Hnl).
  split; [reflexivity|]. split; [reflexivity|].
  split; [apply flush_paragraph_clears|].
  cbn [in_code_block emit close_lists set_list_stack].
  rewrite (proj1 (flush_paragraph_keeps st)). exact Hin.
Qed.

Lemma heading_level_is_hash_count_witness :
  html_lines (step initial (str "### Title")) = [str "<h3>Title</h3>"].
Proof.
  apply (proj1 (heading_level_is_hash_count initial 3 (str " ") "T"
                  (str "itle") eq_refl ltac:(lia) ltac:(discriminate)
                  eq_refl eq_refl eq_refl eq_refl)).
Defined.

(* ================================================================== *)
(** ** Paragraphs *)

Lemma trimmed_strip (s : text) : trimmed s -> strip s = s.
Proof.
  intros (c & y & -> & Hc & Hy). unfold strip. cbn [lstrip]. rewrite Hc.
  rewrite rstrip_cons_nonspace by exact Hc. rewrite Hy. reflexivity.
Qed.

Lemma trimmed_of_strip (s : text) : null (strip s) = false -> trimmed (strip s).
Proof.
  intros H. destruct (first_visible s) as [Hb | (a & c & y & -> & Ha & Hc)].
  - unfold strip in H. rewrite (lstrip_all_blank s Hb) in H. discriminate.
  - destruct (strip_visible a c y Ha Hc) as [-> _].
    exists c, (rstrip y). repeat split; [exact Hc | apply rstrip_rstrip].
Qed.

Lemma trimmed_join (p : text) (ps : list text) :
  trimmed p -> Forall trimmed ps -> trimmed (join (str " ") (p :: ps)).
Proof.
  intros Hp Hps. revert p Hp.
  induction Hps as [|q qs Hq _ IH]; intros p Hp; [exact Hp|].
  destruct (IH q Hq) as (c' & y' & E & Hc' & Hy').
  destruct Hp as (c & y & -> & Hc & Hy).
  change (join (str " ") ((c :: y) :: q :: qs))
    with ((c :: y) ++ str " " ++ join (str " ") (q :: qs)).
  rewrite E. exists c, (y ++ str " " ++ c' :: y').
  split; [reflexivity|]. split; [exact Hc|].
  rewrite app_assoc. rewrite rstrip_app_nonspace by exact Hc'.
  rewrite Hy'. reflexivity.
Qed.

Lemma paragraph_line_trimmed (raw_line p : text) :
  paragraph_line raw_line = Some p -> trimmed p.
Proof.
  unfold paragraph_line. rewrite lstrip_rstrip. intros H.
  destruct (startswith fence (strip raw_line)); [discriminate|].
  destruct (null (strip raw_line)) eqn:Hn; [discriminate|].
  destruct (is_rule (strip raw_line)); [discriminate|]. simpl in H.
  destruct (re_match pat_heading _); [discriminate|].
  destruct (re_match pat_blockquote _); [discriminate|].
  destruct (re_match pat_unordered _); [discriminate|].
  destruct (re_match pat_ordered _); [discriminate|].
  injection H as <-. apply trimmed_of_strip, Hn.
Qed.

Lemma step_paragraph (st : state) (raw_line p : text) :
  in_code_block st = false ->
  paragraph_line raw_line = Some p ->
  step st raw_line = set_paragraph_lines (paragraph_lines st ++ [p]) st.
Proof.
  intros Hin H. unfold paragraph_line in H. unfold step. rewrite Hin.
  destruct (startswith fence _); [discriminate|].
  destruct (null _); [discriminate|].
  destruct (is_rule _); [discriminate|]. simpl in H.
  destruct (re_match pat_heading _); [discriminate|].
  destruct (re_match pat_blockquote _); [discriminate|].
  destruct (re_match pat_unordered _); [discriminate|].
  destruct (re_match pat_ordered _); [discriminate|].
  injection H as <-. reflexivity.
Qed.

Lemma run_paragraph (lines parts : list text) (st : state) :
  in_code_block st = false ->
  Forall2 (fun l p => paragraph_line l = Some p) lines parts ->
  run_lines st lines = set_paragraph_lines (paragraph_lines st ++ parts) st.
Proof.
  intros Hin H. revert st Hin.
  induction H as [|l p ls ps Hl _ IH]; intros st Hin; simpl.
  - rewrite app_nil_r. destruct st; reflexivity.
  - rewrite (step_paragraph _ _ _ Hin Hl).
    change (fold_left step ls ?x) with (run_lines x ls).
    rewrite IH by exact Hin.
    unfold set_paragraph_lines. simpl. rewrite <- app_assoc. reflexivity.
Qed.

(** X13: outside a code block and with no paragraph pending, a run of one
    or more paragraph lines appends nothing to the output and leaves the
    list stack as it is; the trimmed lines are the pending paragraph.  The
    flush that follows appends exactly one line, the [<p>] element around
    the inline rendering of the trimmed lines joined by single spaces, and
    a blank line after the run appends this line and then the closing tag
    of the list that was open. *)
Theorem paragraph_run_is_one_element (st : state) (lines parts : list text)
    (next : text) :
  in_code_block st = false -> paragraph_lines st = [] -> lines <> [] ->
  Forall2 (fun l p => paragraph_line l = Some p) lines parts ->
  blank_line next = true ->
  let st' := run_lines st lines in
  let element :=
    str "<p>" ++ _process_inline (join (str " ") parts) ++ str "</p>" in
  html_lines st' = html_lines st
  /\ list_stack st' = list_stack st
  /\ paragraph_lines st' = parts
  /\ html_lines (flush_paragraph st') = html_lines st ++ [element]
  /\ html_lines (step st' next)
     = html_lines st ++ element :: map close_tag (rev (list_stack st))
  /\ list_stack (step st' next) = []
  /\ paragraph_lines (step st' next) = [].
Proof.
  intros Hin Hp Hne H Hb st' element.
  assert (Hst : st' = set_paragraph_lines parts st).
  { subst st'. rewrite (run_paragraph _ _ _ Hin H), Hp. reflexivity. }
  assert (Ht : Forall trimmed parts).
  { clear - H. induction H as [|l p ls ps Hl _ IH]; constructor;
      [apply (paragraph_line_trimmed l p Hl) | exact IH]. }
  assert (Hflush : flush_paragraph st' = emit element st).
  { destruct H as [|l p ls ps Hl Hrest]; [congruence|].
    inversion Ht as [|? ? Hp1 Hps]; subst.
    assert (Hmap : map strip (p :: ps) = p :: ps).
    { clear - Ht. induction Ht as [|q qs Hq _ IH]; [reflexivity|].
      simpl. rewrite (trimmed_strip q Hq), IH. reflexivity. }
    pose proof (trimmed_join p ps Hp1 Hps) as Hj.
    rewrite Hst. unfold flush_paragraph.
    cbn [paragraph_lines set_paragraph_lines null]. rewrite Hmap.
    rewrite (trimmed_strip _ Hj).
    destruct Hj as (c & y & Ej & _ & _).
    subst element. rewrite Ej. cbn [null].
    destruct st; simpl in Hp; subst. reflexivity. }
  assert (Hstep : step st' next = close_lists (emit element st)).
  { rewrite step_blank; [rewrite Hflush; reflexivity | | exact Hb].
    rewrite Hst. exact Hin. }
  split; [rewrite Hst; reflexivity|].
  split; [rewrite Hst; reflexivity|].
  split; [rewrite Hst; reflexivity|].
  split; [rewrite Hflush; reflexivity|].
  rewrite Hstep.
  split; [|split; [reflexivity | exact Hp]].
  unfold close_lists. cbn [html_lines list_stack emit set_list_stack].
  rewrite close_loop_app, <- app_assoc. reflexivity.
Qed.

Lemma paragraph_run_is_one_element_witness :
  html_lines (step (run_lines initial [str "- a"; str "one "; str "  two"]) [])
  = [str "<ul>"; str "<li>a</li>"; str "<p>one two</p>"; str "</ul>"].
Proof.
  apply (proj1 (proj2 (proj2 (proj2 (proj2
           (paragraph_run_is_one_element
              (run_lines initial [str "- a"])
              [str "one "; str "  two"] [str "one"; str "two"] []
              eq_refl eq_refl ltac:(discriminate)
              ltac:(repeat constructor) eq_refl)))))).
Defined.

(* ================================================================== *)
(** ** Ordered list items *)

Lemma m_atoms_rep_miss (cap : bool) (p : ascii -> bool) (lo : nat)
    (hi : option nat) (rs : regex) (prev : option ascii) (x : ascii)
    (s : text) :
  p x = false -> 1 <= lo ->
  m_atoms (Rep cap p lo hi :: rs) prev (x :: s) = None.
Proof.
  intros Hp Hlo. cbn [m_atoms run]. rewrite Hp, try_down_eq.
  destruct lo; [lia | reflexivity].
Qed.

Lemma m_atoms_chr_miss (c : ascii) (rs : regex) (prev : option ascii)
    (x : ascii) (s : text) :
  Ascii.eqb x c = false -> m_atoms (Chr c :: rs) prev (x :: s) = None.
Proof. intros H. cbn [m_atoms]. rewrite H. reflexivity. Qed.

Lemma m_atoms_cls_miss (p : ascii -> bool) (rs : regex) (prev : option ascii)
    (x : ascii) (s : text) :
  p x = false -> m_atoms (Cls p :: rs) prev (x :: s) = None.
Proof. intros H. cbn [m_atoms]. rewrite H. reflexivity. Qed.

Lemma digit_is_no_marker (x : ascii) :
  isdigit x = true ->
  isspace x = false /\ is_chr "#" x = false /\ Ascii.eqb x ">" = false
  /\ bullet x = false /\ Ascii.eqb "`" x = false
  /\ Ascii.eqb x "-" = false /\ Ascii.eqb x "*" = false
  /\ Ascii.eqb x "_" = false.
Proof.
  destruct x as [[] [] [] [] [] [] [] []]; intros H;
    try discriminate H; repeat split; reflexivity.
Qed.

Lemma mark_is_no_digit (d : ascii) : dot_or_paren d = true -> isdigit d = false.
Proof.
  unfold dot_or_paren, one_of. cbn [existsb str list_ascii_of_string].
  rewrite orb_false_r, orb_true_iff, !Ascii.eqb_eq.
  intros [-> | ->]; reflexivity.
Qed.

(** The lines the loop body treats as ordered items include every line made
    of digits, a full stop or a closing parenthesis, whitespace and a
    content that starts and ends with a visible character. *)
Lemma ordered_item_shape (ds : text) (d : ascii) (ws : text) (c : ascii)
    (rest : text) :
  ds <> [] -> Forall (fun x => isdigit x = true) ds ->
  dot_or_paren d = true ->
  ws <> [] -> blank ws = true ->
  isspace c = false -> rstrip (c :: rest) = c :: rest ->
  memb nl (c :: rest) = false ->
  ordered_item (ds ++ d :: ws ++ c :: rest) = Some (c :: rest).
Proof.
  intros Hds Hdig Hd Hne Hws Hc Hr Hnl.
  assert (Hrest : rstrip rest = rest).
  { rewrite rstrip_cons_nonspace in Hr by exact Hc. congruence. }
  set (raw := ds ++ d :: ws ++ c :: rest).
  assert (Hm : re_match pat_ordered raw
               = Some ([c :: rest],
                       length ds
                       + (1 + (length ws + (length (c :: rest) + 0))))).
  { unfold re_match, pat_ordered. rewrite m_atoms_bol. subst raw.
    erewrite m_atoms_rep_take;
      [reflexivity | exact Hdig | apply mark_is_no_digit, Hd | | ].
    - destruct ds; [congruence | simpl; lia].
    - rewrite (m_atoms_cls dot_or_paren _ _ d _ Hd).
      erewrite m_atoms_rep_take;
        [reflexivity | apply blank_forall, Hws | exact Hc | |].
      + destruct ws; [congruence | simpl; lia].
      + rewrite <- (app_nil_r (c :: rest)) at 1.
        erewrite m_atoms_rep_take;
          [reflexivity | | exact I | lia | reflexivity].
        apply memb_false_forall, Hnl. }
  destruct ds as [|x ds]; [congruence|].
  inversion Hdig as [|? ? Hx _]; subst.
  destruct (digit_is_no_marker x Hx)
    as (Hsp & Hhash & Hgt & Hbul & Htick & Hr1 & Hr2 & Hr3).
  assert (Hstripped : lstrip (rstrip raw) = raw).
  { subst raw.
    replace ((x :: ds) ++ d :: ws ++ c :: rest)
      with (((x :: ds) ++ d :: ws) ++ c :: rest)
      by (rewrite <- app_assoc; reflexivity).
    rewrite rstrip_app_nonspace, Hrest by exact Hc.
    cbn [app lstrip]. rewrite Hsp. reflexivity. }
  unfold ordered_item. rewrite Hstripped, Hm. subst raw. cbn [app].
  assert (Hf : startswith fence (x :: ds ++ d :: ws ++ c :: rest) = false).
  { unfold fence. cbn [startswith str list_ascii_of_string].
    rewrite Htick. reflexivity. }
  assert (Hrule : is_rule (x :: ds ++ d :: ws ++ c :: rest) = false).
  { unfold is_rule. cbn [text_eqb str list_ascii_of_string].
    rewrite Hr1, Hr2, Hr3. reflexivity. }
  rewrite Hf, Hrule. cbn [null orb].
  unfold re_match, pat_heading, pat_blockquote, pat_unordered.
  rewrite !m_atoms_bol.
  rewrite (m_atoms_rep_miss _ _ _ _ _ _ x _ Hhash) by lia.
  rewrite (m_atoms_chr_miss _ _ _ x _ Hgt).
  rewrite (m_atoms_cls_miss _ _ _ x _ Hbul).
  reflexivity.
Qed.

(** X14: outside a code block, a line of digits, a full stop or a closing
    parenthesis, whitespace and a content is an item of an ordered list
    whatever the number is: the number and the mark are dropped, and the
    line appended for it is [<li>] around the inline rendering of the
    content, after [<ol>] when no ordered list is on top of the stack (the
    pending paragraph is flushed and the open list closed first), and
    directly after the flushed paragraph otherwise. *)
Theorem ordered_line_drops_number (st : state) (ds : text) (d : ascii)
    (ws : text) (c : ascii) (rest : text) :
  in_code_block st = false ->
  ds <> [] -> Forall (fun x => isdigit x = true) ds ->
  dot_or_paren d = true ->
  ws <> [] -> blank ws = true ->
  isspace c = false -> rstrip (c :: rest) = c :: rest ->
  memb nl (c :: rest) = false ->
  let st' := step st (ds ++ d :: ws ++ c :: rest) in
  let li := str "<li>" ++ _process_inline (c :: rest) ++ str "</li>" in
  (top_is_not (str "ol") (list_stack st) = true ->
   html_lines st'
   = html_lines (close_lists (flush_paragraph st)) ++ [str "<ol>"; li]
   /\ list_stack st' = [str "ol"])
  /\ (top_is_not (str "ol") (list_stack st) = false ->
      html_lines st' = html_lines (flush_paragraph st) ++ [li]
      /\ list_stack st' = list_stack st)
  /\ paragraph_lines st' = [].
Proof.
  intros Hin Hds Hdig Hd Hne Hws Hc Hr Hnl st' li.
  assert (Hstep : st' = item (str "ol") (c :: rest) st).
  { subst st'. apply step_ordered; [exact Hin|].
    apply ordered_item_shape; assumption. }
  assert (Hli : list_item (c :: rest) = li).
  { subst li. unfold list_item, strip. cbn [lstrip]. rewrite Hc, Hr.
    reflexivity. }
  pose proof (item_list_stack (str "ol") (c :: rest) st) as Hstack.
  pose proof (flush_paragraph_keeps st) as (_ & Hs & _).
  rewrite Hstep. unfold item in *. rewrite Hs in *. rewrite Hli in *.
  split; [|split].
  - intros Ht. rewrite Ht in *. split; [|exact Hstack].
    cbn [html_lines emit set_list_stack]. rewrite <- app_assoc.
    reflexivity.
  - intros Ht. rewrite Ht in *. split; [reflexivity | exact Hstack].
  - destruct (top_is_not (str "ol") (list_stack st));
      cbn [paragraph_lines emit set_list_stack close_lists];
      apply flush_paragraph_clears.
Qed.

Lemma ordered_line_drops_number_witness :
  html_lines (step initial (str "12) twelve"))
  = [str "<ol>"; str "<li>twelve</li>"].
Proof.
  apply (proj1 (proj1 (ordered_line_drops_number initial (str "12") ")"
                         (str " ") "t" (str "welve")
                         eq_refl ltac:(discriminate)
                         ltac:(repeat constructor) eq_refl
                         ltac:(discriminate) eq_refl eq_refl eq_refl
                         eq_refl) eq_refl)).
Defined.

Lemma item_in_ol (content : text) (st : state) :
  in_ol st ->
  in_ol (item (str "ol") content st)
  /\ html_lines (item (str "ol") content st)
     = html_lines st ++ [list_item content].
Proof.
  intros (Hs & Hc & Hp). unfold item, flush_paragraph.
  rewrite Hp. simpl null. cbv iota. rewrite Hs.
  change (top_is_not (str "ol") [str "ol"]) with false. cbv iota.
  split; [|reflexivity]. repeat split; assumption.
Qed.

Lemma run_in_ol (lines contents : list text) (st : state) :
  in_ol st ->
  Forall2 (fun l c => ordered_item l = Some c) lines contents ->
  in_ol (run_lines st lines)
  /\ html_lines (run_lines st lines)
     = html_lines st ++ map list_item contents.
Proof.
  intros Hst H. revert st Hst.
  induction H as [|l c ls cs Hl _ IH]; intros st Hst; simpl.
  - split; [exact Hst | symmetry; apply app_nil_r].
  - rewrite (step_ordered _ _ _ (proj1 (proj2 Hst)) Hl).
    destruct (item_in_ol c _ Hst) as [Hu Hh].
    destruct (IH _ Hu) as [Hu' Hh'].
    split; [exact Hu'|]. rewrite Hh', Hh, <- app_assoc. reflexivity.
Qed.

Lemma first_ordered_item_opens (content : text) (st : state) :
  in_code_block st = false ->
  top_is_not (str "ol") (list_stack st) = true ->
  in_ol (item (str "ol") content st)
  /\ html_lines (item (str "ol") content st)
     = html_lines (close_lists (flush_paragraph st))
       ++ [str "<ol>"; list_item content].
Proof.
  intros Hc Ht. unfold item.
  pose proof (flush_paragraph_keeps st) as (Hf & Hs & _).
  rewrite Hs, Ht. split.
  - split; [reflexivity|]. split; simpl.
    + rewrite Hf. exact Hc.
    + apply flush_paragraph_clears.
  - simpl. rewrite <- app_assoc. reflexivity.
Qed.

(** X15: a run of one or more ordered list item lines met outside a code
    block while no ordered list is open appends, after the pending paragraph
    and the closing of the list that was open, one [<ol>] and then one
    [<li>] per line, and leaves one [ol] on the stack; an unordered item
    after the run closes the ordered list before it opens [<ul>], and the
    end of the input closes it. *)
Theorem ordered_run_one_ol (st : state) (lines contents : list text) :
  in_code_block st = false ->
  top_is_not (str "ol") (list_stack st) = true ->
  lines <> [] ->
  Forall2 (fun l c => ordered_item l = Some c) lines contents ->
  let st' := run_lines st lines in
  html_lines st'
  = html_lines (close_lists (flush_paragraph st))
    ++ str "<ol>" :: map list_item contents
  /\ list_stack st' = [str "ol"]
  /\ (forall next content, unordered_item next = Some content ->
        html_lines (step st' next)
        = html_lines st' ++ [str "</ol>"; str "<ul>"; list_item content]
        /\ list_stack (step st' next) = [str "ul"])
  /\ html_lines (finish st') = html_lines st' ++ [str "</ol>"].
Proof.
  intros Hc Ht Hne H st'.
  destruct H as [|l c ls cs Hl Hrest]; [congruence|].
  assert (Hrun : in_ol st' /\
                 html_lines st'
                 = html_lines (close_lists (flush_paragraph st))
                   ++ str "<ol>" :: map list_item (c :: cs)).
  { subst st'. simpl run_lines.
    rewrite (step_ordered _ _ _ Hc Hl).
    destruct (first_ordered_item_opens c _ Hc Ht) as [Hu Hh].
    destruct (run_in_ol _ _ _ Hu Hrest) as [Hu' Hh'].
    split; [exact Hu'|].
    unfold run_lines in *. rewrite Hh', Hh, <- app_assoc. reflexivity. }
  destruct Hrun as [(Hs & Hcode & Hp) Hh].
  split; [exact Hh|].
  split; [exact Hs|].
  split.
  - intros next content Ho. rewrite (step_unordered _ _ _ Hcode Ho).
    unfold item, flush_paragraph. rewrite Hp. simpl null. cbv iota.
    rewrite Hs.
    change (top_is_not (str "ul") [str "ol"]) with true. cbv iota.
    simpl. rewrite Hs. simpl. split; [|reflexivity].
    rewrite <- !app_assoc. reflexivity.
  - unfold finish, flush_paragraph. rewrite Hp. simpl null. cbv iota.
    simpl. rewrite Hcode. unfold close_lists. simpl. rewrite Hs.
    reflexivity.
Qed.

Lemma ordered_run_one_ol_witness :
  html_lines (run_lines initial [str "1. one"; str "2) two"])
  = [str "<ol>"; str "<li>one</li>"; str "<li>two</li>"].
Proof.
  apply (proj1 (ordered_run_one_ol initial
                  [str "1. one"; str "2) two"]
                  [str "one"; str "two"]
                  eq_refl eq_refl
                  ltac:(discriminate)
                  ltac:(repeat constructor))).
Defined.

(* ================================================================== *)
(** ** List items and the lists around them *)

Lemma items_scan_app (open : bool) (a b : list text) :
  items_scan open (a ++ b)
  = match items_scan open a with
    | Some o => items_scan o b
    | None => None
    end.
Proof.
  revert open. induction a as [|l a IH]; intros open; [reflexivity|].
  cbn [items_scan app].
  destruct (opens_list l); [apply IH|].
  destruct (closes_list l); [apply IH|].
  destruct (startswith (str "<li>") l); [|apply IH].
  destruct open; [apply IH | reflexivity].
Qed.

Lemma items_scan_neutral (open : bool) (a : list text) (l : text) :
  opens_list l = false -> closes_list l = false ->
  startswith (str "<li>") l = false ->
  items_scan open (a ++ [l]) = items_scan open a.
Proof.
  intros H1 H2 H3. rewrite items_scan_app.
  destruct (items_scan open a); [|reflexivity].
  cbn [items_scan]. rewrite H1, H2, H3. reflexivity.
Qed.

Lemma items_flush_paragraph (open : bool) (st : state) :
  items_scan open (html_lines (flush_paragraph st))
  = items_scan open (html_lines st).
Proof.
  unfold flush_paragraph.
  destruct (null (paragraph_lines st)); [reflexivity|].
  destruct (null _); [reflexivity|].
  cbn [html_lines set_paragraph_lines emit].
  apply items_scan_neutral; reflexivity.
Qed.

Lemma items_close_lists (st : state) :
  invariant st ->
  items_scan false (html_lines st) = Some (negb (null (list_stack st))) ->
  items_scan false (html_lines (close_lists st)) = Some false.
Proof.
  intros [Ik Id _ _] H. unfold close_lists.
  destruct (list_stack st) as [|k [|k' r]] eqn:E; simpl in *; [exact H| |lia].
  assert (Hk : list_kind k) by (inversion Ik; assumption).
  rewrite items_scan_app, H.
  destruct Hk as [-> | ->]; reflexivity.
Qed.

Lemma items_flush_close (st : state) :
  invariant st ->
  items_scan false (html_lines st) = Some (negb (null (list_stack st))) ->
  items_scan false (html_lines (close_lists (flush_paragraph st)))
  = Some false.
Proof.
  intros I H. apply items_close_lists; [apply invariant_flush_paragraph, I|].
  pose proof (flush_paragraph_keeps st) as (_ & Hs & _).
  rewrite items_flush_paragraph, Hs. exact H.
Qed.

Lemma items_item (kind content : text) (st : state) :
  list_kind kind -> invariant st ->
  items_scan false (html_lines st) = Some (negb (null (list_stack st))) ->
  items_scan false (html_lines (item kind content st))
  = Some (negb (null (list_stack (item kind content st)))).
Proof.
  intros Hk I H. rewrite item_list_stack. unfold item.
  pose proof (flush_paragraph_keeps st) as (_ & Hs & _).
  rewrite Hs. destruct (top_is_not kind (list_stack st)) eqn:Ht.
  - pose proof (items_flush_close st I H) as Hc.
    cbn [html_lines emit set_list_stack].
    rewrite !items_scan_app, Hc.
    destruct Hk as [-> | ->]; reflexivity.
  - cbn [html_lines emit]. rewrite items_scan_app, items_flush_paragraph, H.
    unfold top_is_not in Ht. apply orb_false_iff in Ht.
    destruct Ht as [-> _]. reflexivity.
Qed.

Lemma escaped_is_no_item (s : text) :
  startswith (str "<li>") (html_escape true s) = false.
Proof.
  pose proof (escape_not_lt true s) as H.
  destruct (html_escape true s) as [|c r]; [reflexivity|].
  cbn [startswith str list_ascii_of_string].
  destruct (Ascii.eqb_spec "<" c) as [<-|]; [|reflexivity].
  exfalso. apply (H r). reflexivity.
Qed.

Lemma items_step (st : state) (raw_line : text) :
  invariant st ->
  items_scan false (html_lines st) = Some (negb (null (list_stack st))) ->
  items_scan false (html_lines (step st raw_line))
  = Some (negb (null (list_stack (step st raw_line)))).
Proof.
  intros I H. unfold step.
  destruct (startswith fence _).
  { destruct (in_code_block st) eqn:Hin.
    - cbn [html_lines list_stack set_code emit].
      rewrite items_scan_neutral by reflexivity. exact H.
    - cbn [html_lines list_stack set_code emit close_lists set_list_stack].
      rewrite items_scan_neutral by reflexivity.
      apply (items_flush_close st I H). }
  destruct (in_code_block st) eqn:Hin.
  { cbn [html_lines list_stack emit].
    destruct (plain_escaped raw_line) as (_ & _ & H3 & H4).
    rewrite items_scan_neutral; [exact H | exact H3 | exact H4|].
    apply escaped_is_no_item. }
  destruct (null (lstrip (rstrip raw_line))).
  { apply (items_flush_close st I H). }
  destruct (is_rule _).
  { cbn [html_lines list_stack emit close_lists set_list_stack].
    rewrite items_scan_neutral by reflexivity.
    apply (items_flush_close st I H). }
  destruct (re_match pat_heading _) as [heading|].
  { cbn [html_lines list_stack emit close_lists set_list_stack].
    rewrite items_scan_neutral by reflexivity.
    apply (items_flush_close st I H). }
  destruct (re_match pat_blockquote _).
  { cbn [html_lines list_stack emit close_lists set_list_stack].
    rewrite items_scan_neutral by reflexivity.
    apply (items_flush_close st I H). }
  destruct (re_match pat_unordered _).
  { apply items_item; [left; reflexivity | exact I | exact H]. }
  destruct (re_match pat_ordered _).
  { apply items_item; [right; reflexivity | exact I | exact H]. }
  exact H.
Qed.

Lemma items_run_lines (ls : list text) (st : state) :
  invariant st ->
  items_scan false (html_lines st) = Some (negb (null (list_stack st))) ->
  items_scan false (html_lines (run_lines st ls))
  = Some (negb (null (list_stack (run_lines st ls)))).
Proof.
  revert st. induction ls as [|l ls IH]; intros st I H; [exact H|].
  simpl. apply IH; [apply invariant_step, I | apply items_step; assumption].
Qed.

(** X16: for every input, each [<li>] line of the output comes while a list
    is open, that is after a [<ul>] or [<ol>] line with no [</ul>] or
    [</ol>] line in between; this holds of the lines emitted after any
    number of iterations of the loop, where a list is open exactly when the
    stack is not empty, and of the final output, where none is open. *)
Theorem list_items_are_inside_lists (txt : text) (k : nat) :
  let st := run_lines initial (firstn k (lines_of txt)) in
  items_scan false (html_lines st) = Some (negb (null (list_stack st)))
  /\ items_scan false
       (html_lines (finish (run_lines initial (lines_of txt))))
     = Some false.
Proof.
  assert (H : forall ls,
             invariant (run_lines initial ls)
             /\ items_scan false (html_lines (run_lines initial ls))
                = Some (negb (null (list_stack (run_lines initial ls))))).
  { intros ls. split.
    - apply invariant_run_lines, invariant_initial.
    - apply items_run_lines; [apply invariant_initial | reflexivity]. }
  intros st. split; [apply H|].
  destruct (H (lines_of txt)) as [I Hs].
  set (st1 := run_lines initial (lines_of txt)) in *.
  pose proof (items_flush_close st1 I Hs) as Hc.
  unfold finish. destruct (in_code_block _); [|exact Hc].
  cbn [html_lines emit]. rewrite items_scan_neutral by reflexivity.
  exact Hc.
Qed.

(* ================================================================== *)
(** ** Block quotes *)

Lemma memb_lstrip (c : ascii) (s : text) :
  memb c s = false -> memb c (lstrip s) = false.
Proof.
  induction s as [|x s IH]; intros H; [reflexivity|].
  cbn [lstrip]. destruct (isspace x); [|exact H].
  apply IH. unfold memb in *. cbn [existsb] in H.
  apply orb_false_iff in H. apply H.
Qed.

Lemma memb_rev (c : ascii) (s : text) : memb c (rev s) = memb c s.
Proof.
  unfold memb. induction s as [|x s IH]; [reflexivity|].
  cbn [rev existsb]. rewrite existsb_app, IH. cbn [existsb].
  rewrite orb_false_r. apply orb_comm.
Qed.

Lemma memb_rstrip (c : ascii) (s : text) :
  memb c s = false -> memb c (rstrip s) = false.
Proof.
  intros H. unfold rstrip. rewrite memb_rev. apply memb_lstrip.
  rewrite memb_rev. exact H.
Qed.

Lemma dot_takes_all (prev : option ascii) (y : text) :
  memb nl y = false ->
  m_atoms [Rep true dot 0 None] prev y = Some ([y], length y + 0).
Proof.
  intros H. rewrite <- (app_nil_r y) at 1.
  erewrite m_atoms_rep_take; [reflexivity | | exact I | lia | reflexivity].
  apply memb_false_forall, H.
Qed.

Lemma m_atoms_rep_eq (cap : bool) (p : ascii -> bool) (lo : nat)
    (hi : option nat) (rs : regex) (prev : option ascii) (s : text) :
  m_atoms (Rep cap p lo hi :: rs) prev s
  = try_down
      (fun k =>
         bump k (if cap then Some (firstn k s) else None)
              (m_atoms rs (last_char prev (firstn k s)) (skipn k s)))
      lo (run p hi s).
Proof. reflexivity. Qed.

Lemma blockquote_matches (y : text) :
  memb nl y = false ->
  exists n,
    re_match pat_blockquote (">"%char :: y)
    = Some ([match y with
             | c :: r => if isspace c then r else y
             | [] => []
             end], n).
Proof.
  intros H. unfold re_match, pat_blockquote.
  rewrite m_atoms_bol, m_atoms_chr.
  assert (Hin : exists n,
             m_atoms [Rep false isspace 0 (Some 1); Rep true dot 0 None]
               (Some ">"%char) y
             = Some ([match y with
                      | c :: r => if isspace c then r else y
                      | [] => []
                      end], n)).
  { rewrite m_atoms_rep_eq. destruct y as [|c r].
    - eexists. reflexivity.
    - cbn [run]. destruct (isspace c) eqn:Hc.
      + assert (Hr : memb nl r = false).
        { unfold memb in *. cbn [existsb] in H. apply orb_false_iff in H.
          apply H. }
        assert (H0 : run isspace (Some 0) r = 0).
        { destruct r as [|c' r']; [reflexivity|].
          cbn [run]. destruct (isspace c'); reflexivity. }
        rewrite H0. eexists.
        apply try_down_hit; [lia|].
        cbv beta. cbn [firstn skipn].
        erewrite dot_takes_all by exact Hr. reflexivity.
      + eexists. apply try_down_hit; [lia|].
        cbv beta. cbn [firstn skipn].
        erewrite dot_takes_all by exact H. reflexivity. }
  destruct Hin as [n Hn]. rewrite Hn. eexists. reflexivity.
Qed.

(** The blockquote branch on a line whose first visible character is
    [>]. *)
Lemma step_blockquote (st : state) (ws rest : text) :
  in_code_block st = false ->
  blank ws = true ->
  memb nl rest = false ->
  let content :=
    match rstrip rest with
    | c :: r => if isspace c then r else rstrip rest
    | [] => []
    end in
  step st (ws ++ ">"%char :: rest)
  = emit (str "<blockquote>" ++ _process_inline content
          ++ str "</blockquote>")
         (close_lists (flush_paragraph st)).
Proof.
  intros Hin Hws Hnl content.
  destruct (strip_visible ws ">" rest Hws eq_refl) as [_ Hs].
  destruct (blockquote_matches (rstrip rest) (memb_rstrip nl rest Hnl))
    as [n Hm].
  unfold step. rewrite Hs, Hin, Hm.
  assert (Hh : re_match pat_heading (">"%char :: rstrip rest) = None).
  { unfold re_match, pat_heading. rewrite m_atoms_bol.
    apply m_atoms_rep_miss; [reflexivity | lia]. }
  rewrite Hh. reflexivity.
Qed.

(** X17: outside a code block, a line whose first visible character is [>]
    appends to the output, after the flush of the pending paragraph and the
    closing of the open list, exactly one line, a [<blockquote>] element;
    of the text after the [>], trimmed on the right, at most one leading
    whitespace character is dropped, and the rest, further leading
    whitespace included, goes through the inline pass.  No list and no
    paragraph is pending afterwards. *)
Theorem blockquote_drops_one_space (st : state) (ws rest : text) :
  in_code_block st = false ->
  blank ws = true ->
  memb nl rest = false ->
  let content :=
    match rstrip rest with
    | c :: r => if isspace c then r else rstrip rest
    | [] => []
    end in
  let st' := step st (ws ++ ">"%char :: rest) in
  html_lines st'
  = html_lines (close_lists (flush_paragraph st))
    ++ [str "<blockquote>" ++ _process_inline content
        ++ str "</blockquote>"]
  /\ list_stack st' = []
  /\ paragraph_lines st' = [].
Proof.
  intros Hin Hws Hnl content st'. subst st'.
  rewrite (step_blockquote st ws rest Hin Hws Hnl).
  split; [reflexivity|]. split; [reflexivity|].
  apply flush_paragraph_clears.
Qed.

Lemma blockquote_drops_one_space_witness :
  html_lines (step initial (str " >  two  "))
  = [str "<blockquote> two</blockquote>"].
Proof.
  apply (proj1 (blockquote_drops_one_space initial (str " ")
                  (str "  two  ") eq_refl eq_refl eq_refl)).
Defined.

(* ================================================================== *)
(** ** Line endings *)

Lemma split_no_sep (sep : ascii) (a : text) :
  memb sep a = false -> split sep a = [a].
Proof.
  induction a as [|c a IH]; intros H; [reflexivity|].
  apply memb_cons_false in H. destruct H as [Hc Ha].
  cbn [split]. rewrite Hc, (IH Ha). reflexivity.
Qed.

Lemma split_app_sep (sep : ascii) (a s : text) :
  memb sep a = false -> split sep (a ++ sep :: s) = a :: split sep s.
Proof.
  induction a as [|c a IH]; intros H.
  - cbn [app split]. rewrite Ascii.eqb_refl. reflexivity.
  - apply memb_cons_false in H. destruct H as [Hc Ha].
    cbn [app split]. rewrite Hc, (IH Ha). reflexivity.
Qed.

Lemma split_join (sep : ascii) (ls : list text) :
  ls <> [] -> Forall (fun l => memb sep l = false) ls ->
  split sep (join [sep] ls) = ls.
Proof.
  intros Hne H. induction H as [|l ls Hl Hls IH]; [congruence|].
  destruct ls as [|l' ls'].
  - apply split_no_sep, Hl.
  - change (join [sep] (l :: l' :: ls'))
      with (l ++ sep :: join [sep] (l' :: ls')).
    rewrite (split_app_sep sep l _ Hl), IH by discriminate. reflexivity.
Qed.

Lemma replace_go_app_absent (c : ascii) (old new a s : text) :
  memb c a = false ->
  replace_go (c :: old) new (a ++ s) 0
  = a ++ replace_go (c :: old) new s 0.
Proof.
  induction a as [|x a IH]; intros H; [reflexivity|].
  apply memb_cons_false in H. destruct H as [Hx Ha].
  cbn [app replace_go startswith].
  rewrite Ascii.eqb_sym, Hx. cbn [andb]. rewrite (IH Ha). reflexivity.
Qed.

Lemma replace_absent_first (c : ascii) (old new s : text) :
  memb c s = false -> replace (c :: old) new s = s.
Proof.
  intros H. unfold replace. rewrite <- (app_nil_r s) at 1.
  rewrite (replace_go_app_absent c old new s [] H). apply app_nil_r.
Qed.

Lemma replace_crlf_without_nl (s : text) :
  memb nl s = false -> replace [cr; nl] [nl] s = s.
Proof.
  unfold replace. induction s as [|x s IH]; intros H; [reflexivity|].
  apply memb_cons_false in H. destruct H as [Hx Hs].
  cbn [replace_go startswith]. rewrite (IH Hs).
  destruct s as [|y s'].
  - rewrite andb_false_r. reflexivity.
  - apply memb_cons_false in Hs. destruct Hs as [Hy _].
    rewrite Ascii.eqb_sym in Hy. rewrite Hy, andb_false_r. reflexivity.
Qed.

Lemma replace_join_crlf (ls : list text) :
  Forall (fun l => memb cr l = false) ls ->
  replace [cr; nl] [nl] (join [cr; nl] ls) = join [nl] ls.
Proof.
  induction 1 as [|l ls Hl _ IH]; [reflexivity|].
  destruct ls as [|l' ls'].
  - apply replace_absent_first, Hl.
  - change (join [cr; nl] (l :: l' :: ls'))
      with (l ++ cr :: nl :: join [cr; nl] (l' :: ls')).
    change (join [nl] (l :: l' :: ls'))
      with (l ++ nl :: join [nl] (l' :: ls')).
    unfold replace in *. rewrite (replace_go_app_absent cr _ _ l _ Hl).
    rewrite <- IH. reflexivity.
Qed.

Lemma replace_join_cr (ls : list text) :
  Forall (fun l => memb cr l = false) ls ->
  replace [cr] [nl] (join [cr] ls) = join [nl] ls.
Proof.
  induction 1 as [|l ls Hl _ IH]; [reflexivity|].
  destruct ls as [|l' ls'].
  - apply replace_absent_first, Hl.
  - change (join [cr] (l :: l' :: ls'))
      with (l ++ cr :: join [cr] (l' :: ls')).
    change (join [nl] (l :: l' :: ls'))
      with (l ++ nl :: join [nl] (l' :: ls')).
    unfold replace in *. rewrite (replace_go_app_absent cr _ _ l _ Hl).
    rewrite <- IH. reflexivity.
Qed.

Lemma memb_join (c : ascii) (sep : text) (ls : list text) :
  memb c sep = false -> Forall (fun l => memb c l = false) ls ->
  memb c (join sep ls) = false.
Proof.
  intros Hsep. induction 1 as [|l ls Hl _ IH]; [reflexivity|].
  destruct ls as [|l' ls']; [exact Hl|].
  change (join sep (l :: l' :: ls'))
    with (l ++ sep ++ join sep (l' :: ls')).
  rewrite !memb_app, Hl, Hsep, IH. reflexivity.
Qed.

Lemma lines_of_join (ls : list text) :
  ls <> [] ->
  Forall (fun l => memb nl l = false) ls ->
  Forall (fun l => memb cr l = false) ls ->
  lines_of (join [nl] ls) = ls
  /\ lines_of (join [cr; nl] ls) = ls
  /\ lines_of (join [cr] ls) = ls.
Proof.
  intros Hne Hnl Hcr. unfold lines_of.
  assert (Hj : memb cr (join [nl] ls) = false)
    by (apply memb_join; [reflexivity | exact Hcr]).
  repeat split.
  - rewrite (replace_absent_first cr [nl] [nl] _ Hj).
    rewrite (replace_absent_first cr [] [nl] _ Hj).
    apply split_join; assumption.
  - rewrite (replace_join_crlf ls Hcr).
    rewrite (replace_absent_first cr [] [nl] _ Hj).
    apply split_join; assumption.
  - rewrite replace_crlf_without_nl
      by (apply memb_join; [reflexivity | exact Hnl]).
    rewrite (replace_join_cr ls Hcr).
    apply split_join; assumption.
Qed.

(** X18: the three line-ending conventions give the same lines and so the
    same output: for one or more lines without line feed and carriage
    return, joined by [LF], by [CR LF] or by [CR], the loop sees exactly
    these lines. *)
Theorem line_endings_agree (ls : list text) :
  ls <> [] ->
  Forall (fun l => memb nl l = false) ls ->
  Forall (fun l => memb cr l = false) ls ->
  lines_of (join [nl] ls) = ls
  /\ lines_of (join [cr; nl] ls) = ls
  /\ lines_of (join [cr] ls) = ls
  /\ _basic_markdown_to_html (join [cr; nl] ls)
     = _basic_markdown_to_html (join [nl] ls)
  /\ _basic_markdown_to_html (join [cr] ls)
     = _basic_markdown_to_html (join [nl] ls).
Proof.
  intros Hne Hnl Hcr.
  destruct (lines_of_join ls Hne Hnl Hcr) as (H1 & H2 & H3).
  unfold _basic_markdown_to_html. rewrite H1, H2, H3.
  repeat split; reflexivity.
Qed.

Lemma line_endings_agree_witness :
  lines_of (str "# a" ++ [cr; nl] ++ str "b") = [str "# a"; str "b"].
Proof.
  apply (proj1 (proj2 (line_endings_agree [str "# a"; str "b"]
                         ltac:(discriminate)
                         ltac:(repeat constructor)
                         ltac:(repeat constructor)))).
Defined.

(* ================================================================== *)
(** ** A document that is one paragraph *)

(** X19: a text of one or more paragraph lines separated by line feeds
    converts to one [<p>] element, around the inline rendering of the
    trimmed lines joined by single spaces. *)
Theorem paragraph_document (lines parts : list text) :
  lines <> [] ->
  Forall (fun l => memb nl l = false) lines ->
  Forall (fun l => memb cr l = false) lines ->
  Forall2 (fun l p => paragraph_line l = Some p) lines parts ->
  _basic_markdown_to_html (join [nl] lines)
  = str "<p>" ++ _process_inline (join (str " ") parts) ++ str "</p>".
Proof.
  intros Hne Hnl Hcr H.
  destruct (lines_of_join lines Hne Hnl Hcr) as (H1 & _ & _).
  unfold _basic_markdown_to_html. rewrite H1.
  assert (Hst : run_lines initial lines = set_paragraph_lines parts initial).
  { rewrite (run_paragraph lines parts initial eq_refl H). reflexivity. }
  assert (Ht : Forall trimmed parts).
  { clear - H. induction H as [|l p ls ps Hl _ IH]; constructor;
      [apply (paragraph_line_trimmed l p Hl) | exact IH]. }
  destruct H as [|l p ls ps Hl Hrest]; [congruence|].
  inversion Ht as [|? ? Hp1 Hps]; subst.
  assert (Hmap : map strip (p :: ps) = p :: ps).
  { clear - Ht. induction Ht as [|q qs Hq _ IH]; [reflexivity|].
    simpl. rewrite (trimmed_strip q Hq), IH. reflexivity. }
  pose proof (trimmed_join p ps Hp1 Hps) as Hj.
  rewrite Hst. unfold finish, flush_paragraph.
  cbn [paragraph_lines set_paragraph_lines null]. rewrite Hmap.
  rewrite (trimmed_strip _ Hj).
  destruct Hj as (c & y & Ej & _ & _). rewrite Ej. reflexivity.
Qed.

Lemma paragraph_document_witness :
  _basic_markdown_to_html (str "see **this** " ++ [nl] ++ str " and that")
  = str "<p>see <strong>this</strong> and that</p>".
Proof.
  apply (paragraph_document [str "see **this** "; str " and that"]
           [str "see **this**"; str "and that"]);
    [discriminate | repeat constructor | repeat constructor
    | repeat constructor].
Defined.

(* ================================================================== *)
(** ** A document that is one fenced code block *)

Lemma run_code_body (body : list text) (st : state) :
  in_code_block st = true ->
  Forall (fun l => is_fence l = false) body ->
  html_lines (run_lines st body)
  = html_lines st ++ map (html_escape true) body
  /\ in_code_block (run_lines st body) = true
  /\ list_stack (run_lines st body) = list_stack st
  /\ paragraph_lines (run_lines st body) = paragraph_lines st.
Proof.
  intros Hin H. revert st Hin.
  induction H as [|l ls Hl _ IH]; intros st Hin.
  - simpl. rewrite app_nil_r. auto.
  - assert (Hstep : step st l = emit (html_escape true l) st).
    { unfold step. unfold is_fence in Hl. rewrite Hl, Hin. reflexivity. }
    simpl. rewrite Hstep.
    destruct (IH (emit (html_escape true l) st) Hin) as (H1 & H2 & H3 & H4).
    unfold run_lines in *. rewrite H1, H2, H3, H4. simpl.
    rewrite <- app_assoc. auto.
Qed.

Lemma rstrip_of_strip (s : text) : strip s = s -> rstrip s = s.
Proof.
  intros H. rewrite <- H at 1. unfold strip. rewrite rstrip_rstrip.
  exact H.
Qed.

(** X20: a document made of an opening fence with a language tag, body
    lines that are no fence lines, and a closing fence converts to the
    opening marker of a code block, with the escaped tag as its class when
    the tag is not empty, then the body lines, each entity-escaped and
    otherwise as it is, in their order, then the closing marker. *)
Theorem fenced_block_document (lang : text) (body : list text) :
  strip lang = lang ->
  memb nl lang = false -> memb cr lang = false ->
  Forall (fun l => memb nl l = false) body ->
  Forall (fun l => memb cr l = false) body ->
  Forall (fun l => is_fence l = false) body ->
  let class_attr :=
    if null lang then []
    else str " class=" ++ [dquote] ++ str "language-"
         ++ html_escape true lang ++ [dquote] in
  _basic_markdown_to_html (join [nl] ((fence ++ lang) :: body ++ [fence]))
  = join [nl] ((str "<pre><code" ++ class_attr ++ str ">")
               :: map (html_escape true) body ++ [str "</code></pre>"]).
Proof.
  intros Hstrip Hnl Hcr Hbnl Hbcr Hbody class_attr.
  assert (Hlines : lines_of (join [nl] ((fence ++ lang) :: body ++ [fence]))
                   = (fence ++ lang) :: body ++ [fence]).
  { apply lines_of_join; [discriminate | |].
    - constructor; [rewrite memb_app, Hnl; reflexivity|].
      apply Forall_app. split; [exact Hbnl | repeat constructor].
    - constructor; [rewrite memb_app, Hcr; reflexivity|].
      apply Forall_app. split; [exact Hbcr | repeat constructor]. }
  assert (Hstripped : lstrip (rstrip (fence ++ lang)) = fence ++ lang).
  { change (fence ++ lang) with (str "``" ++ "`"%char :: lang).
    rewrite rstrip_app_nonspace by reflexivity.
    rewrite (rstrip_of_strip lang Hstrip). reflexivity. }
  assert (Hopen : step initial (fence ++ lang)
                  = emit (str "<pre><code" ++ class_attr ++ str ">")
                         (set_code true lang initial)).
  { unfold step. rewrite Hstripped.
    change (startswith fence (fence ++ lang)) with true. cbv iota.
    change (skipn 3 (fence ++ lang)) with lang. rewrite Hstrip.
    reflexivity. }
  unfold _basic_markdown_to_html. rewrite Hlines. f_equal.
  change (run_lines initial ((fence ++ lang) :: body ++ [fence]))
    with (run_lines (step initial (fence ++ lang)) (body ++ [fence])).
  rewrite Hopen, run_lines_app.
  set (st1 := emit (str "<pre><code" ++ class_attr ++ str ">")
                   (set_code true lang initial)).
  destruct (run_code_body body st1 eq_refl Hbody) as (H1 & H2 & H3 & H4).
  set (st2 := run_lines st1 body) in *.
  assert (Hclose : run_lines st2 [fence]
                   = set_code false [] (emit (str "</code></pre>") st2)).
  { simpl. unfold step.
    change (startswith fence (lstrip (rstrip fence))) with true.
    cbv iota. rewrite H2. reflexivity. }
  rewrite Hclose. unfold finish, flush_paragraph.
  cbn [paragraph_lines set_code emit]. rewrite H4.
  cbn [st1 paragraph_lines set_code emit initial null].
  unfold close_lists.
  cbn [list_stack in_code_block html_lines set_code emit set_list_stack].
  rewrite H3, H1. reflexivity.
Qed.

Lemma fenced_block_document_witness :
  _basic_markdown_to_html
    (str "```c" ++ [nl] ++ str "a < b;" ++ [nl] ++ str "```")
  = str "<pre><code class=" ++ [dquote] ++ str "language-c" ++ [dquote]
    ++ str ">" ++ [nl] ++ str "a &lt; b;" ++ [nl] ++ str "</code></pre>".
Proof.
  apply (fenced_block_document (str "c") [str "a < b;"]);
    (reflexivity || (repeat constructor)).
Defined.

(* ================================================================== *)
(** ** Horizontal rules *)

Lemma strip_all_visible (s : text) :
  Forall (fun x => isspace x = false) s -> lstrip (rstrip s) = s.
Proof.
  intros H.
  assert (Hl : forall t, Forall (fun x => isspace x = false) t ->
                         lstrip t = t).
  { intros t Ht. destruct Ht as [|x t Hx _]; [reflexivity|].
    cbn [lstrip]. rewrite Hx. reflexivity. }
  unfold rstrip. rewrite (Hl (rev s)) by (apply Forall_rev, H).
  rewrite rev_involutive. apply Hl, H.
Qed.

Lemma rule_mark_cases (c : ascii) :
  memb c (str "-*_") = true ->
  c = "-"%char \/ c = "*"%char \/ c = "_"%char.
Proof.
  unfold memb. cbn [existsb str list_ascii_of_string].
  rewrite orb_false_r, !orb_true_iff, !Ascii.eqb_eq. intuition congruence.
Qed.

(** The branch taken by a line made of one mark [-], [*] or [_]
    repeated. *)
Lemma step_rule_marks (st : state) (c : ascii) (n : nat) :
  in_code_block st = false ->
  memb c (str "-*_") = true ->
  1 <= n ->
  step st (repeat c n)
  = if n =? 3 then emit (str "<hr />") (close_lists (flush_paragraph st))
    else set_paragraph_lines (paragraph_lines st ++ [repeat c n]) st.
Proof.
  intros Hin Hc Hn. destruct n as [|m]; [lia|].
  assert (Hs : lstrip (rstrip (repeat c (S m))) = repeat c (S m)).
  { apply strip_all_visible, Forall_forall. intros x Hx.
    apply repeat_spec in Hx. subst x.
    destruct (rule_mark_cases c Hc) as [-> | [-> | ->]]; reflexivity. }
  assert (Hf : startswith fence (repeat c (S m)) = false).
  { destruct (rule_mark_cases c Hc) as [-> | [-> | ->]]; reflexivity. }
  assert (Hr : is_rule (repeat c (S m)) = (S m =? 3)).
  { destruct (rule_mark_cases c Hc) as [-> | [-> | ->]];
      destruct m as [|[|[|m]]]; reflexivity. }
  assert (Hh : re_match pat_heading (repeat c (S m)) = None).
  { unfold re_match, pat_heading. cbn [repeat]. rewrite m_atoms_bol.
    apply m_atoms_rep_miss; [|lia].
    destruct (rule_mark_cases c Hc) as [-> | [-> | ->]]; reflexivity. }
  assert (Hb : re_match pat_blockquote (repeat c (S m)) = None).
  { unfold re_match, pat_blockquote. cbn [repeat]. rewrite m_atoms_bol.
    apply m_atoms_chr_miss.
    destruct (rule_mark_cases c Hc) as [-> | [-> | ->]]; reflexivity. }
  assert (Hu : re_match pat_unordered (repeat c (S m)) = None).
  { unfold re_match, pat_unordered. cbn [repeat]. rewrite m_atoms_bol.
    assert (Hrest : forall prev,
               m_atoms [Rep false isspace 1 None; Rep true dot 0 None] prev
                 (repeat c m) = None).
    { intros prev. destruct m as [|m]; [reflexivity|]. cbn [repeat].
      apply m_atoms_rep_miss; [|lia].
      destruct (rule_mark_cases c Hc) as [-> | [-> | ->]]; reflexivity. }
    cbn [m_atoms]. destruct (bullet c); [|reflexivity].
    fold (m_atoms [Rep false isspace 1 None; Rep true dot 0 None]
            (Some c) (repeat c m)).
    rewrite Hrest. reflexivity. }
  assert (Ho : re_match pat_ordered (repeat c (S m)) = None).
  { unfold re_match, pat_ordered. cbn [repeat]. rewrite m_atoms_bol.
    apply m_atoms_rep_miss; [|lia].
    destruct (rule_mark_cases c Hc) as [-> | [-> | ->]]; reflexivity. }
  unfold step. rewrite Hs, Hin, Hf, Hr, Hh, Hb, Hu, Ho.
  cbn [repeat null]. reflexivity.
Qed.

(** X21: outside a code block, a line made of one mark [-], [*] or [_]
    repeated is a horizontal rule only when there are exactly three marks:
    then it appends the line [<hr />], after the flush of the pending
    paragraph and the closing of the open list.  With any other number of
    marks nothing is appended and the list stack stays as it is; the line
    becomes the last entry of the pending paragraph. *)
Theorem rule_is_exactly_three_marks (st : state) (c : ascii) (n : nat) :
  in_code_block st = false ->
  memb c (str "-*_") = true ->
  1 <= n ->
  let st' := step st (repeat c n) in
  (n = 3 ->
   html_lines st'
   = html_lines (close_lists (flush_paragraph st)) ++ [str "<hr />"]
   /\ list_stack st' = []
   /\ paragraph_lines st' = [])
  /\ (n <> 3 ->
      html_lines st' = html_lines st
      /\ list_stack st' = list_stack st
      /\ paragraph_lines st' = paragraph_lines st ++ [repeat c n]).
Proof.
  intros Hin Hc Hn st'. subst st'.
  rewrite (step_rule_marks st c n Hin Hc Hn). split.
  - intros ->. cbn [Nat.eqb].
    split; [reflexivity|]. split; [reflexivity|].
    apply flush_paragraph_clears.
  - intros Hne. destruct (Nat.eqb_spec n 3) as [E|_]; [congruence|].
    repeat split.
Qed.

Lemma rule_is_exactly_three_marks_witness :
  html_lines (step initial (str "----")) = []
  /\ list_stack (step initial (str "----")) = []
  /\ paragraph_lines (step initial (str "----")) = [str "----"].
Proof.
  apply (proj2 (rule_is_exactly_three_marks initial "-" 4
                  eq_refl eq_refl ltac:(lia)) ltac:(discriminate)).
Defined.

(* ================================================================== *)
(** ** Seven hashes and more *)

Lemma memb_repeat (c x : ascii) (n : nat) :
  Ascii.eqb c x = false -> memb c (repeat x n) = false.
Proof.
  intros H. unfold memb. induction n as [|n IH]; [reflexivity|].
  cbn [repeat existsb]. rewrite H, IH. reflexivity.
Qed.

(** C10: a line of seven or more [#] followed by anything (in particular by
    whitespace and content) never takes the heading branch.  Outside a code
    block the loop body appends nothing to the output for it and leaves the
    list stack as it is; the stripped line becomes the last entry of the
    pending paragraph, and the flush that follows writes it, hashes
    included, through the inline pass into a [<p>] element, which is all
    the output when the line is the whole input.  Inside a code block the
    line is a code line like any other. *)
Theorem C10_seven_hashes_is_paragraph_text (st : state) (n : nat)
    (tail : text) :
  7 <= n ->
  let raw_line := repeat "#"%char n ++ tail in
  let stripped := repeat "#"%char n ++ rstrip tail in
  let element := str "<p>" ++ _process_inline stripped ++ str "</p>" in
  re_match pat_heading (lstrip (rstrip raw_line)) = None
  /\ lstrip (rstrip raw_line) = stripped
  /\ (in_code_block st = false ->
      html_lines (step st raw_line) = html_lines st
      /\ paragraph_lines (step st raw_line) = paragraph_lines st ++ [stripped]
      /\ list_stack (step st raw_line) = list_stack st
      /\ in_code_block (step st raw_line) = false
      /\ (paragraph_lines st = [] ->
          html_lines (flush_paragraph (step st raw_line))
          = html_lines st ++ [element]))
  /\ (in_code_block st = true ->
      html_lines (step st raw_line)
      = html_lines st ++ [html_escape true raw_line])
  /\ (memb nl tail = false -> memb cr tail = false ->
      _basic_markdown_to_html raw_line = element).
Proof.
  intros Hn raw_line stripped element.
  assert (Hs : lstrip (rstrip raw_line) = stripped).
  { subst raw_line stripped. rewrite (repeat_hash_split n Hn).
    change (str "#######") with (str "######" ++ ["#"%char]).
    rewrite <- !app_assoc. simpl ([_] ++ _).
    rewrite rstrip_app_nonspace by reflexivity.
    clear Hn. generalize (n - 7). intros k.
    assert (Hk : rstrip (repeat "#"%char k ++ tail)
                 = repeat "#"%char k ++ rstrip tail).
    { induction k as [|k IH]; simpl; [reflexivity|].
      rewrite rstrip_cons_nonspace by reflexivity. rewrite IH. reflexivity. }
    rewrite Hk. reflexivity. }
  assert (Hh : stripped
               = str "#######" ++ (repeat "#"%char (n - 7) ++ rstrip tail)).
  { subst stripped. rewrite (repeat_hash_split n Hn) at 1.
    rewrite <- app_assoc. reflexivity. }
  assert (Hstep : forall st0,
             step st0 raw_line =
             if in_code_block st0 then emit (html_escape true raw_line) st0
             else set_paragraph_lines (paragraph_lines st0 ++ [stripped])
                                      st0).
  { intros st0. unfold step. rewrite Hs. rewrite Hh.
    destruct (in_code_block st0); reflexivity. }
  assert (Htrim : strip stripped = stripped).
  { rewrite <- Hs, lstrip_rstrip. apply strip_strip. }
  assert (Hflush : forall st0,
             in_code_block st0 = false -> paragraph_lines st0 = [] ->
             html_lines (flush_paragraph (step st0 raw_line))
             = html_lines st0 ++ [element]).
  { intros st0 Hin Hp. rewrite Hstep, Hin, Hp.
    rewrite flush_paragraph_emits;
      cbn [paragraph_lines set_paragraph_lines app map join];
      rewrite ?Htrim, ?Htrim; [reflexivity | discriminate|].
    rewrite Hh. discriminate. }
  split; [rewrite Hs, Hh; apply seven_hashes_no_heading|].
  split; [exact Hs|].
  split; [|split].
  - intros Hin. rewrite Hstep, Hin.
    repeat split; try reflexivity; [exact Hin|].
    intros Hp. pose proof (Hflush st Hin Hp) as H.
    rewrite Hstep, Hin in H. exact H.
  - intros Hin. rewrite Hstep, Hin. reflexivity.
  - intros Hnl Hcr.
    assert (Hl : lines_of raw_line = [raw_line]).
    { apply (lines_of_join [raw_line]); [discriminate | |];
        (constructor; [|constructor]); subst raw_line;
        rewrite memb_app, memb_repeat by reflexivity; assumption. }
    unfold _basic_markdown_to_html. rewrite Hl.
    change (run_lines initial [raw_line]) with (step initial raw_line).
    pose proof (Hflush initial eq_refl eq_refl) as H.
    assert (Hc1 : in_code_block (step initial raw_line) = false)
      by (rewrite Hstep; reflexivity).
    assert (Hk1 : list_stack (step initial raw_line) = [])
      by (rewrite Hstep; reflexivity).
    pose proof (flush_paragraph_keeps (step initial raw_line))
      as (Hc & Hk & _).
    rewrite Hc1 in Hc. rewrite Hk1 in Hk.
    unfold finish, close_lists.
    cbn [in_code_block html_lines list_stack set_list_stack].
    rewrite Hc, Hk, H. reflexivity.
Qed.

Lemma C10_witness :
  _basic_markdown_to_html (str "####### Seven") = str "<p>####### Seven</p>".
Proof.
  apply (proj2 (proj2 (proj2 (proj2 (C10_seven_hashes_is_paragraph_text
                                       initial 7 (str " Seven") (le_n 7))))));
    reflexivity.
Defined.
